(** * Tomb prototype: the movement and collision core

  A shallow embedding of the gameplay core of the game (settings.py,
  tilemap.py, objects.py, game.py, with the shop of shop.py and the level
  loader of utils.py) and the properties its specification states about
  it.

  Conventions of the embedding:
  - Python integers are [Z]; Python floats (the player position while it
    slides, the frame time [dt], the timers) are rationals [Q], the exact
    arithmetic that the floats approximate;
  - a Python call that can raise or loop returns an [outcome];
  - rendering, fonts and particles are left out, and the camera and the
    screen shake stand apart in the module [Camera]: no gameplay field
    depends on them.  The sounds are kept, as a log of the effects played,
    because they are the observable trace of a frame. *)

From Stdlib Require Import ZArith QArith Qround String Ascii List Bool Lia Lqa.
Import ListNotations.
Open Scope Z_scope.

(** ** settings.py *)

Module Settings.
Definition TILE_SIZE : Z := 32.
Definition MAX_LIVES : Z := 1.
Definition PLAYER_SPEED : Z := 1100.
Definition LEVELS : list string := ["level1"; "level2"; "level3"]%string.
Definition WINDOW_WIDTH : Z := 800.
Definition WINDOW_HEIGHT : Z := 600.
Definition GAME_SCALE : Q := 62 # 100.
Definition UI_HEIGHT : Z := 80.
Definition CAMERA_SMOOTHNESS : Z := 20.
(** [SKINS]: the key and the price of each skin (the file, the name and the
    description only serve the drawing). *)
Definition SKINS : list (string * Z) :=
  [("travel_boy", 0); ("agent", 5); ("cyclop", 10)]%string.
End Settings.
Import Settings.

(** ** Outcomes of Python code

  [Done v]: the call returns [v]; [Raised]: it raises (IndexError,
  ZeroDivisionError); [Timeout]: the model ran out of fuel, which stands
  for a loop that has not finished yet. *)

Inductive outcome (A : Type) : Type :=
| Done (v : A)
| Raised
| Timeout.
Arguments Done {A} v.
Arguments Raised {A}.
Arguments Timeout {A}.

Definition bind {A B} (m : outcome A) (k : A -> outcome B) : outcome B :=
match m with
| Done v => k v
| Raised => Raised
| Timeout => Timeout
end.

Declare Scope outcome_scope.
Delimit Scope outcome_scope with outcome.
Notation "x <- m ;; k" := (bind m (fun x => k))
(at level 61, m at next level, right associativity) : outcome_scope.

(** ** tilemap.py *)

Module TileMap.

Record t : Type := mk {
  level_data : list string;
  width : Z;
  height : Z
}.

(** [" " * n] *)
Fixpoint spaces (n : nat) : string :=
  match n with
  | O => EmptyString
  | S n' => String " "%char (spaces n')
  end.

(** [max(len(row) for row in rows)] over a non-empty list *)
Definition max_len (rows : list string) : nat :=
  fold_right (fun row m => Nat.max (String.length row) m) O rows.

(** The normalisation of one row in [__init__]. *)
Definition pad_row (w : nat) (row : string) : string :=
  if (String.length row <? w)%nat
  then (row ++ spaces (w - String.length row))%string
  else row.

(** [TileMap.__init__], from the rows [load_level] returned. *)
Definition init (rows : list string) : t :=
  match rows with
  | [] => mk [] 0 0
  | _ :: _ =>
      let w := max_len rows in
      mk (map (pad_row w) rows) (Z.of_nat w) (Z.of_nat (List.length rows))
  end.

(** [self.solid_tiles = {"#"}] *)
Definition solid_tiles : list ascii := ["#"%char].

Definition in_tiles (c : ascii) (s : list ascii) : bool :=
  existsb (Ascii.eqb c) s.

(** [self.level_data[y][x]] for indices already known to be
    non-negative: [None] is Python's IndexError. *)
Definition index (tm : t) (x y : Z) : option ascii :=
  match nth_error (level_data tm) (Z.to_nat y) with
  | Some row => String.get (Z.to_nat x) row
  | None => None
  end.

(** [get_tile] *)
Definition get_tile (tm : t) (x y : Z) : outcome ascii :=
  if (0 <=? y) && (y <? height tm) && (0 <=? x) && (x <? width tm)
  then match index tm x y with
       | Some c => Done c
       | None => Raised
       end
  else Done " "%char.

(** [is_solid] *)
Definition is_solid (tm : t) (x y : Z) : outcome bool :=
  if (x <? 0) || (y <? 0) || (x >=? width tm) || (y >=? height tm)
  then Done true
  else (c <- get_tile tm x y ;; Done (in_tiles c solid_tiles))%outcome.

(** [find_player_spawn]: the first "P" in row-major order, else (1, 1). *)
Fixpoint find_in_row (row : string) (x : Z) : option Z :=
  match row with
  | EmptyString => None
  | String ch rest =>
      if Ascii.eqb ch "P"%char then Some x else find_in_row rest (x + 1)
  end.

Fixpoint find_in_rows (rows : list string) (y : Z) : option (Z * Z) :=
  match rows with
  | [] => None
  | row :: rest =>
      match find_in_row row 0 with
      | Some x => Some (x, y)
      | None => find_in_rows rest (y + 1)
      end
  end.

Definition find_player_spawn (tm : t) : Z * Z :=
  match find_in_rows (level_data tm) 0 with
  | Some p => p
  | None => (1, 1)
  end.

(** The grid is rectangular: what [__init__] establishes. *)
Definition rectangular (tm : t) : Prop :=
  height tm = Z.of_nat (List.length (level_data tm)) /\
  Forall (fun row => Z.of_nat (String.length row) = width tm) (level_data tm).

Definition out_of_bounds (tm : t) (x y : Z) : Prop :=
  ~ (0 <= x < width tm /\ 0 <= y < height tm).

(** [self.connectable_tiles = {"#", "T"}] *)
Definition connectable_tiles : list ascii := ["#"%char; "T"%char].

(** [is_connectable] *)
Definition is_connectable (tm : t) (x y : Z) : outcome bool :=
  (tile <- get_tile tm x y ;; Done (in_tiles tile connectable_tiles))%outcome.

(** [__len__] *)
Definition len (tm : t) : Z := height tm.

(** [__getitem__]: a row by its index; no negative indices here. *)
Definition getitem (tm : t) (i : Z) : outcome string :=
  if (0 <=? i) && (i <? height tm)
  then match nth_error (level_data tm) (Z.to_nat i) with
       | Some row => Done row
       | None => Raised
       end
  else Raised.

End TileMap.

(** ** The look-ahead loop of [Player.start_move]

  [while True: next = last_free + d; if is_solid(next): break;
   last_free = next].  One unit of fuel is one evaluation of the loop
  body. *)

Fixpoint slide_loop (fuel : nat) (tm : TileMap.t)
  (dx dy last_free_x last_free_y : Z) : outcome (Z * Z) :=
match fuel with
| O => Timeout
| S fuel' =>
    let next_x := last_free_x + dx in
    let next_y := last_free_y + dy in
    match TileMap.is_solid tm next_x next_y with
    | Done true => Done (last_free_x, last_free_y)
    | Done false => slide_loop fuel' tm dx dy next_x next_y
    | Raised => Raised
    | Timeout => Timeout
    end
end.

(** Enough loop iterations for any grid: the loop leaves the grid after at
  most [max width height] free cells (see [slide_loop_enough]). *)
Definition slide_fuel (tm : TileMap.t) : nat :=
S (S (Z.to_nat (Z.max (TileMap.width tm) (TileMap.height tm)))).

Definition look_ahead (tm : TileMap.t) (tile_x tile_y dx dy : Z)
: outcome (Z * Z) :=
slide_loop (slide_fuel tm) tm dx dy tile_x tile_y.

(** The four directions [handle_input] can produce. *)
Definition cardinal (dx dy : Z) : Prop :=
(dx = -1 /\ dy = 0) \/ (dx = 1 /\ dy = 0) \/
(dx = 0 /\ dy = -1) \/ (dx = 0 /\ dy = 1).

(** The distance left to the edge of the grid in the direction of the
    slide: it bounds the iterations still to come. *)
Definition room (tm : TileMap.t) (dx dy x y : Z) : Z :=
  if dx =? 1 then TileMap.width tm - x
  else if dx =? -1 then x + 1
  else if dy =? 1 then TileMap.height tm - y
  else y + 1.

(** ** Numbers

    [int(v)] on a float truncates toward zero; [a // b] is the floor of the
    quotient; [v ** 0.5] is the square root. *)

Definition Qtrunc (q : Q) : Z := Z.quot (Qnum q) (Zpos (Qden q)).

Definition Qfloordiv (a : Q) (b : Z) : Z := Qfloor (a / inject_Z b).

(** The square root, exact on every square of a rational (and rounded down
    on numerator and denominator elsewhere).  [Player.update] applies it to
    [vec_x ** 2 + vec_y ** 2]; during a slide one of the two is zero, so the
    argument is a square. *)
Definition Qsqrt (q : Q) : Q :=
  let r := Qred q in Z.sqrt (Qnum r) # Pos.sqrt (Qden r).

Definition Qpositive (q : Q) : bool := negb (Qle_bool q 0).

(** [seq[i]] on a Python list: negative indices count from the end. *)
Definition py_index {A} (l : list A) (i : Z) : outcome A :=
  let n := Z.of_nat (List.length l) in
  let j := if i <? 0 then i + n else i in
  if (0 <=? j) && (j <? n)
  then match nth_error l (Z.to_nat j) with
       | Some v => Done v
       | None => Raised
       end
  else Raised.

(** ** pygame.Rect

    Integer rectangles.  [colliderect] is pygame's test: rectangles of zero
    width or height never collide, and touching edges do not overlap. *)

Module Rect.

Record t : Type := mk { x : Z; y : Z; w : Z; h : Z }.

(** [pygame.Rect(x, y, w, h)] from float coordinates. *)
Definition of_floats (fx fy : Q) (w h : Z) : t := mk (Qtrunc fx) (Qtrunc fy) w h.

Definition colliderect (a b : t) : bool :=
  if (w a =? 0) || (h a =? 0) || (w b =? 0) || (h b =? 0) then false
  else (Z.min (x a) (x a + w a) <? Z.max (x b) (x b + w b))
    && (Z.min (y a) (y a + h a) <? Z.max (y b) (y b + h b))
    && (Z.max (x a) (x a + w a) >? Z.min (x b) (x b + w b))
    && (Z.max (y a) (y a + h a) >? Z.min (y b) (y b + h b)).

End Rect.

(** ** Sound effects

    The one-shot sounds of the gameplay code, in the order they are played.
    Background music and the menu sounds are left out. *)

Inductive Sfx : Type :=
| SfxCoin | SfxDeath | SfxStar | SfxDot | SfxWin | SfxJump | SfxLanding
| SfxStart.

(** ** objects.py: the entities *)

Module Dot.

Record t : Type := mk { tile_x : Z; tile_y : Z; collected : bool }.

Definition init (tx ty : Z) : t := mk tx ty false.

Definition x (d : t) : Z := tile_x d * TILE_SIZE.
Definition y (d : t) : Z := tile_y d * TILE_SIZE.
Definition size : Z := TILE_SIZE / 6.

Definition rect (d : t) : Rect.t :=
  let center_offset := (TILE_SIZE - size) / 2 in
  Rect.mk (x d + center_offset) (y d + center_offset) size size.

Definition set_collected (d : t) : t := mk (tile_x d) (tile_y d) true.

End Dot.

Module Collectible.

Record t : Type := mk { tile_x : Z; tile_y : Z; collected : bool }.

Definition init (tx ty : Z) : t := mk tx ty false.

Definition collect (c : t) : t := mk (tile_x c) (tile_y c) true.

End Collectible.

Module Star.

Record t : Type := mk { tile_x : Z; tile_y : Z; collected : bool }.

Definition init (tx ty : Z) : t := mk tx ty false.

Definition x (s : t) : Z := tile_x s * TILE_SIZE.
Definition y (s : t) : Z := tile_y s * TILE_SIZE.
Definition size : Z := Qtrunc (inject_Z TILE_SIZE * (7 # 10)).

Definition rect (s : t) : Rect.t :=
  let center_offset := (TILE_SIZE - size) / 2 in
  Rect.mk (x s + center_offset) (y s + center_offset) size size.

Definition set_collected (s : t) : t := mk (tile_x s) (tile_y s) true.

End Star.

Module Trap.

Record t : Type := mk { tile_x : Z; tile_y : Z; active : bool; rect : Rect.t }.

(** [Trap.__init__] *)
Definition init (tx ty : Z) : t :=
  let padding := 6 in
  mk tx ty true
     (Rect.mk (tx * TILE_SIZE + padding) (ty * TILE_SIZE + padding)
              (TILE_SIZE - padding * 2) (TILE_SIZE - padding * 2)).

(** [SpikeTrap.__init__]: the base initialiser, then the smaller hitbox. *)
Definition spike_init (tx ty : Z) : t :=
  let base := init tx ty in
  let trap_size := Qtrunc (inject_Z TILE_SIZE * (35 # 100)) in
  let padding := (TILE_SIZE - trap_size) / 2 in
  mk (tile_x base) (tile_y base) (active base)
     (Rect.mk (tx * TILE_SIZE + padding) (ty * TILE_SIZE + padding)
              (TILE_SIZE - padding * 2) (TILE_SIZE - padding * 2)).

Definition check_hit (tr : t) (player_rect : Rect.t) : bool :=
  if negb (active tr) then false
  else Rect.colliderect (rect tr) player_rect.

(** [update(dt)] is a placeholder: [pass]. *)
Definition update (tr : t) (dt : Q) : t := tr.

End Trap.

Module Exit.

Record t : Type := mk { tile_x : Z; tile_y : Z; rect : Rect.t }.

Definition init (tx ty : Z) : t :=
  let padding := 4 in
  mk tx ty
     (Rect.mk (tx * TILE_SIZE + padding) (ty * TILE_SIZE + padding)
              (TILE_SIZE - padding * 2) (TILE_SIZE - padding * 2)).

Definition check_hit (e : t) (player_rect : Rect.t) : bool :=
  Rect.colliderect (rect e) player_rect.

End Exit.

(** ** objects.py: the player *)

(** [pygame.key.get_pressed()], the four keys [handle_input] reads. *)
Record Keys : Type := mkKeys {
  K_LEFT : bool; K_RIGHT : bool; K_UP : bool; K_DOWN : bool
}.

Definition no_keys : Keys := mkKeys false false false false.

Module Player.

Record t : Type := mk {
  spawn_tile_x : Z;
  spawn_tile_y : Z;
  x : Q;
  y : Q;
  moving : bool;
  dir_x : Z;
  dir_y : Z;
  target_x : Z;
  target_y : Z;
  land_sound : option Sfx;
  jump_sound : option Sfx;
  score : Z;
  alive : bool;
  death_timer : Q;
  move_cooldown : Q
}.

(** [self.size = TILE_SIZE] and [self.speed = PLAYER_SPEED] are never
    reassigned. *)
Definition size : Z := TILE_SIZE.
Definition speed : Z := PLAYER_SPEED.

(** [Player.__init__] *)
Definition init (spawn_x spawn_y : Z) : t :=
  {| spawn_tile_x := spawn_x; spawn_tile_y := spawn_y;
     x := inject_Z (spawn_x * TILE_SIZE); y := inject_Z (spawn_y * TILE_SIZE);
     moving := false; dir_x := 0; dir_y := 0;
     target_x := spawn_x * TILE_SIZE; target_y := spawn_y * TILE_SIZE;
     land_sound := None; jump_sound := None;
     score := 0; alive := true; death_timer := 0; move_cooldown := 0 |}.

(** Field assignments. *)
Definition set_sounds (p : t) (land jump : option Sfx) : t :=
  {| spawn_tile_x := spawn_tile_x p; spawn_tile_y := spawn_tile_y p;
     x := x p; y := y p; moving := moving p;
     dir_x := dir_x p; dir_y := dir_y p;
     target_x := target_x p; target_y := target_y p;
     land_sound := land; jump_sound := jump;
     score := score p; alive := alive p; death_timer := death_timer p;
     move_cooldown := move_cooldown p |}.

Definition set_pos (p : t) (nx ny : Q) : t :=
  {| spawn_tile_x := spawn_tile_x p; spawn_tile_y := spawn_tile_y p;
     x := nx; y := ny; moving := moving p;
     dir_x := dir_x p; dir_y := dir_y p;
     target_x := target_x p; target_y := target_y p;
     land_sound := land_sound p; jump_sound := jump_sound p;
     score := score p; alive := alive p; death_timer := death_timer p;
     move_cooldown := move_cooldown p |}.

Definition set_moving (p : t) (b : bool) : t :=
  {| spawn_tile_x := spawn_tile_x p; spawn_tile_y := spawn_tile_y p;
     x := x p; y := y p; moving := b;
     dir_x := dir_x p; dir_y := dir_y p;
     target_x := target_x p; target_y := target_y p;
     land_sound := land_sound p; jump_sound := jump_sound p;
     score := score p; alive := alive p; death_timer := death_timer p;
     move_cooldown := move_cooldown p |}.

Definition set_dir (p : t) (dx dy : Z) : t :=
  {| spawn_tile_x := spawn_tile_x p; spawn_tile_y := spawn_tile_y p;
     x := x p; y := y p; moving := moving p;
     dir_x := dx; dir_y := dy;
     target_x := target_x p; target_y := target_y p;
     land_sound := land_sound p; jump_sound := jump_sound p;
     score := score p; alive := alive p; death_timer := death_timer p;
     move_cooldown := move_cooldown p |}.

Definition set_target (p : t) (tx ty : Z) : t :=
  {| spawn_tile_x := spawn_tile_x p; spawn_tile_y := spawn_tile_y p;
     x := x p; y := y p; moving := moving p;
     dir_x := dir_x p; dir_y := dir_y p;
     target_x := tx; target_y := ty;
     land_sound := land_sound p; jump_sound := jump_sound p;
     score := score p; alive := alive p; death_timer := death_timer p;
     move_cooldown := move_cooldown p |}.

Definition set_score (p : t) (s : Z) : t :=
  {| spawn_tile_x := spawn_tile_x p; spawn_tile_y := spawn_tile_y p;
     x := x p; y := y p; moving := moving p;
     dir_x := dir_x p; dir_y := dir_y p;
     target_x := target_x p; target_y := target_y p;
     land_sound := land_sound p; jump_sound := jump_sound p;
     score := s; alive := alive p; death_timer := death_timer p;
     move_cooldown := move_cooldown p |}.

Definition set_alive (p : t) (b : bool) : t :=
  {| spawn_tile_x := spawn_tile_x p; spawn_tile_y := spawn_tile_y p;
     x := x p; y := y p; moving := moving p;
     dir_x := dir_x p; dir_y := dir_y p;
     target_x := target_x p; target_y := target_y p;
     land_sound := land_sound p; jump_sound := jump_sound p;
     score := score p; alive := b; death_timer := death_timer p;
     move_cooldown := move_cooldown p |}.

Definition set_death_timer (p : t) (d : Q) : t :=
  {| spawn_tile_x := spawn_tile_x p; spawn_tile_y := spawn_tile_y p;
     x := x p; y := y p; moving := moving p;
     dir_x := dir_x p; dir_y := dir_y p;
     target_x := target_x p; target_y := target_y p;
     land_sound := land_sound p; jump_sound := jump_sound p;
     score := score p; alive := alive p; death_timer := d;
     move_cooldown := move_cooldown p |}.

Definition set_move_cooldown (p : t) (c : Q) : t :=
  {| spawn_tile_x := spawn_tile_x p; spawn_tile_y := spawn_tile_y p;
     x := x p; y := y p; moving := moving p;
     dir_x := dir_x p; dir_y := dir_y p;
     target_x := target_x p; target_y := target_y p;
     land_sound := land_sound p; jump_sound := jump_sound p;
     score := score p; alive := alive p; death_timer := death_timer p;
     move_cooldown := c |}.

(** [if sound: sound.play()] *)
Definition play (s : option Sfx) : list Sfx :=
  match s with
  | Some e => [e]
  | None => []
  end.

(** The [rect] property. *)
Definition rect (p : t) : Rect.t := Rect.of_floats (x p) (y p) size size.

(** [get_tile_pos] *)
Definition get_tile_pos (p : t) : Z * Z :=
  (Qfloordiv (x p + inject_Z (TILE_SIZE / 2)) TILE_SIZE,
   Qfloordiv (y p + inject_Z (TILE_SIZE / 2)) TILE_SIZE).

(** The cell [start_move] looks ahead from. *)
Definition start_tile (p : t) : Z * Z :=
  (Qfloordiv (x p) TILE_SIZE, Qfloordiv (y p) TILE_SIZE).

(** [start_move(dx, dy)], on the tile map the player holds.  The result is
    the player and the sounds played. *)
Definition start_move (tm : TileMap.t) (p : t) (dx dy : Z)
  : outcome (t * list Sfx) :=
  let tile_x := fst (start_tile p) in
  let tile_y := snd (start_tile p) in
  (last_free <- look_ahead tm tile_x tile_y dx dy ;;
   let last_free_x := fst last_free in
   let last_free_y := snd last_free in
   if (last_free_x =? tile_x) && (last_free_y =? tile_y)
   then Done (set_move_cooldown (set_dir p dx dy) (2 # 10),
              play (land_sound p))
   else Done (set_moving
                (set_dir
                   (set_target p (last_free_x * TILE_SIZE)
                                 (last_free_y * TILE_SIZE))
                   dx dy)
                true,
              play (jump_sound p)))%outcome.

(** [handle_input(events)] *)
Definition handle_input (tm : TileMap.t) (p : t) (keys : Keys)
  : outcome (t * list Sfx) :=
  if moving p || negb (alive p) || Qpositive (move_cooldown p)
  then Done (p, [])
  else
    let '(dx, dy) :=
      if K_LEFT keys then (-1, 0)
      else if K_RIGHT keys then (1, 0)
      else if K_UP keys then (0, -1)
      else if K_DOWN keys then (0, 1)
      else (0, 0) in
    if negb (dx =? 0) || negb (dy =? 0)
    then start_move tm p dx dy
    else Done (p, []).

(** [update(dt)] *)
Definition update (p0 : t) (dt : Q) : outcome (t * list Sfx) :=
  let p :=
    if Qpositive (move_cooldown p0)
    then set_move_cooldown p0 (move_cooldown p0 - dt)
    else p0 in
  if negb (alive p)
  then Done (if Qpositive (death_timer p)
             then set_death_timer p (death_timer p - dt)
             else p, [])
  else if negb (moving p) then Done (p, [])
  else
    let vec_x := (inject_Z (target_x p) - x p)%Q in
    let vec_y := (inject_Z (target_y p) - y p)%Q in
    let dist := Qsqrt (vec_x * vec_x + vec_y * vec_y) in
    let step := (inject_Z speed * dt)%Q in
    if Qle_bool dist step
    then Done (set_moving
                 (set_pos p (inject_Z (target_x p)) (inject_Z (target_y p)))
                 false,
               play (land_sound p))
    else if Qeq_bool dist 0 then Raised
    else Done (set_pos p (x p + (vec_x / dist) * step)%Q
                         (y p + (vec_y / dist) * step)%Q, []).

(** [kill(death_duration=0.0)] *)
Definition kill (p : t) (death_duration : Q) : t :=
  set_moving (set_death_timer (set_alive p false) death_duration) false.

(** [reset_to_start()] *)
Definition reset_to_start (p : t) : t :=
  let nx := spawn_tile_x p * TILE_SIZE in
  let ny := spawn_tile_y p * TILE_SIZE in
  set_death_timer
    (set_alive
       (set_moving
          (set_target (set_pos p (inject_Z nx) (inject_Z ny)) nx ny)
          false)
       true)
    0.

(** The position is exactly on a grid cell boundary. *)
Definition on_grid (p : t) : Prop :=
  exists tx ty : Z,
    (x p == inject_Z (tx * TILE_SIZE))%Q /\ (y p == inject_Z (ty * TILE_SIZE))%Q.

End Player.
(** ** game.py *)

Inductive GameState : Type :=
| Menu | Shop | Playing | Pause | GameOver | LevelComplete.

(** What one frame of gameplay reads: the frame time, the keys held down,
    and whether an event of the frame asks for the pause (the P key or a
    click on the pause button). *)
Record FrameInput : Type := mkInput {
  dt : Q;
  keys : Keys;
  pause_requested : bool
}.

(** What [load_game_data] returns. *)
Record SaveData : Type := mkSave {
  save_level_index : Z;
  save_coins : Z;
  save_level_stars : list (string * Z)
}.

(** [load_game_data]'s defaults. *)
Definition default_save : SaveData := mkSave 0 0 [].

(** The [level_stars] dictionary. *)
Fixpoint dict_get (d : list (string * Z)) (k : string) (default : Z) : Z :=
  match d with
  | [] => default
  | (k', v) :: rest => if String.eqb k k' then v else dict_get rest k default
  end.

Fixpoint dict_set (d : list (string * Z)) (k : string) (v : Z)
  : list (string * Z) :=
  match d with
  | [] => [(k, v)]
  | (k', v') :: rest =>
      if String.eqb k k' then (k, v) :: rest else (k', v') :: dict_set rest k v
  end.

(** The entity collections [setup_level] fills from the level map. *)
Record Entities : Type := mkEntities {
  e_collectibles : list Collectible.t;
  e_traps : list Trap.t;
  e_dots : list Dot.t;
  e_stars : list Star.t;
  e_exit : option Exit.t
}.

Definition no_entities : Entities := mkEntities [] [] [] [] None.

(** The body of the two loops of [setup_level], for one character. *)
Definition place (ch : ascii) (x y : Z) (e : Entities) : Entities :=
  let e1 :=
    if Ascii.eqb ch "*"%char then
      mkEntities (e_collectibles e ++ [Collectible.init x y]) (e_traps e)
                 (e_dots e) (e_stars e) (e_exit e)
    else if Ascii.eqb ch "T"%char then
      mkEntities (e_collectibles e) (e_traps e ++ [Trap.spike_init x y])
                 (e_dots e) (e_stars e) (e_exit e)
    else if Ascii.eqb ch "E"%char then
      mkEntities (e_collectibles e) (e_traps e) (e_dots e) (e_stars e)
                 (Some (Exit.init x y))
    else if Ascii.eqb ch "S"%char then
      mkEntities (e_collectibles e) (e_traps e) (e_dots e)
                 (e_stars e ++ [Star.init x y]) (e_exit e)
    else e in
  if Ascii.eqb ch "."%char then
    mkEntities (e_collectibles e1) (e_traps e1) (e_dots e1 ++ [Dot.init x y])
               (e_stars e1) (e_exit e1)
  else e1.

Fixpoint scan_row (row : string) (x y : Z) (e : Entities) : Entities :=
  match row with
  | EmptyString => e
  | String ch rest => scan_row rest (x + 1) y (place ch x y e)
  end.

Fixpoint scan_rows (rows : list string) (y : Z) (e : Entities) : Entities :=
  match rows with
  | [] => e
  | row :: rest => scan_rows rest (y + 1) (scan_row row 0 y e)
  end.

Module Game.

Record t : Type := mk {
  state : GameState;
  lives : Z;
  current_level_index : Z;
  saved_level_index : Z;
  global_coins : Z;
  level_stars : list (string * Z);
  tilemap : TileMap.t;
  player : Player.t;
  collectibles : list Collectible.t;
  traps : list Trap.t;
  dots : list Dot.t;
  stars : list Star.t;
  exit_portal : Exit.t;
  stars_collected_count : Z;
  sfx_played : list Sfx
}.

(** Field assignments. *)
Definition set_state (g : t) (s : GameState) : t :=
  mk s (lives g) (current_level_index g) (saved_level_index g)
     (global_coins g) (level_stars g) (tilemap g) (player g) (collectibles g)
     (traps g) (dots g) (stars g) (exit_portal g) (stars_collected_count g)
     (sfx_played g).

Definition set_lives (g : t) (n : Z) : t :=
  mk (state g) n (current_level_index g) (saved_level_index g)
     (global_coins g) (level_stars g) (tilemap g) (player g) (collectibles g)
     (traps g) (dots g) (stars g) (exit_portal g) (stars_collected_count g)
     (sfx_played g).

Definition set_current_level_index (g : t) (i : Z) : t :=
  mk (state g) (lives g) i (saved_level_index g)
     (global_coins g) (level_stars g) (tilemap g) (player g) (collectibles g)
     (traps g) (dots g) (stars g) (exit_portal g) (stars_collected_count g)
     (sfx_played g).

Definition set_saved_level_index (g : t) (i : Z) : t :=
  mk (state g) (lives g) (current_level_index g) i
     (global_coins g) (level_stars g) (tilemap g) (player g) (collectibles g)
     (traps g) (dots g) (stars g) (exit_portal g) (stars_collected_count g)
     (sfx_played g).

Definition set_global_coins (g : t) (c : Z) : t :=
  mk (state g) (lives g) (current_level_index g) (saved_level_index g)
     c (level_stars g) (tilemap g) (player g) (collectibles g)
     (traps g) (dots g) (stars g) (exit_portal g) (stars_collected_count g)
     (sfx_played g).

Definition set_level_stars (g : t) (d : list (string * Z)) : t :=
  mk (state g) (lives g) (current_level_index g) (saved_level_index g)
     (global_coins g) d (tilemap g) (player g) (collectibles g)
     (traps g) (dots g) (stars g) (exit_portal g) (stars_collected_count g)
     (sfx_played g).

Definition set_player (g : t) (p : Player.t) : t :=
  mk (state g) (lives g) (current_level_index g) (saved_level_index g)
     (global_coins g) (level_stars g) (tilemap g) p (collectibles g)
     (traps g) (dots g) (stars g) (exit_portal g) (stars_collected_count g)
     (sfx_played g).

Definition set_collectibles (g : t) (cs : list Collectible.t) : t :=
  mk (state g) (lives g) (current_level_index g) (saved_level_index g)
     (global_coins g) (level_stars g) (tilemap g) (player g) cs
     (traps g) (dots g) (stars g) (exit_portal g) (stars_collected_count g)
     (sfx_played g).

Definition set_traps (g : t) (ts : list Trap.t) : t :=
  mk (state g) (lives g) (current_level_index g) (saved_level_index g)
     (global_coins g) (level_stars g) (tilemap g) (player g) (collectibles g)
     ts (dots g) (stars g) (exit_portal g) (stars_collected_count g)
     (sfx_played g).

Definition set_dots (g : t) (ds : list Dot.t) : t :=
  mk (state g) (lives g) (current_level_index g) (saved_level_index g)
     (global_coins g) (level_stars g) (tilemap g) (player g) (collectibles g)
     (traps g) ds (stars g) (exit_portal g) (stars_collected_count g)
     (sfx_played g).

Definition set_stars (g : t) (ss : list Star.t) : t :=
  mk (state g) (lives g) (current_level_index g) (saved_level_index g)
     (global_coins g) (level_stars g) (tilemap g) (player g) (collectibles g)
     (traps g) (dots g) ss (exit_portal g) (stars_collected_count g)
     (sfx_played g).

Definition set_stars_collected_count (g : t) (n : Z) : t :=
  mk (state g) (lives g) (current_level_index g) (saved_level_index g)
     (global_coins g) (level_stars g) (tilemap g) (player g) (collectibles g)
     (traps g) (dots g) (stars g) (exit_portal g) n
     (sfx_played g).

(** [sound.play()]: the sound joins the log of sounds played. *)
Definition play (g : t) (s : list Sfx) : t :=
  mk (state g) (lives g) (current_level_index g) (saved_level_index g)
     (global_coins g) (level_stars g) (tilemap g) (player g) (collectibles g)
     (traps g) (dots g) (stars g) (exit_portal g) (stars_collected_count g)
     (sfx_played g ++ s).

(** [setup_level(play_sound)].  [load_level] is the level directory: the
    rows of the file of each level name ([[]] when the file is missing). *)
Definition setup_level (load_level : string -> list string) (g : t)
    (play_sound : bool) : outcome t :=
  (level_name <- py_index LEVELS (current_level_index g) ;;
   let tm := TileMap.init (load_level level_name) in
   let spawn := TileMap.find_player_spawn tm in
   let p := Player.set_sounds (Player.init (fst spawn) (snd spawn))
                              (Some SfxLanding) (Some SfxJump) in
   let e := scan_rows (TileMap.level_data tm) 0 no_entities in
   let exit_portal :=
     match e_exit e with
     | Some x => x
     | None => Exit.init 1 1
     end in
   Done (mk (state g) (lives g) (current_level_index g) (saved_level_index g)
            (global_coins g) (level_stars g) tm p (e_collectibles e)
            (e_traps e) (e_dots e) (e_stars e) exit_portal 0
            (sfx_played g ++ (if play_sound then [SfxStart] else []))))%outcome.

(** [Game.__init__]: the menu, with the first level set up behind it. *)
Definition before_setup (save : SaveData) : t :=
  mk Menu MAX_LIVES 0 (save_level_index save) (save_coins save)
     (save_level_stars save) (TileMap.init []) (Player.init 0 0)
     [] [] [] [] (Exit.init 1 1) 0 [].

Definition init (load_level : string -> list string) (save : SaveData)
  : outcome t :=
  setup_level load_level (before_setup save) false.

(** [update_level_stars_record] *)
Definition update_level_stars_record (g : t) : outcome t :=
  (level_name <- py_index LEVELS (current_level_index g) ;;
   let current_record := dict_get (level_stars g) level_name 0 in
   if stars_collected_count g >? current_record
   then Done (set_level_stars g
                (dict_set (level_stars g) level_name (stars_collected_count g)))
   else Done g)%outcome.

(** [restart_game] *)
Definition restart_game (load_level : string -> list string) (g : t)
  : outcome t :=
  (g1 <- setup_level load_level
           (set_current_level_index (set_lives g MAX_LIVES) 0) false ;;
   Done (set_state g1 Menu))%outcome.

(** [goto_next_level] *)
Definition goto_next_level (load_level : string -> list string) (g : t)
  : outcome t :=
  if current_level_index g <? Z.of_nat (List.length LEVELS) - 1
  then
    let g1 := set_current_level_index g (current_level_index g + 1) in
    let g2 :=
      if current_level_index g1 >? saved_level_index g1
      then set_saved_level_index g1 (current_level_index g1)
      else g1 in
    (g3 <- setup_level load_level g2 true ;;
     Done (set_state g3 Playing))%outcome
  else restart_game load_level g.

(** [handle_main_menu_selection], on the option chosen. *)
Inductive MenuChoice : Type := PLAY | LEVELS_MENU | SHOP | QUIT.

Definition handle_main_menu_selection (load_level : string -> list string)
    (g : t) (choice : MenuChoice) : outcome t :=
  match choice with
  | PLAY =>
      let g1 := set_current_level_index g (saved_level_index g) in
      let g2 :=
        if current_level_index g1 >=? Z.of_nat (List.length LEVELS)
        then set_current_level_index g1 0
        else g1 in
      (g3 <- setup_level load_level g2 true ;;
       Done (set_state g3 Playing))%outcome
  | LEVELS_MENU => Done g
  | SHOP => Done (set_state g Shop)
  | QUIT => Done g
  end.

(** [handle_level_menu_selection], on [selected_index]. *)
Definition handle_level_menu_selection (load_level : string -> list string)
    (g : t) (selected_index : Z) : outcome t :=
  if selected_index =? Z.of_nat (List.length LEVELS)
  then Done g
  else
    (g1 <- setup_level load_level
             (set_current_level_index g selected_index) true ;;
     Done (set_state g1 Playing))%outcome.

(** [handle_pause_action] *)
Definition handle_pause_action (load_level : string -> list string)
    (g : t) (index : Z) : outcome t :=
  if index =? 0 then Done (set_state g Playing)
  else if index =? 1 then
    (g1 <- setup_level load_level g true ;; Done (set_state g1 Playing))%outcome
  else if index =? 2 then restart_game load_level g
  else Done g.

(** [handle_game_over_action] *)
Definition handle_game_over_action (load_level : string -> list string)
    (g : t) (index : Z) : outcome t :=
  if index =? 0 then
    (g1 <- setup_level load_level (set_lives g MAX_LIVES) true ;;
     Done (set_state g1 Playing))%outcome
  else if index =? 1 then restart_game load_level g
  else Done g.

(** The shop, as far as the game record goes: leaving it, and paying for
    an item. *)
Definition shop_leave (g : t) : t := set_state g Menu.

Definition shop_buy (g : t) (price : Z) : t :=
  if global_coins g >=? price
  then set_global_coins g (global_coins g - price)
  else g.

(** *** The gameplay frame *)

(** [self.player.handle_input(events); self.player.update(dt)] *)
Definition player_phase (g : t) (inp : FrameInput) : outcome t :=
  (r1 <- Player.handle_input (tilemap g) (player g) (keys inp) ;;
   r2 <- Player.update (fst r1) (dt inp) ;;
   Done (play (set_player g (fst r2)) (snd r1 ++ snd r2)))%outcome.

(** [for trap in self.traps: trap.update(dt)] *)
Definition update_traps (g : t) (dt : Q) : t :=
  set_traps g (map (fun tr => Trap.update tr dt) (traps g)).

(** [handle_collectibles] *)
Definition tile_match (px py : Z) (c : Collectible.t) : bool :=
  negb (Collectible.collected c)
  && (Collectible.tile_x c =? px) && (Collectible.tile_y c =? py).

Fixpoint handle_collectibles_loop (px py : Z) (cs : list Collectible.t)
    (g : t) : list Collectible.t * t :=
  match cs with
  | [] => ([], g)
  | c :: rest =>
      if tile_match px py c
      then
        let g1 := play g [SfxCoin] in
        let g2 := set_player g1 (Player.set_score (player g1)
                                   (Player.score (player g1) + 1)) in
        let g3 := set_global_coins g2 (global_coins g2 + 1) in
        let r := handle_collectibles_loop px py rest g3 in
        (Collectible.collect c :: fst r, snd r)
      else
        let r := handle_collectibles_loop px py rest g in
        (c :: fst r, snd r)
  end.

Definition handle_collectibles (g : t) : t :=
  let pos := Player.get_tile_pos (player g) in
  let r := handle_collectibles_loop (fst pos) (snd pos) (collectibles g) g in
  set_collectibles (snd r) (fst r).

(** [handle_stars]: at most one star a frame ([break]). *)
Definition star_hit (player_rect : Rect.t) (s : Star.t) : bool :=
  negb (Star.collected s) && Rect.colliderect (Star.rect s) player_rect.

Fixpoint handle_stars_loop (ss : list Star.t) (g : t) : list Star.t * t :=
  match ss with
  | [] => ([], g)
  | s :: rest =>
      if star_hit (Player.rect (player g)) s
      then (Star.set_collected s :: rest,
            set_stars_collected_count (play g [SfxStar])
              (stars_collected_count g + 1))
      else
        let r := handle_stars_loop rest g in
        (s :: fst r, snd r)
  end.

Definition handle_stars (g : t) : t :=
  let r := handle_stars_loop (stars g) g in
  set_stars (snd r) (fst r).

(** [handle_traps] *)
Fixpoint handle_traps_loop (ts : list Trap.t) (g : t) : t :=
  match ts with
  | [] => g
  | tr :: rest =>
      if Trap.check_hit tr (Player.rect (player g))
      then set_player (play g [SfxDeath]) (Player.kill (player g) 0)
      else handle_traps_loop rest g
  end.

Definition handle_traps (g : t) : t :=
  if negb (Player.alive (player g)) then g
  else handle_traps_loop (traps g) g.

(** The dot loop of [update_playing]: a dot whose hitbox meets the player's
    rectangle is played, marked and removed from [self.dots]. *)
Definition dot_hit (player_rect : Rect.t) (d : Dot.t) : bool :=
  Rect.colliderect (Dot.rect d) player_rect.

Fixpoint handle_dots_loop (player_rect : Rect.t) (ds : list Dot.t) (g : t)
  : list Dot.t * t :=
  match ds with
  | [] => ([], g)
  | d :: rest =>
      if dot_hit player_rect d
      then handle_dots_loop player_rect rest (play g [SfxDot])
      else
        let r := handle_dots_loop player_rect rest g in
        (d :: fst r, snd r)
  end.

Definition handle_dots (g : t) : t :=
  let r := handle_dots_loop (Player.rect (player g)) (dots g) g in
  set_dots (snd r) (fst r).

(** [finish_player_death] *)
Definition finish_player_death (g : t) : t :=
  let g1 := set_lives g (lives g - 1) in
  if lives g1 <=? 0
  then set_state g1 GameOver
  else set_player g1 (Player.reset_to_start (player g1)).

(** [if (not self.player.alive) and self.player.death_timer <= 0:
       self.finish_player_death()] *)
Definition life_loss_check (g : t) : t :=
  if negb (Player.alive (player g))
     && Qle_bool (Player.death_timer (player g)) 0
  then finish_player_death g
  else g.

(** [if self.exit_portal and self.exit_portal.check_hit(self.player.rect)] *)
Definition exit_check (g : t) : outcome t :=
  if Exit.check_hit (exit_portal g) (Player.rect (player g))
  then (g1 <- update_level_stars_record (play g [SfxWin]) ;;
        Done (set_state g1 LevelComplete))%outcome
  else Done g.

(** The pause events at the end of the frame. *)
Definition pause_check (g : t) (inp : FrameInput) : t :=
  if pause_requested inp then set_state g Pause else g.

(** [update_playing(dt, events)] *)
Definition update_playing (g : t) (inp : FrameInput) : outcome t :=
  (g1 <- player_phase g inp ;;
   let g2 := update_traps g1 (dt inp) in
   let g3 := handle_collectibles g2 in
   let g4 := handle_traps g3 in
   let g5 := handle_stars g4 in
   let g6 := handle_dots g5 in
   let g7 := life_loss_check g6 in
   g8 <- exit_check g7 ;;
   Done (pause_check g8 inp))%outcome.

(** The frame with the checks in the order the specification lists:
    collectibles, traps, stars, dots, then the exit, then the life loss. *)
Definition update_playing_as_specified (g : t) (inp : FrameInput)
  : outcome t :=
  (g1 <- player_phase g inp ;;
   let g2 := update_traps g1 (dt inp) in
   let g3 := handle_collectibles g2 in
   let g4 := handle_traps g3 in
   let g5 := handle_stars g4 in
   let g6 := handle_dots g5 in
   g7 <- exit_check g6 ;;
   let g8 := life_loss_check g7 in
   Done (pause_check g8 inp))%outcome.

(** *** The states the game can reach

    From [Game.__init__], a transition is one gameplay frame
    ([Game.update] in state "playing", with a frame time that is not
    negative) or one action of the menus and overlays. *)
Inductive step (load_level : string -> list string) : t -> t -> Prop :=
| step_playing g inp g' :
    state g = Playing -> (0 <= dt inp)%Q ->
    update_playing g inp = Done g' -> step load_level g g'
| step_main_menu g choice g' :
    handle_main_menu_selection load_level g choice = Done g' ->
    step load_level g g'
| step_level_menu g i g' :
    handle_level_menu_selection load_level g i = Done g' ->
    step load_level g g'
| step_pause_action g i g' :
    handle_pause_action load_level g i = Done g' -> step load_level g g'
| step_game_over_action g i g' :
    handle_game_over_action load_level g i = Done g' -> step load_level g g'
| step_next_level g g' :
    goto_next_level load_level g = Done g' -> step load_level g g'
| step_restart g g' :
    restart_game load_level g = Done g' -> step load_level g g'
| step_shop_leave g : step load_level g (shop_leave g)
| step_shop_buy g price : step load_level g (shop_buy g price).

Inductive reachable (load_level : string -> list string) (save : SaveData)
  : t -> Prop :=
| reachable_init g : init load_level save = Done g -> reachable load_level save g
| reachable_step g g' :
    reachable load_level save g -> step load_level g g' ->
    reachable load_level save g'.

End Game.
(** ** Statements of the specification, in its own words

    These follow the specification, not the code; theorems below compare
    them with the code. *)

(** A cell is a wall or lies outside the grid. *)
Definition solid_or_outside (tm : TileMap.t) (x y : Z) : Prop :=
  TileMap.out_of_bounds tm x y \/ TileMap.get_tile tm x y = Done "#"%char.

(** Distance between two cells of one row or column. *)
Definition cell_distance (a b : Z * Z) : Z :=
  Z.abs (fst a - fst b) + Z.abs (snd a - snd b).

(** "Applying the slide with direction d and then again from the result
    with direction -d returns a cell no farther than the original start":
    the return slide covers at most the distance back to the start. *)
Definition return_no_farther_than_start (tm : TileMap.t)
    (x y dx dy : Z) : Prop :=
  forall a b,
    look_ahead tm x y dx dy = Done a ->
    look_ahead tm (fst a) (snd a) (- dx) (- dy) = Done b ->
    cell_distance a b <= cell_distance a (x, y).

(** "When [moving == false], position is exactly on a grid cell
    boundary." *)
Definition rests_on_grid (p : Player.t) : Prop :=
  Player.moving p = false -> Player.on_grid p.

(** "Dots: matched by tile coordinate equality with the player's rounded
    tile position." *)
Definition dot_tile_match (p : Player.t) (d : Dot.t) : bool :=
  (Dot.tile_x d =? fst (Player.get_tile_pos p))
  && (Dot.tile_y d =? snd (Player.get_tile_pos p)).

Definition collectible_tile_match (p : Player.t) (c : Collectible.t) : bool :=
  (Collectible.tile_x c =? fst (Player.get_tile_pos p))
  && (Collectible.tile_y c =? snd (Player.get_tile_pos p)).

(** The dots the frame collects under the specification's rule: the dots
    left are those on another tile than the player's. *)
Definition dots_left_by_tile_rule (p : Player.t) (ds : list Dot.t)
  : list Dot.t :=
  filter (fun d => negb (dot_tile_match p d)) ds.

(** What [start_move] leaves when the look-ahead stops [n] cells away. *)
Definition after_start_move (p : Player.t) (dx dy n : Z)
  : Player.t * list Sfx :=
  let tile_x := fst (Player.start_tile p) in
  let tile_y := snd (Player.start_tile p) in
  if n =? 0
  then (Player.set_move_cooldown (Player.set_dir p dx dy) (2 # 10),
        Player.play (Player.land_sound p))
  else (Player.set_moving
          (Player.set_dir
             (Player.set_target p ((tile_x + n * dx) * TILE_SIZE)
                                  ((tile_y + n * dy) * TILE_SIZE))
             dx dy)
          true,
        Player.play (Player.jump_sound p)).

(** The grid of the end-to-end example of the specification. *)
Definition example_level : list string :=
  ["#####"; "#P..#"; "#.T.#"; "#..E#"; "#####"]%string.

(** ** Invariants *)

(** The target of the player is a grid cell, and a living player that is
    not moving rests on a grid cell. *)
Definition player_invariant (p : Player.t) : Prop :=
  (exists tx ty : Z,
     Player.target_x p = tx * TILE_SIZE /\ Player.target_y p = ty * TILE_SIZE) /\
  (Player.alive p = true -> Player.moving p = false -> Player.on_grid p).

(** What holds of the game record in every state the game reaches (see
    [reachable_invariant]): the grid is rectangular, the level index names
    a level, there are never more lives than [MAX_LIVES], and the player
    satisfies [player_invariant]. *)
Definition game_invariant (g : Game.t) : Prop :=
  TileMap.rectangular (Game.tilemap g) /\
  - Z.of_nat (List.length LEVELS) <= Game.current_level_index g
    < Z.of_nat (List.length LEVELS) /\
  Game.lives g <= MAX_LIVES /\
  player_invariant (Game.player g).

(** ** The loops of the frame, in closed form *)

(** [n] coins collected: [n] coin sounds, [n] points, [n] coins. *)
Definition collect_coins (g : Game.t) (n : nat) : Game.t :=
  Game.set_global_coins
    (Game.set_player
       (Game.play g (repeat SfxCoin n))
       (Player.set_score (Game.player g)
          (Player.score (Game.player g) + Z.of_nat n)))
    (Game.global_coins g + Z.of_nat n).

Definition collect_at (px py : Z) (c : Collectible.t) : Collectible.t :=
  if Game.tile_match px py c then Collectible.collect c else c.

(** The first star the player touches is marked; the others are left. *)
Fixpoint mark_first_star (player_rect : Rect.t) (ss : list Star.t)
  : list Star.t :=
  match ss with
  | [] => []
  | s :: rest =>
      if Game.star_hit player_rect s then Star.set_collected s :: rest
      else s :: mark_first_star player_rect rest
  end.

(** The sounds of the four collision checks of a frame, for the player as
    it stands after its move. *)
Definition coins_now (g : Game.t) : nat :=
  List.length
    (filter (Game.tile_match (fst (Player.get_tile_pos (Game.player g)))
                             (snd (Player.get_tile_pos (Game.player g))))
            (Game.collectibles g)).

Definition trap_hit_now (g : Game.t) : bool :=
  Player.alive (Game.player g)
  && existsb (fun tr => Trap.check_hit tr (Player.rect (Game.player g)))
             (Game.traps g).

Definition star_hit_now (g : Game.t) : bool :=
  existsb (Game.star_hit (Player.rect (Game.player g))) (Game.stars g).

Definition dots_now (g : Game.t) : nat :=
  List.length (filter (Game.dot_hit (Player.rect (Game.player g))) (Game.dots g)).

Definition sound_if (b : bool) (s : Sfx) : list Sfx := if b then [s] else [].

(** The four collision checks, in the order of [update_playing]. *)
Definition collision_checks (g : Game.t) : Game.t :=
  Game.handle_dots
    (Game.handle_stars (Game.handle_traps (Game.handle_collectibles g))).

(** ** Scenarios

    Levels and frames used as concrete inputs below.  A scenario starts the
    way the program does: [Game.__init__] with the default save data, then
    PLAY in the main menu. *)

Definition start_level (rows : list string) : outcome Game.t :=
  (g <- Game.init (fun _ => rows) default_save ;;
   Game.handle_main_menu_selection (fun _ => rows) g Game.PLAY)%outcome.

Definition started (rows : list string) : Game.t :=
  match start_level rows with
  | Done g => g
  | _ => Game.before_setup default_save
  end.

Definition hold_right (seconds : Q) (pause : bool) : FrameInput :=
  mkInput seconds (mkKeys false true false false) pause.

Definition idle (seconds : Q) : FrameInput := mkInput seconds no_keys false.

(** A trap right of the spawn cell, on the way of a slide to the right. *)
Definition trap_corridor : list string :=
  ["#####"; "#PT #"; "#  E#"; "#####"]%string.

(** A trap right of the spawn cell and the exit right of the trap. *)
Definition trap_before_exit : list string :=
  ["######"; "#PTE #"; "######"]%string.

(** A dot two cells right of the spawn cell. *)
Definition dot_corridor : list string :=
  ["######"; "#P . #"; "#   E#"; "######"]%string.

(** The dot corridor after the move of a frame of 42 ms with the right key
    held: the player is 46.2 pixels into its slide. *)
Definition dot_corridor_moved : Game.t :=
  match Game.player_phase (started dot_corridor) (hold_right (42 # 1000) false) with
  | Done g => g
  | _ => started dot_corridor
  end.

(** A star placed on the tile of the trap of the trap corridor, and the
    same with a second life. *)
Definition trap_under_star : Game.t :=
  Game.set_stars (started trap_corridor) [Star.init 2 1].

Definition two_lives (g : Game.t) : Game.t := Game.set_lives g 2.

(** The frame from the collision checks to the life-loss check. *)
Definition checks_and_life_loss (g : Game.t) : Game.t :=
  Game.life_loss_check (collision_checks g).

(** The deaths so far: the death sounds played, one for each [kill]. *)
Definition Sfx_eqb (a b : Sfx) : bool :=
  match a, b with
  | SfxCoin, SfxCoin | SfxDeath, SfxDeath | SfxStar, SfxStar
  | SfxDot, SfxDot | SfxWin, SfxWin | SfxJump, SfxJump
  | SfxLanding, SfxLanding | SfxStart, SfxStart => true
  | _, _ => false
  end.

Definition deaths_played (g : Game.t) : Z :=
  Z.of_nat (List.length (filter (Sfx_eqb SfxDeath) (Game.sfx_played g))).

(** A level after the move of its first frame, 16 ms with the right key
    held: the state the collision checks of that frame start from. *)
Definition collision_ready (rows : list string) : Game.t :=
  match Game.player_phase (started rows) (hold_right (16 # 1000) false) with
  | Done g => Game.update_traps g (16 # 1000)
  | _ => started rows
  end.

(** The trap under the star, after the move of a frame of 16 ms with the
    right key held. *)
Definition trap_under_star_moved : Game.t :=
  match Game.player_phase trap_under_star (hold_right (16 # 1000) false) with
  | Done g => g
  | _ => trap_under_star
  end.
(** ** More of the code

    The rest of the logic of tilemap.py, objects.py, game.py, shop.py and
    utils.py that the statements above do not need. *)

(** The character of the level file at column [x] of row [y], blank where
    the file has none. *)
Definition raw_cell (rows : list string) (x y : Z) : ascii :=
  if (0 <=? x) && (0 <=? y)
  then match nth_error rows (Z.to_nat y) with
       | Some row =>
           match String.get (Z.to_nat x) row with
           | Some c => c
           | None => " "%char
           end
       | None => " "%char
       end
  else " "%char.

(** [n] frames of [Player.update], each of [dt] seconds; the sounds are
    those of all the frames. *)
Fixpoint update_frames (n : nat) (p : Player.t) (dt : Q)
  : outcome (Player.t * list Sfx) :=
  match n with
  | O => Done (p, [])
  | S n' =>
      (r <- Player.update p dt ;;
       r' <- update_frames n' (fst r) dt ;;
       Done (fst r', snd r ++ snd r'))%outcome
  end.

(** The player is ready for a new move: what [handle_input] asks before it
    reads the keys. *)
Definition ready (p : Player.t) : Prop :=
  Player.moving p = false /\ Player.alive p = true /\
  Qpositive (Player.move_cooldown p) = false.

(** The number of stars marked collected. *)
Definition collected_stars (ss : list Star.t) : Z :=
  Z.of_nat (List.length (filter Star.collected ss)).

(** *** utils.py: [load_level] *)

Module Utils.

(** [str.isspace] on the characters below 256. *)
Definition isspace (c : ascii) : bool :=
  let n := nat_of_ascii c in
  ((9 <=? n) && (n <=? 13) || (28 <=? n) && (n <=? 32)
   || (n =? 133) || (n =? 160))%nat.

(** [bool(line.strip())]: some character is not white space. *)
Fixpoint not_blank (line : string) : bool :=
  match line with
  | EmptyString => false
  | String c rest => negb (isspace c) || not_blank rest
  end.

(** [line.rstrip("\n")] *)
Fixpoint rstrip_newline (line : string) : string :=
  match line with
  | EmptyString => EmptyString
  | String c rest =>
      match rstrip_newline rest with
      | EmptyString =>
          if Ascii.eqb c "010"%char then EmptyString
          else String c EmptyString
      | r => String c r
      end
  end.

(** [load_level], on the lines of the level file as the file iterator
    gives them; [None]: there is no such file. *)
Definition load_level (file : option (list string)) : list string :=
  match file with
  | None => []
  | Some lines => map rstrip_newline (filter not_blank lines)
  end.

End Utils.

(** *** shop.py *)

Inductive UiSfx : Type := SfxClick | SfxBuy | SfxButton.

(** The events [Shop.update] tells apart. *)
Inductive ShopEvent : Type :=
| KeyEscape | KeyLeft | KeyRight | KeyReturn | KeyOther
| LeftClick | OtherEvent.

Module Shop.

(** [sorted(SKINS, key=lambda item: item["price"])]: stable. *)
Fixpoint insert_by_price (item : string * Z) (l : list (string * Z))
  : list (string * Z) :=
  match l with
  | [] => [item]
  | i :: rest =>
      if snd i <=? snd item then i :: insert_by_price item rest
      else item :: l
  end.

Definition sorted_by_price (l : list (string * Z)) : list (string * Z) :=
  fold_left (fun acc item => insert_by_price item acc) l [].

(** The shop, with the fields of the game it reads and writes. *)
Record t : Type := mk {
  items : list (string * Z);
  selected_index : Z;
  global_coins : Z;
  bought_items : list string;
  current_skin : string;
  state : GameState;
  sfx_played : list UiSfx
}.

(** [Shop.__init__], for the coins, the skins and the state of the game. *)
Definition init (coins : Z) (bought : list string) (skin : string)
    (st : GameState) : t :=
  mk (sorted_by_price SKINS) 0 coins bought skin st [].

Definition play (s : t) (e : UiSfx) : t :=
  mk (items s) (selected_index s) (global_coins s) (bought_items s)
     (current_skin s) (state s) (sfx_played s ++ [e]).

Definition set_selected_index (s : t) (i : Z) : t :=
  mk (items s) i (global_coins s) (bought_items s)
     (current_skin s) (state s) (sfx_played s).

Definition set_state (s : t) (st : GameState) : t :=
  mk (items s) (selected_index s) (global_coins s) (bought_items s)
     (current_skin s) st (sfx_played s).

Definition set_current_skin (s : t) (k : string) : t :=
  mk (items s) (selected_index s) (global_coins s) (bought_items s)
     k (state s) (sfx_played s).

(** [key in self.game.bought_items] *)
Definition owned (s : t) (k : string) : bool :=
  existsb (String.eqb k) (bought_items s).

(** [action_item] *)
Definition action_item (s : t) : outcome t :=
  (item <- py_index (items s) (selected_index s) ;;
   let key := fst item in
   let price := snd item in
   if owned s key
   then Done (play (set_current_skin s key) SfxClick)
   else if global_coins s >=? price
   then Done (play
                (mk (items s) (selected_index s) (global_coins s - price)
                    (bought_items s ++ [key]) key (state s) (sfx_played s))
                SfxBuy)
   else Done (play s SfxClick))%outcome.

(** [a % len(self.items)] *)
Definition mod_len (s : t) (a : Z) : outcome Z :=
  if Z.of_nat (List.length (items s)) =? 0 then Raised
  else Done (a mod Z.of_nat (List.length (items s))).

(** The event loop of [update]: the state, and whether the left button was
    pressed. *)
Fixpoint events_loop (events : list ShopEvent) (s : t) (clicked : bool)
  : outcome (t * bool) :=
  match events with
  | [] => Done (s, clicked)
  | e :: rest =>
      match e with
      | LeftClick => events_loop rest s true
      | KeyEscape => events_loop rest (set_state (play s SfxClick) Menu) clicked
      | KeyLeft =>
          (i <- mod_len s (selected_index s - 1) ;;
           events_loop rest (set_selected_index (play s SfxButton) i) clicked)
          %outcome
      | KeyRight =>
          (i <- mod_len s (selected_index s + 1) ;;
           events_loop rest (set_selected_index (play s SfxButton) i) clicked)
          %outcome
      | KeyReturn =>
          (s1 <- action_item s ;; events_loop rest s1 clicked)%outcome
      | KeyOther | OtherEvent => events_loop rest s clicked
      end
  end.

(** [pygame.Rect(x, y, w, h).collidepoint(pos)] *)
Definition collidepoint (r : Rect.t) (pos : Z * Z) : bool :=
  (Rect.x r <=? fst pos) && (fst pos <? Rect.x r + Rect.w r)
  && (Rect.y r <=? snd pos) && (snd pos <? Rect.y r + Rect.h r).

(** The rectangle of the card of item [i]. *)
Definition card_rect (s : t) (i : Z) : Rect.t :=
  let card_w := 220 in
  let card_h := 320 in
  let gap := 40 in
  let n := Z.of_nat (List.length (items s)) in
  let total_w := n * card_w + (n - 1) * gap in
  let start_x := (WINDOW_WIDTH - total_w) / 2 in
  let center_y := WINDOW_HEIGHT / 2 + 20 in
  Rect.mk (start_x + i * (card_w + gap)) (center_y - card_h / 2) card_w card_h.

(** The loop over the cards, from the card of index [i] on. *)
Fixpoint cards_loop (rest : list (string * Z)) (i : Z) (mouse_pos : Z * Z)
    (clicked : bool) (s : t) : outcome t :=
  match rest with
  | [] => Done s
  | _ :: rest' =>
      if collidepoint (card_rect s i) mouse_pos
      then
        let s1 :=
          if negb (selected_index s =? i)
          then set_selected_index (play s SfxButton) i
          else s in
        (s2 <- (if clicked then action_item s1 else Done s1) ;;
         cards_loop rest' (i + 1) mouse_pos clicked s2)%outcome
      else cards_loop rest' (i + 1) mouse_pos clicked s
  end.

(** [update(events)], with the position of the mouse. *)
Definition update (s : t) (events : list ShopEvent) (mouse_pos : Z * Z)
  : outcome t :=
  (r <- events_loop events s false ;;
   let s1 := fst r in
   let mouse_clicked := snd r in
   let s2 :=
     if collidepoint (Rect.mk 20 20 120 50) mouse_pos && mouse_clicked
     then set_state (play s1 SfxClick) Menu
     else s1 in
   cards_loop (items s2) 0 mouse_pos mouse_clicked s2)%outcome.

(** What every shop of the game satisfies: the items are the skins, the
    selection is one of them, the coins are not negative and no skin is
    owned twice. *)
Definition invariant (s : t) : Prop :=
  items s = sorted_by_price SKINS /\
  0 <= selected_index s < Z.of_nat (List.length (items s)) /\
  0 <= global_coins s /\
  NoDup (bought_items s).

End Shop.

(** *** game.py: the camera and the screen shake *)

Module Camera.

(** [self.virt_w], [self.virt_h] *)
Definition virt_w : Z := Qtrunc (inject_Z WINDOW_WIDTH / GAME_SCALE).
Definition virt_h : Z := Qtrunc (inject_Z WINDOW_HEIGHT / GAME_SCALE).

(** [rect.centerx], [rect.centery] *)
Definition centerx (r : Rect.t) : Z := Rect.x r + Rect.w r / 2.
Definition centery (r : Rect.t) : Z := Rect.y r + Rect.h r / 2.

Definition ui_offset : Q := inject_Z UI_HEIGHT / GAME_SCALE.

Definition Qmax (a b : Q) : Q := if Qle_bool a b then b else a.
Definition Qmin (a b : Q) : Q := if Qle_bool a b then a else b.

(** The starting camera position of [setup_level]. *)
Definition initial_scroll (tm : TileMap.t) (p : Player.t) : Q * Q :=
  let target_x := centerx (Player.rect p) - virt_w / 2 in
  let target_y := centery (Player.rect p) - virt_h / 2 in
  let level_w := TileMap.width tm * TILE_SIZE in
  let level_h := TileMap.height tm * TILE_SIZE in
  let sx :=
    if level_w >? virt_w
    then Z.max 0 (Z.min target_x (level_w - virt_w))
    else (level_w - virt_w) / 2 in
  let sy :=
    if level_h >? virt_h
    then Qmax 0 (Qmin (inject_Z target_y)
                      (inject_Z (level_h - virt_h) + ui_offset))
    else inject_Z ((level_h - virt_h) / 2) in
  (inject_Z sx, sy).

(** The camera follow of [update_playing], for the player as it stands
    after its move. *)
Definition follow (tm : TileMap.t) (p : Player.t) (scroll : Q * Q) (dt : Q)
  : Q * Q :=
  let target_x := centerx (Player.rect p) - virt_w / 2 in
  let target_y := centery (Player.rect p) - virt_h / 2 in
  let s0 := (fst scroll
             + (inject_Z target_x - fst scroll) * inject_Z CAMERA_SMOOTHNESS * dt)%Q in
  let s1 := (snd scroll
             + (inject_Z target_y - snd scroll) * inject_Z CAMERA_SMOOTHNESS * dt)%Q in
  let level_w := TileMap.width tm * TILE_SIZE in
  let level_h := TileMap.height tm * TILE_SIZE in
  let sx :=
    if level_w >? virt_w
    then Qmax 0 (Qmin s0 (inject_Z (level_w - virt_w)))
    else s0 in
  let sy :=
    if level_h >? virt_h
    then Qmax 0 (Qmin s1 (inject_Z (level_h - virt_h) + ui_offset))
    else s1 in
  (sx, sy).

(** The screen shake timer at the start of [update_playing]. *)
Definition shake_tick (screen_shake dt : Q) : Q :=
  if Qpositive screen_shake
  then
    let s := (screen_shake - inject_Z 60 * dt)%Q in
    if Qlt_le_dec s 0 then 0%Q else s
  else screen_shake.

(** [add_screen_shake(amount)] *)
Definition add_screen_shake (screen_shake amount : Q) : Q :=
  Qmax screen_shake amount.

End Camera.


(** *** The slide of the player, frame after frame *)

(** The distance between two coordinates. *)
Definition Qdist (a b : Q) : Q :=
  if Qle_bool a b then (b - a)%Q else (a - b)%Q.

(** What is left of the slide: the distance from the player to its
    target, along the axes. *)
Definition remaining (p : Player.t) : Q :=
  (Qdist (Player.x p) (inject_Z (Player.target_x p))
   + Qdist (Player.y p) (inject_Z (Player.target_y p)))%Q.

(** The target lies in the row or in the column of the player, as
    [start_move] sets it. *)
Definition axis_aligned (p : Player.t) : Prop :=
  (Player.x p == inject_Z (Player.target_x p))%Q \/
  (Player.y p == inject_Z (Player.target_y p))%Q.

(** [a] lies between [b] and [c]. *)
Definition Qbetween (a b c : Q) : Prop :=
  ((b <= a)%Q /\ (a <= c)%Q) \/ ((c <= a)%Q /\ (a <= b)%Q).

(** *** The cells of a level that hold a character *)

(** The columns of [row] that hold [ch], from column [x] on. *)
Fixpoint cols_of (ch : ascii) (row : string) (x : Z) : list Z :=
  match row with
  | EmptyString => []
  | String c rest =>
      if Ascii.eqb c ch then x :: cols_of ch rest (x + 1)
      else cols_of ch rest (x + 1)
  end.

(** The cells of [rows] that hold [ch], row after row, from row [y] on. *)
Fixpoint cells_of (ch : ascii) (rows : list string) (y : Z) : list (Z * Z) :=
  match rows with
  | [] => []
  | row :: rest =>
      map (fun x => (x, y)) (cols_of ch row 0) ++ cells_of ch rest (y + 1)
  end.

(** The last cell of a list of cells. *)
Definition last_cell (l : list (Z * Z)) : option (Z * Z) :=
  match rev l with
  | c :: _ => Some c
  | [] => None
  end.

(** The exit after the cells that hold "E": on the last of them. *)
Definition exit_after (cells : list (Z * Z)) (e : option Exit.t)
  : option Exit.t :=
  match last_cell cells with
  | Some c => Some (Exit.init (fst c) (snd c))
  | None => e
  end.

(** *** The progress of the player

    What the menus and overlays may change of a game before they set up a
    level: the level index, the lives (back to [MAX_LIVES]) and the saved
    level index (upwards); never the coins or the star records. *)
Definition same_progress (g g0 : Game.t) : Prop :=
  Game.global_coins g0 = Game.global_coins g /\
  Game.level_stars g0 = Game.level_stars g /\
  Game.saved_level_index g <= Game.saved_level_index g0 /\
  (Game.lives g0 = Game.lives g \/ Game.lives g0 = MAX_LIVES).

(** The star counter is the number of stars marked collected. *)
Definition stars_counted (g : Game.t) : Prop :=
  Game.stars_collected_count g = collected_stars (Game.stars g).

(** *** The shop, from one state to a later one

    [s'] satisfies the invariant of the shop, has no more coins than [s],
    owns every skin [s] owns, wears a skin it owns if [s] does, and is in
    the state of [s] or back in the menu. *)
Definition shop_follows (s s' : Shop.t) : Prop :=
  Shop.invariant s' /\
  Shop.global_coins s' <= Shop.global_coins s /\
  incl (Shop.bought_items s) (Shop.bought_items s') /\
  (In (Shop.current_skin s) (Shop.bought_items s) ->
   In (Shop.current_skin s') (Shop.bought_items s')) /\
  (Shop.state s' = Shop.state s \/ Shop.state s' = Menu).

(** ** Facts on the tile map *)

Section TileMapFacts.

Import TileMap.

Lemma spaces_length n : String.length (spaces n) = n.
Proof. induction n; simpl; congruence. Qed.

Lemma append_length (s1 s2 : string) :
  String.length (s1 ++ s2) = (String.length s1 + String.length s2)%nat.
Proof. induction s1; simpl; congruence. Qed.

Lemma max_len_ge rows row :
  In row rows -> (String.length row <= max_len rows)%nat.
Proof.
  induction rows as [|r rows IH]; simpl; [tauto|].
  intros [->|Hin]; [lia|]. specialize (IH Hin). lia.
Qed.

Lemma pad_row_length w row :
  (String.length row <= w)%nat -> String.length (pad_row w row) = w.
Proof.
  intros Hle. unfold pad_row.
  destruct (Nat.ltb_spec (String.length row) w).
  - rewrite append_length, spaces_length. lia.
  - lia.
Qed.

Lemma init_rectangular rows : rectangular (init rows).
Proof.
  destruct rows as [|r rows]; [split; [reflexivity|constructor]|].
  unfold init, rectangular.
  cbn [level_data width height].
  split; [now rewrite length_map|].
  apply Forall_forall. intros row Hin.
  apply in_map_iff in Hin. destruct Hin as (row0 & <- & Hin0).
  f_equal. apply pad_row_length. now apply max_len_ge.
Qed.

Lemma get_some_of_lt (s : string) (n : nat) :
  (n < String.length s)%nat -> exists c, String.get n s = Some c.
Proof.
  revert n. induction s as [|a s IH]; simpl; intros n Hn; [lia|].
  destruct n; [eauto|]. apply IH. lia.
Qed.

(** In a rectangular grid an in-bounds read never raises. *)
Lemma index_in_bounds tm x y :
  rectangular tm -> 0 <= x < width tm -> 0 <= y < height tm ->
  exists c, index tm x y = Some c.
Proof.
  intros [Hh Hw] Hx Hy. unfold index.
  destruct (nth_error (level_data tm) (Z.to_nat y)) as [row|] eqn:Hrow.
  - apply get_some_of_lt.
    assert (Hin : In row (level_data tm)) by (eapply nth_error_In; eauto).
    rewrite Forall_forall in Hw. specialize (Hw _ Hin). lia.
  - apply nth_error_None in Hrow. lia.
Qed.

Lemma is_solid_total tm x y :
  rectangular tm -> exists b, is_solid tm x y = Done b.
Proof.
  intros Hr. unfold is_solid.
  destruct ((x <? 0) || (y <? 0) || (x >=? width tm) || (y >=? height tm))
    eqn:Hout; [eauto|].
  apply orb_false_elim in Hout. destruct Hout as [Hout Hy2].
  apply orb_false_elim in Hout. destruct Hout as [Hout Hx2].
  apply orb_false_elim in Hout. destruct Hout as [Hx1 Hy1].
  assert (Hx : 0 <= x < width tm) by lia.
  assert (Hy : 0 <= y < height tm) by lia.
  unfold get_tile.
  replace ((0 <=? y) && (y <? height tm) && (0 <=? x) && (x <? width tm))
    with true
    by (symmetry; repeat (apply andb_true_intro; split); lia).
  destruct (index_in_bounds tm x y Hr Hx Hy) as [c ->].
  simpl. eauto.
Qed.

Lemma is_solid_out_of_bounds tm x y :
  out_of_bounds tm x y -> is_solid tm x y = Done true.
Proof.
  unfold out_of_bounds, is_solid. intros Hout.
  replace ((x <? 0) || (y <? 0) || (x >=? width tm) || (y >=? height tm))
    with true; [reflexivity|].
  symmetry.
  destruct (Z.ltb_spec x 0); [reflexivity|].
  destruct (Z.ltb_spec y 0); [reflexivity|].
  destruct (Z.geb_spec x (width tm)); [reflexivity|].
  destruct (Z.geb_spec y (height tm)); [reflexivity|].
  lia.
Qed.

Lemma get_tile_out_of_bounds tm x y :
  out_of_bounds tm x y -> get_tile tm x y = Done " "%char.
Proof.
  unfold out_of_bounds, get_tile. intros Hout.
  replace ((0 <=? y) && (y <? height tm) && (0 <=? x) && (x <? width tm))
    with false; [reflexivity|].
  symmetry.
  destruct (Z.leb_spec 0 y); [|reflexivity].
  destruct (Z.ltb_spec y (height tm)); [|reflexivity].
  destruct (Z.leb_spec 0 x); [|reflexivity].
  destruct (Z.ltb_spec x (width tm)); [|reflexivity].
  lia.
Qed.

(** A cell that is not solid lies inside the grid. *)
Lemma not_solid_in_bounds tm x y :
  is_solid tm x y = Done false -> 0 <= x < width tm /\ 0 <= y < height tm.
Proof.
  intros Hs.
  destruct (Z.ltb_spec x 0); [rewrite is_solid_out_of_bounds in Hs;
    [discriminate|unfold out_of_bounds; lia]|].
  destruct (Z.ltb_spec y 0); [rewrite is_solid_out_of_bounds in Hs;
    [discriminate|unfold out_of_bounds; lia]|].
  destruct (Z.ltb_spec x (width tm)); [|rewrite is_solid_out_of_bounds in Hs;
    [discriminate|unfold out_of_bounds; lia]].
  destruct (Z.ltb_spec y (height tm)); [|rewrite is_solid_out_of_bounds in Hs;
    [discriminate|unfold out_of_bounds; lia]].
  lia.
Qed.

End TileMapFacts.
(** ** The look-ahead loop *)

Section SlideLoop.

Variable tm : TileMap.t.
Variables dx dy : Z.

Lemma slide_loop_S fuel x y :
  slide_loop (S fuel) tm dx dy x y =
  match TileMap.is_solid tm (x + dx) (y + dy) with
  | Done true => Done (x, y)
  | Done false => slide_loop fuel tm dx dy (x + dx) (y + dy)
  | Raised => Raised
  | Timeout => Timeout
  end.
Proof. reflexivity. Qed.

Lemma slide_loop_mono fuel : forall fuel' x y r,
  slide_loop fuel tm dx dy x y = Done r -> (fuel <= fuel')%nat ->
  slide_loop fuel' tm dx dy x y = Done r.
Proof.
  induction fuel as [|fuel IH]; intros fuel' x y r Hrun Hle; [discriminate|].
  destruct fuel' as [|fuel']; [lia|].
  simpl in *.
  destruct (TileMap.is_solid tm (x + dx) (y + dy)) as [[|]| |];
    try discriminate; [assumption|].
  apply IH; [assumption|lia].
Qed.

(** [n] free cells ahead and a solid one behind them: the loop stops on the
    [n]-th. *)
Lemma slide_loop_run (n : nat) : forall fuel x y,
  (n < fuel)%nat ->
  (forall k, 1 <= k <= Z.of_nat n ->
     TileMap.is_solid tm (x + k * dx) (y + k * dy) = Done false) ->
  TileMap.is_solid tm (x + (Z.of_nat n + 1) * dx) (y + (Z.of_nat n + 1) * dy)
    = Done true ->
  slide_loop fuel tm dx dy x y = Done (x + Z.of_nat n * dx, y + Z.of_nat n * dy).
Proof.
  induction n as [|n IH]; intros fuel x y Hfuel Hfree Hwall;
    (destruct fuel as [|fuel]; [lia|]); simpl slide_loop.
  - replace (x + dx) with (x + (Z.of_nat 0 + 1) * dx) by lia.
    replace (y + dy) with (y + (Z.of_nat 0 + 1) * dy) by lia.
    rewrite Hwall. f_equal. f_equal; lia.
  - replace (TileMap.is_solid tm (x + dx) (y + dy)) with (@Done bool false).
    2:{ symmetry. replace (x + dx) with (x + 1 * dx) by lia.
        replace (y + dy) with (y + 1 * dy) by lia. apply Hfree. lia. }
    rewrite (IH fuel (x + dx) (y + dy)).
    + f_equal. f_equal; lia.
    + lia.
    + intros k Hk.
      replace (x + dx + k * dx) with (x + (k + 1) * dx) by lia.
      replace (y + dy + k * dy) with (y + (k + 1) * dy) by lia.
      apply Hfree. lia.
    + replace (x + dx + (Z.of_nat n + 1) * dx)
        with (x + (Z.of_nat (S n) + 1) * dx) by lia.
      replace (y + dy + (Z.of_nat n + 1) * dy)
        with (y + (Z.of_nat (S n) + 1) * dy) by lia.
      exact Hwall.
Qed.

(** Conversely, a result of the loop is the end of such a run. *)
Lemma slide_loop_inv fuel : forall x y r,
  slide_loop fuel tm dx dy x y = Done r ->
  exists n : nat,
    (n < fuel)%nat /\
    r = (x + Z.of_nat n * dx, y + Z.of_nat n * dy) /\
    (forall k, 1 <= k <= Z.of_nat n ->
       TileMap.is_solid tm (x + k * dx) (y + k * dy) = Done false) /\
    TileMap.is_solid tm (x + (Z.of_nat n + 1) * dx) (y + (Z.of_nat n + 1) * dy)
      = Done true.
Proof.
  induction fuel as [|fuel IH]; intros x y r Hrun; [discriminate|].
  simpl in Hrun.
  destruct (TileMap.is_solid tm (x + dx) (y + dy)) as [[|]| |] eqn:Hnext;
    try discriminate.
  - exists 0%nat. injection Hrun as <-.
    repeat split.
    + lia.
    + f_equal; lia.
    + intros k Hk. lia.
    + replace (x + (Z.of_nat 0 + 1) * dx) with (x + dx) by lia.
      replace (y + (Z.of_nat 0 + 1) * dy) with (y + dy) by lia.
      replace (x + 1 * dx) with (x + dx) by lia.
      replace (y + 1 * dy) with (y + dy) by lia. exact Hnext.
  - destruct (IH _ _ _ Hrun) as (n & Hn & -> & Hfree & Hwall).
    exists (S n). repeat split.
    + lia.
    + f_equal; lia.
    + intros k Hk.
      destruct (Z.eq_dec k 1) as [->|Hk1].
      * replace (x + 1 * dx) with (x + dx) by lia.
        replace (y + 1 * dy) with (y + dy) by lia. exact Hnext.
      * replace (x + k * dx) with (x + dx + (k - 1) * dx) by lia.
        replace (y + k * dy) with (y + dy + (k - 1) * dy) by lia.
        apply Hfree. lia.
    + replace (x + (Z.of_nat (S n) + 1) * dx)
        with (x + dx + (Z.of_nat n + 1) * dx) by lia.
      replace (y + (Z.of_nat (S n) + 1) * dy)
        with (y + dy + (Z.of_nat n + 1) * dy) by lia.
      exact Hwall.
Qed.

Hypothesis Hcard : cardinal dx dy.

Lemma room_step x y :
  TileMap.is_solid tm (x + dx) (y + dy) = Done false ->
  room tm dx dy (x + dx) (y + dy) = room tm dx dy x y - 1 /\
  0 < room tm dx dy (x + dx) (y + dy) <=
    Z.max (TileMap.width tm) (TileMap.height tm).
Proof.
  intros Hfree. apply not_solid_in_bounds in Hfree. unfold room.
  destruct Hcard as [[-> ->]|[[-> ->]|[[-> ->]|[-> ->]]]]; simpl; lia.
Qed.

Lemma slide_loop_room fuel : forall x y,
  TileMap.rectangular tm ->
  (0 < fuel)%nat -> room tm dx dy x y < Z.of_nat fuel ->
  exists r, slide_loop fuel tm dx dy x y = Done r.
Proof.
  induction fuel as [|fuel IH]; intros x y Hrect Hpos Hroom; [lia|].
  simpl.
  destruct (is_solid_total tm (x + dx) (y + dy) Hrect) as [[|] Hs];
    rewrite Hs; [eauto|].
  destruct (room_step x y Hs) as [Heq Hbound].
  apply IH; [assumption|lia|lia].
Qed.

(** The fuel of [look_ahead] is enough from every cell, inside the grid or
    not. *)
Lemma slide_loop_enough x y :
  TileMap.rectangular tm ->
  exists r, slide_loop (slide_fuel tm) tm dx dy x y = Done r.
Proof.
  intros Hrect. unfold slide_fuel.
  set (m := Z.to_nat (Z.max (TileMap.width tm) (TileMap.height tm))).
  rewrite slide_loop_S.
  destruct (is_solid_total tm (x + dx) (y + dy) Hrect) as [[|] Hs];
    rewrite Hs; [eauto|].
  destruct (room_step x y Hs) as [Heq Hbound].
  apply slide_loop_room; [assumption|lia|].
  subst m. lia.
Qed.

End SlideLoop.
(** ** Queries outside the grid *)

Lemma is_solid_wall tm x y :
  TileMap.get_tile tm x y = Done "#"%char -> TileMap.is_solid tm x y = Done true.
Proof.
  intros Hwall. unfold TileMap.is_solid. rewrite Hwall.
  destruct ((x <? 0) || (y <? 0) || (x >=? TileMap.width tm)
            || (y >=? TileMap.height tm)); reflexivity.
Qed.

Lemma is_solid_solid_or_outside tm x y :
  solid_or_outside tm x y -> TileMap.is_solid tm x y = Done true.
Proof.
  intros [Hout|Hwall];
    [now apply is_solid_out_of_bounds | now apply is_solid_wall].
Qed.

(** C6: for every grid and every coordinate outside
    [0,width) x [0,height), [is_solid] returns true and [get_tile] returns
    the space character; both calls return (neither raises), and the two
    sentinels differ. *)
Theorem out_of_bounds_sentinels (tm : TileMap.t) (x y : Z) :
  TileMap.out_of_bounds tm x y ->
  TileMap.is_solid tm x y = Done true /\
  TileMap.get_tile tm x y = Done " "%char /\
  TileMap.in_tiles " "%char TileMap.solid_tiles = false.
Proof.
  intros Hout. split; [|split].
  - now apply is_solid_out_of_bounds.
  - now apply get_tile_out_of_bounds.
  - reflexivity.
Qed.

Lemma out_of_bounds_sentinels_witness :
  TileMap.is_solid (TileMap.init example_level) (-1) (-1) = Done true /\
  TileMap.get_tile (TileMap.init example_level) (-1) (-1) = Done " "%char /\
  TileMap.in_tiles " "%char TileMap.solid_tiles = false.
Proof.
  apply (out_of_bounds_sentinels (TileMap.init example_level) (-1) (-1)).
  unfold TileMap.out_of_bounds. simpl. lia.
Defined.

(** ** Termination of the look-ahead *)

Lemma cardinal_opp dx dy : cardinal dx dy -> cardinal (- dx) (- dy).
Proof. unfold cardinal. lia. Qed.

(** C7: on every finite rectangular grid, from every start cell (inside the
    grid or not) and in every cardinal direction, the look-ahead loop of
    [start_move] terminates: it returns a cell with the fuel [look_ahead]
    gives it, which is at most [max width height + 2] iterations, and more
    fuel does not change the result. *)
Theorem look_ahead_terminates (tm : TileMap.t) (x y dx dy : Z) :
  TileMap.rectangular tm -> cardinal dx dy ->
  exists r,
    look_ahead tm x y dx dy = Done r /\
    forall fuel, (slide_fuel tm <= fuel)%nat ->
      slide_loop fuel tm dx dy x y = Done r.
Proof.
  intros Hrect Hcard.
  destruct (slide_loop_enough tm dx dy Hcard x y Hrect) as [r Hr].
  exists r. split; [exact Hr|].
  intros fuel Hfuel. eapply slide_loop_mono; eauto.
Qed.

Lemma look_ahead_terminates_witness :
  exists r,
    look_ahead (TileMap.init example_level) (-1) 1 1 0 = Done r /\
    forall fuel, (slide_fuel (TileMap.init example_level) <= fuel)%nat ->
      slide_loop fuel (TileMap.init example_level) 1 0 (-1) 1 = Done r.
Proof.
  apply (look_ahead_terminates (TileMap.init example_level) (-1) 1 1 0).
  - split; [reflexivity|]. simpl. repeat constructor.
  - unfold cardinal. lia.
Defined.

(** ** The slide stops on the last free cell *)

Lemma free_run_bounded tm x y dx dy (n : nat) :
  cardinal dx dy ->
  (forall k, 1 <= k <= Z.of_nat n ->
     TileMap.is_solid tm (x + k * dx) (y + k * dy) = Done false) ->
  (n < slide_fuel tm)%nat.
Proof.
  intros Hcard Hfree. unfold slide_fuel.
  destruct n as [|n]; [lia|].
  assert (H1 := not_solid_in_bounds tm _ _ (Hfree 1 ltac:(lia))).
  assert (Hn := not_solid_in_bounds tm _ _ (Hfree (Z.of_nat (S n)) ltac:(lia))).
  destruct Hcard as [[-> ->]|[[-> ->]|[[-> ->]|[-> ->]]]]; lia.
Qed.

Lemma look_ahead_run tm x y dx dy (n : nat) :
  cardinal dx dy ->
  (forall k, 1 <= k <= Z.of_nat n ->
     TileMap.is_solid tm (x + k * dx) (y + k * dy) = Done false) ->
  TileMap.is_solid tm (x + (Z.of_nat n + 1) * dx) (y + (Z.of_nat n + 1) * dy)
    = Done true ->
  look_ahead tm x y dx dy = Done (x + Z.of_nat n * dx, y + Z.of_nat n * dy).
Proof.
  intros Hcard Hfree Hwall. unfold look_ahead.
  apply slide_loop_run; [|assumption|assumption].
  eapply free_run_bounded; eauto.
Qed.

(** C1: for every grid, every start cell and every cardinal direction, if
    exactly [n >= 0] consecutive cells after the start are not solid and
    the next one is a wall or outside the grid, the look-ahead of
    [start_move] returns the cell [n] steps away, and [start_move] takes it
    as destination: for [n = 0] the player stays on its cell (the move is
    blocked: only the direction and the cooldown change), otherwise the
    target is that cell and the player starts moving. *)
Theorem start_move_resolves_slide (tm : TileMap.t) (p : Player.t)
    (dx dy n : Z) :
  cardinal dx dy -> 0 <= n ->
  (forall k, 1 <= k <= n ->
     TileMap.is_solid tm (fst (Player.start_tile p) + k * dx)
                         (snd (Player.start_tile p) + k * dy) = Done false) ->
  solid_or_outside tm (fst (Player.start_tile p) + (n + 1) * dx)
                      (snd (Player.start_tile p) + (n + 1) * dy) ->
  look_ahead tm (fst (Player.start_tile p)) (snd (Player.start_tile p)) dx dy
    = Done (fst (Player.start_tile p) + n * dx,
            snd (Player.start_tile p) + n * dy) /\
  Player.start_move tm p dx dy = Done (after_start_move p dx dy n) /\
  (n = 0 ->
     Player.x (fst (after_start_move p dx dy n)) = Player.x p /\
     Player.y (fst (after_start_move p dx dy n)) = Player.y p /\
     Player.moving (fst (after_start_move p dx dy n)) = Player.moving p) /\
  (0 < n ->
     Player.target_x (fst (after_start_move p dx dy n))
       = (fst (Player.start_tile p) + n * dx) * TILE_SIZE /\
     Player.target_y (fst (after_start_move p dx dy n))
       = (snd (Player.start_tile p) + n * dy) * TILE_SIZE /\
     Player.moving (fst (after_start_move p dx dy n)) = true).
Proof.
  intros Hcard Hn Hfree Hwall.
  set (tx := fst (Player.start_tile p)) in *.
  set (ty := snd (Player.start_tile p)) in *.
  assert (Hlook : look_ahead tm tx ty dx dy = Done (tx + n * dx, ty + n * dy)).
  { rewrite <- (Z2Nat.id n Hn). apply look_ahead_run; [assumption| |].
    - intros k Hk. apply Hfree. lia.
    - rewrite Z2Nat.id by assumption.
      now apply is_solid_solid_or_outside. }
  split; [exact Hlook|]. split; [|split].
  - unfold Player.start_move. fold tx ty. rewrite Hlook.
    cbn [bind fst snd]. unfold after_start_move. fold tx ty.
    assert (Hiff : ((tx + n * dx =? tx) && (ty + n * dy =? ty)) = (n =? 0)).
    { destruct (Z.eqb_spec n 0) as [->|Hn0].
      - replace (tx + 0 * dx) with tx by lia.
        replace (ty + 0 * dy) with ty by lia.
        now rewrite !Z.eqb_refl.
      - apply andb_false_iff.
        destruct Hcard as [[-> ->]|[[-> ->]|[[-> ->]|[-> ->]]]];
          [left|left|right|right]; apply Z.eqb_neq; lia. }
    rewrite Hiff. destruct (n =? 0); reflexivity.
  - intros ->. unfold after_start_move. simpl. repeat split.
  - intros Hpos. unfold after_start_move.
    destruct (Z.eqb_spec n 0); [lia|]. simpl. repeat split.
Qed.

(** The end-to-end example: from the spawn cell (1,1), two cells to the
    right are free and column 4 is the wall. *)
Lemma start_move_resolves_slide_witness :
  look_ahead (TileMap.init example_level) 1 1 1 0 = Done (3, 1) /\
  Player.start_move (TileMap.init example_level) (Player.init 1 1) 1 0
    = Done (after_start_move (Player.init 1 1) 1 0 2).
Proof.
  destruct (start_move_resolves_slide (TileMap.init example_level)
              (Player.init 1 1) 1 0 2) as (Hlook & Hmove & _).
  - unfold cardinal. lia.
  - lia.
  - intros k Hk.
    assert (Hcases : k = 1 \/ k = 2) by lia.
    destruct Hcases as [-> | ->]; reflexivity.
  - right. reflexivity.
  - split; [exact Hlook | exact Hmove].
Defined.

(** ** Sliding there and back *)

(** C9, as stated, fails: in a corridor of three free cells the slide to
    the right from the middle cell stops one cell away, and the slide back
    to the left runs two cells, past the start, to the far wall. *)
Lemma return_slide_passes_start :
  ~ return_no_farther_than_start
      (TileMap.init ["#####"; "#   #"; "#####"]%string) 2 1 1 0.
Proof.
  intros Hclaim.
  specialize (Hclaim (3, 1) (1, 1) eq_refl eq_refl).
  unfold cell_distance in Hclaim. simpl in Hclaim. lia.
Qed.

(** C9, amended: on every rectangular grid, from every free start cell and
    in every cardinal direction [d], the slide in direction [d] stops [n]
    cells ahead and the slide back from there stops [k >= 0] cells behind
    the start, on the same line; every cell between the two ends is free
    (no slide passes through a wall), the cell beyond the return end is
    solid, and the return ends on the start exactly when the cell behind
    the start is solid. *)
Theorem return_slide_reaches_start (tm : TileMap.t) (x y dx dy : Z) :
  TileMap.rectangular tm -> cardinal dx dy ->
  TileMap.is_solid tm x y = Done false ->
  exists n k : Z,
    0 <= n /\ 0 <= k /\
    look_ahead tm x y dx dy = Done (x + n * dx, y + n * dy) /\
    look_ahead tm (x + n * dx) (y + n * dy) (- dx) (- dy)
      = Done (x - k * dx, y - k * dy) /\
    (forall j, - k <= j <= n ->
       TileMap.is_solid tm (x + j * dx) (y + j * dy) = Done false) /\
    TileMap.is_solid tm (x - (k + 1) * dx) (y - (k + 1) * dy) = Done true /\
    (k = 0 <-> TileMap.is_solid tm (x - dx) (y - dy) = Done true).
Proof.
  intros Hrect Hcard Hstart.
  destruct (slide_loop_enough tm dx dy Hcard x y Hrect) as [a Ha].
  destruct (slide_loop_inv tm dx dy _ _ _ _ Ha) as (n & _ & -> & Hfree & Hwall).
  destruct (slide_loop_enough tm (- dx) (- dy) (cardinal_opp _ _ Hcard)
              (x + Z.of_nat n * dx) (y + Z.of_nat n * dy) Hrect) as [b Hb].
  destruct (slide_loop_inv tm (- dx) (- dy) _ _ _ _ Hb)
    as (m & _ & -> & Hback & Hend).
  (* the way back is free at least as far as the start *)
  assert (Hforward : forall j, 0 <= j <= Z.of_nat n ->
            TileMap.is_solid tm (x + j * dx) (y + j * dy) = Done false).
  { intros j Hj. destruct (Z.eq_dec j 0) as [->|Hj0].
    - replace (x + 0 * dx) with x by lia. replace (y + 0 * dy) with y by lia.
      exact Hstart.
    - apply Hfree. lia. }
  assert (Hmn : (n <= m)%nat).
  { destruct (Nat.le_gt_cases n m) as [Hle|Hgt]; [exact Hle|exfalso].
    specialize (Hforward (Z.of_nat n - Z.of_nat m - 1) ltac:(lia)).
    replace (x + Z.of_nat n * dx + (Z.of_nat m + 1) * - dx)
      with (x + (Z.of_nat n - Z.of_nat m - 1) * dx) in Hend by lia.
    replace (y + Z.of_nat n * dy + (Z.of_nat m + 1) * - dy)
      with (y + (Z.of_nat n - Z.of_nat m - 1) * dy) in Hend by lia.
    congruence. }
  assert (Hall : forall j, - (Z.of_nat m - Z.of_nat n) <= j <= Z.of_nat n ->
            TileMap.is_solid tm (x + j * dx) (y + j * dy) = Done false).
  { intros j Hj. destruct (Z_le_gt_dec 0 j) as [Hpos|Hneg].
    - apply Hforward. lia.
    - specialize (Hback (Z.of_nat n - j) ltac:(lia)).
      replace (x + Z.of_nat n * dx + (Z.of_nat n - j) * - dx)
        with (x + j * dx) in Hback by lia.
      replace (y + Z.of_nat n * dy + (Z.of_nat n - j) * - dy)
        with (y + j * dy) in Hback by lia.
      exact Hback. }
  assert (Hbeyond : TileMap.is_solid tm
                      (x - (Z.of_nat m - Z.of_nat n + 1) * dx)
                      (y - (Z.of_nat m - Z.of_nat n + 1) * dy) = Done true).
  { replace (x - (Z.of_nat m - Z.of_nat n + 1) * dx)
      with (x + Z.of_nat n * dx + (Z.of_nat m + 1) * - dx) by lia.
    replace (y - (Z.of_nat m - Z.of_nat n + 1) * dy)
      with (y + Z.of_nat n * dy + (Z.of_nat m + 1) * - dy) by lia.
    exact Hend. }
  exists (Z.of_nat n), (Z.of_nat m - Z.of_nat n).
  split; [lia|]. split; [lia|]. split; [exact Ha|]. split; [|split; [|split]].
  - unfold look_ahead. rewrite Hb. f_equal. f_equal; lia.
  - exact Hall.
  - exact Hbeyond.
  - split.
    + intros Hk. rewrite Hk in Hbeyond.
      replace (x - (0 + 1) * dx) with (x - dx) in Hbeyond by lia.
      replace (y - (0 + 1) * dy) with (y - dy) in Hbeyond by lia.
      exact Hbeyond.
    + intros Hbehind.
      destruct (Z.eq_dec (Z.of_nat m - Z.of_nat n) 0) as [Hk|Hk]; [exact Hk|].
      specialize (Hall (-1) ltac:(lia)).
      replace (x + -1 * dx) with (x - dx) in Hall by lia.
      replace (y + -1 * dy) with (y - dy) in Hall by lia.
      congruence.
Qed.

Lemma return_slide_reaches_start_witness :
  exists n k : Z,
    0 <= n /\ 0 <= k /\
    look_ahead (TileMap.init example_level) 2 1 1 0
      = Done (2 + n * 1, 1 + n * 0) /\
    look_ahead (TileMap.init example_level) (2 + n * 1) (1 + n * 0) (- (1)) (- 0)
      = Done (2 - k * 1, 1 - k * 0) /\
    (forall j, - k <= j <= n ->
       TileMap.is_solid (TileMap.init example_level) (2 + j * 1) (1 + j * 0)
         = Done false) /\
    TileMap.is_solid (TileMap.init example_level)
      (2 - (k + 1) * 1) (1 - (k + 1) * 0) = Done true /\
    (k = 0 <->
     TileMap.is_solid (TileMap.init example_level) (2 - 1) (1 - 0) = Done true).
Proof.
  apply (return_slide_reaches_start (TileMap.init example_level) 2 1 1 0).
  - split; [reflexivity|]. simpl. repeat constructor.
  - unfold cardinal. lia.
  - reflexivity.
Defined.
(** ** The player *)

Lemma player_invariant_init sx sy : player_invariant (Player.init sx sy).
Proof.
  split.
  - exists sx, sy. split; reflexivity.
  - intros _ _. exists sx, sy. split; apply Qeq_refl.
Qed.

Lemma player_invariant_set_sounds p land jump :
  player_invariant p -> player_invariant (Player.set_sounds p land jump).
Proof. intros H. exact H. Qed.

Lemma player_invariant_set_score p s :
  player_invariant p -> player_invariant (Player.set_score p s).
Proof. intros H. exact H. Qed.

Lemma player_invariant_kill p d :
  player_invariant p -> player_invariant (Player.kill p d).
Proof.
  intros [Htarget _]. split; [exact Htarget|].
  simpl. discriminate.
Qed.

Lemma player_invariant_reset p : player_invariant (Player.reset_to_start p).
Proof.
  split.
  - exists (Player.spawn_tile_x p), (Player.spawn_tile_y p). split; reflexivity.
  - intros _ _. exists (Player.spawn_tile_x p), (Player.spawn_tile_y p).
    split; apply Qeq_refl.
Qed.

Lemma start_move_invariant tm p dx dy p' s :
  Player.start_move tm p dx dy = Done (p', s) ->
  player_invariant p -> player_invariant p'.
Proof.
  unfold Player.start_move. intros Hrun Hinv.
  destruct (look_ahead tm _ _ dx dy) as [[lx ly]| |]; try discriminate.
  cbn [bind fst snd] in Hrun.
  destruct ((lx =? _) && (ly =? _)); injection Hrun as <- _.
  - exact Hinv.
  - split; [exists lx, ly; split; reflexivity|].
    simpl. discriminate.
Qed.

Lemma handle_input_invariant tm p keys p' s :
  Player.handle_input tm p keys = Done (p', s) ->
  player_invariant p -> player_invariant p'.
Proof.
  unfold Player.handle_input. intros Hrun Hinv.
  destruct (Player.moving p || negb (Player.alive p)
            || Qpositive (Player.move_cooldown p)).
  { injection Hrun as <- _. exact Hinv. }
  destruct (K_LEFT keys);
    [exact (start_move_invariant _ _ _ _ _ _ Hrun Hinv)|].
  destruct (K_RIGHT keys);
    [exact (start_move_invariant _ _ _ _ _ _ Hrun Hinv)|].
  destruct (K_UP keys);
    [exact (start_move_invariant _ _ _ _ _ _ Hrun Hinv)|].
  destruct (K_DOWN keys);
    [exact (start_move_invariant _ _ _ _ _ _ Hrun Hinv)|].
  injection Hrun as <- _. exact Hinv.
Qed.

Lemma update_invariant p dt p' s :
  Player.update p dt = Done (p', s) ->
  player_invariant p -> player_invariant p'.
Proof.
  unfold Player.update. intros Hrun Hinv.
  set (p1 := if Qpositive (Player.move_cooldown p)
             then Player.set_move_cooldown p (Player.move_cooldown p - dt)
             else p) in *.
  assert (Hinv1 : player_invariant p1).
  { subst p1. destruct (Qpositive (Player.move_cooldown p)); exact Hinv. }
  clearbody p1. clear Hinv.
  destruct (Player.alive p1) eqn:Halive; cbn [negb] in Hrun.
  - destruct (Player.moving p1) eqn:Hmoving; cbn [negb] in Hrun.
    + destruct (Qle_bool _ _).
      * injection Hrun as <- _. destruct Hinv1 as [(tx & ty & Hx & Hy) _].
        split; [exists tx, ty; split; assumption|].
        intros _ _. exists tx, ty. simpl. rewrite Hx, Hy.
        split; apply Qeq_refl.
      * destruct (Qeq_bool _ _); [discriminate|].
        injection Hrun as <- _. destruct Hinv1 as [Htarget _].
        split; [exact Htarget|]. simpl. rewrite Hmoving. discriminate.
    + injection Hrun as <- _. exact Hinv1.
  - destruct Hinv1 as [Htarget _].
    destruct (Qpositive (Player.death_timer p1)); injection Hrun as <- _;
      (split; [exact Htarget|]); simpl; rewrite Halive; discriminate.
Qed.

(** With a frame time that is not negative, [update] never divides by
    zero. *)
Lemma update_total p dt :
  (0 <= dt)%Q -> exists r, Player.update p dt = Done r.
Proof.
  intros Hdt. unfold Player.update.
  set (p1 := if Qpositive (Player.move_cooldown p)
             then Player.set_move_cooldown p (Player.move_cooldown p - dt)
             else p).
  destruct (negb (Player.alive p1)); [eauto|].
  destruct (negb (Player.moving p1)); [eauto|].
  match goal with |- context [Qle_bool ?d ?s] =>
    destruct (Qle_bool d s) eqn:Hle; [eauto|];
    destruct (Qeq_bool d 0) eqn:Hzero; [exfalso|eauto];
    apply Qeq_bool_iff in Hzero;
    assert (Hstep : (d <= s)%Q);
    [rewrite Hzero|apply Qle_bool_iff in Hstep; congruence]
  end.
  apply Qmult_le_0_compat; [|exact Hdt].
  unfold Player.speed, PLAYER_SPEED. unfold Qle. simpl. lia.
Qed.

Lemma start_move_total tm p dx dy :
  TileMap.rectangular tm -> cardinal dx dy ->
  exists r, Player.start_move tm p dx dy = Done r.
Proof.
  intros Hrect Hcard. unfold Player.start_move, look_ahead.
  destruct (slide_loop_enough tm dx dy Hcard
              (fst (Player.start_tile p)) (snd (Player.start_tile p)) Hrect)
    as [[lx ly] ->].
  cbn [bind fst snd]. destruct ((lx =? _) && (ly =? _)); eauto.
Qed.

Lemma handle_input_total tm p keys :
  TileMap.rectangular tm -> exists r, Player.handle_input tm p keys = Done r.
Proof.
  intros Hrect. unfold Player.handle_input.
  destruct (Player.moving p || negb (Player.alive p)
            || Qpositive (Player.move_cooldown p)); [eauto|].
  destruct (K_LEFT keys);
    [exact (start_move_total tm p (-1) 0 Hrect ltac:(unfold cardinal; lia))|].
  destruct (K_RIGHT keys);
    [exact (start_move_total tm p 1 0 Hrect ltac:(unfold cardinal; lia))|].
  destruct (K_UP keys);
    [exact (start_move_total tm p 0 (-1) Hrect ltac:(unfold cardinal; lia))|].
  destruct (K_DOWN keys);
    [exact (start_move_total tm p 0 1 Hrect ltac:(unfold cardinal; lia))|].
  exists (p, []). reflexivity.
Qed.
(** ** The collision checks of a frame *)

Lemma play_nil g : Game.play g [] = g.
Proof. destruct g. unfold Game.play. simpl. now rewrite app_nil_r. Qed.

Lemma play_play g a b : Game.play (Game.play g a) b = Game.play g (a ++ b).
Proof. unfold Game.play. simpl. now rewrite app_assoc. Qed.

Lemma collect_coins_0 g : collect_coins g 0 = g.
Proof.
  destruct g as [st lv ci si gc ls tm p cs ts ds ss ex sc sfx]. destruct p.
  unfold collect_coins, Game.set_global_coins, Game.set_player, Game.play,
    Player.set_score.
  simpl. now rewrite !Z.add_0_r, app_nil_r.
Qed.

Lemma collect_coins_S g n :
  collect_coins (collect_coins g 1) n = collect_coins g (S n).
Proof.
  unfold collect_coins, Game.set_global_coins, Game.set_player, Game.play,
    Player.set_score.
  cbn [Game.state Game.lives Game.current_level_index Game.saved_level_index
       Game.global_coins Game.level_stars Game.tilemap Game.player
       Game.collectibles Game.traps Game.dots Game.stars Game.exit_portal
       Game.stars_collected_count Game.sfx_played
       Player.spawn_tile_x Player.spawn_tile_y Player.x Player.y Player.moving
       Player.dir_x Player.dir_y Player.target_x Player.target_y
       Player.land_sound Player.jump_sound Player.score Player.alive
       Player.death_timer Player.move_cooldown].
  rewrite <- app_assoc.
  replace (repeat SfxCoin 1 ++ repeat SfxCoin n) with (repeat SfxCoin (S n))
    by reflexivity.
  replace (Player.score (Game.player g) + Z.of_nat 1 + Z.of_nat n)
    with (Player.score (Game.player g) + Z.of_nat (S n)) by lia.
  replace (Game.global_coins g + Z.of_nat 1 + Z.of_nat n)
    with (Game.global_coins g + Z.of_nat (S n)) by lia.
  reflexivity.
Qed.

Lemma handle_collectibles_loop_eq px py cs : forall g,
  Game.handle_collectibles_loop px py cs g =
  (map (collect_at px py) cs,
   collect_coins g (List.length (filter (Game.tile_match px py) cs))).
Proof.
  induction cs as [|c cs IH]; intros g.
  - simpl. now rewrite collect_coins_0.
  - cbn [Game.handle_collectibles_loop map filter]. unfold collect_at at 1.
    destruct (Game.tile_match px py c).
    + rewrite IH. cbn [fst snd List.length].
      f_equal. apply (collect_coins_S g).
    + rewrite IH. reflexivity.
Qed.

Lemma handle_collectibles_eq g :
  Game.handle_collectibles g =
  Game.set_collectibles
    (collect_coins g (coins_now g))
    (map (collect_at (fst (Player.get_tile_pos (Game.player g)))
                     (snd (Player.get_tile_pos (Game.player g))))
         (Game.collectibles g)).
Proof.
  unfold Game.handle_collectibles. now rewrite handle_collectibles_loop_eq.
Qed.

Lemma handle_traps_loop_eq ts g :
  Game.handle_traps_loop ts g =
  if existsb (fun tr => Trap.check_hit tr (Player.rect (Game.player g))) ts
  then Game.set_player (Game.play g [SfxDeath]) (Player.kill (Game.player g) 0)
  else g.
Proof.
  induction ts as [|tr ts IH]; [reflexivity|].
  cbn [Game.handle_traps_loop existsb].
  destruct (Trap.check_hit tr _); [reflexivity|exact IH].
Qed.

Lemma handle_traps_eq g :
  Game.handle_traps g =
  if trap_hit_now g
  then Game.set_player (Game.play g [SfxDeath]) (Player.kill (Game.player g) 0)
  else g.
Proof.
  unfold Game.handle_traps, trap_hit_now.
  destruct (Player.alive (Game.player g)); cbn [negb andb]; [|reflexivity].
  apply handle_traps_loop_eq.
Qed.

Lemma handle_stars_loop_eq ss g :
  Game.handle_stars_loop ss g =
  (mark_first_star (Player.rect (Game.player g)) ss,
   if existsb (Game.star_hit (Player.rect (Game.player g))) ss
   then Game.set_stars_collected_count (Game.play g [SfxStar])
          (Game.stars_collected_count g + 1)
   else g).
Proof.
  induction ss as [|s ss IH]; [reflexivity|].
  cbn [Game.handle_stars_loop mark_first_star existsb].
  destruct (Game.star_hit _ s); [reflexivity|].
  rewrite IH. reflexivity.
Qed.

Lemma handle_stars_eq g :
  Game.handle_stars g =
  Game.set_stars
    (if star_hit_now g
     then Game.set_stars_collected_count (Game.play g [SfxStar])
            (Game.stars_collected_count g + 1)
     else g)
    (mark_first_star (Player.rect (Game.player g)) (Game.stars g)).
Proof.
  unfold Game.handle_stars. now rewrite handle_stars_loop_eq.
Qed.

Lemma handle_dots_loop_eq r ds : forall g,
  Game.handle_dots_loop r ds g =
  (filter (fun d => negb (Game.dot_hit r d)) ds,
   Game.play g (repeat SfxDot (List.length (filter (Game.dot_hit r) ds)))).
Proof.
  induction ds as [|d ds IH]; intros g.
  - simpl. now rewrite play_nil.
  - cbn [Game.handle_dots_loop filter].
    destruct (Game.dot_hit r d); cbn [negb].
    + rewrite IH, play_play. reflexivity.
    + rewrite IH. reflexivity.
Qed.

Lemma handle_dots_eq g :
  Game.handle_dots g =
  Game.set_dots
    (Game.play g (repeat SfxDot (dots_now g)))
    (filter (fun d => negb (Game.dot_hit (Player.rect (Game.player g)) d))
            (Game.dots g)).
Proof.
  unfold Game.handle_dots. now rewrite handle_dots_loop_eq.
Qed.

(** The guard of [handle_traps]: with a dead player no trap is checked and
    nothing changes. *)
Lemma handle_traps_dead g :
  Player.alive (Game.player g) = false -> Game.handle_traps g = g.
Proof. unfold Game.handle_traps. now intros ->. Qed.

(** The player, the lives and the state through the collision checks. *)
Lemma collision_checks_player g :
  Game.player (collision_checks g) =
  let p := Player.set_score (Game.player g)
             (Player.score (Game.player g) + Z.of_nat (coins_now g)) in
  if trap_hit_now g then Player.kill p 0 else p.
Proof.
  unfold collision_checks.
  rewrite handle_dots_eq, handle_stars_eq, handle_traps_eq,
    handle_collectibles_eq.
  assert (Hhit : trap_hit_now
            (Game.set_collectibles (collect_coins g (coins_now g))
               (map (collect_at (fst (Player.get_tile_pos (Game.player g)))
                                (snd (Player.get_tile_pos (Game.player g))))
                    (Game.collectibles g))) = trap_hit_now g) by reflexivity.
  rewrite Hhit.
  destruct (trap_hit_now g);
    match goal with |- context [star_hit_now ?h] => destruct (star_hit_now h) end;
    reflexivity.
Qed.

Lemma collision_checks_fields g :
  Game.lives (collision_checks g) = Game.lives g /\
  Game.state (collision_checks g) = Game.state g /\
  Game.tilemap (collision_checks g) = Game.tilemap g /\
  Game.current_level_index (collision_checks g) = Game.current_level_index g /\
  Game.exit_portal (collision_checks g) = Game.exit_portal g /\
  Game.traps (collision_checks g) = Game.traps g.
Proof.
  unfold collision_checks.
  rewrite handle_dots_eq, handle_stars_eq, handle_traps_eq,
    handle_collectibles_eq.
  match goal with |- context [trap_hit_now ?h] => destruct (trap_hit_now h) end;
    match goal with |- context [star_hit_now ?h] => destruct (star_hit_now h) end;
    repeat split.
Qed.

Lemma sfx_played_set_dots_play g l ds :
  Game.sfx_played (Game.set_dots (Game.play g l) ds) = Game.sfx_played g ++ l.
Proof. reflexivity. Qed.

Lemma sfx_played_set_stars g ss :
  Game.sfx_played (Game.set_stars g ss) = Game.sfx_played g.
Proof. reflexivity. Qed.

Lemma sfx_played_star g n :
  Game.sfx_played (Game.set_stars_collected_count (Game.play g [SfxStar]) n)
  = Game.sfx_played g ++ [SfxStar].
Proof. reflexivity. Qed.

(** The sounds of the collision checks come in the order of the checks:
    coins, then the death, then the star, then the dots. *)
Lemma collision_checks_sounds g :
  Game.sfx_played (collision_checks g) =
  Game.sfx_played g
  ++ repeat SfxCoin (coins_now g)
  ++ sound_if (trap_hit_now g) SfxDeath
  ++ sound_if (star_hit_now g) SfxStar
  ++ repeat SfxDot (dots_now g).
Proof.
  unfold collision_checks.
  rewrite handle_dots_eq.
  set (g5 := Game.handle_stars _).
  assert (Hdots : dots_now g5 = dots_now g).
  { subst g5. rewrite handle_stars_eq, handle_traps_eq, handle_collectibles_eq.
    match goal with |- context [trap_hit_now ?h] => destruct (trap_hit_now h) end;
      match goal with |- context [star_hit_now ?h] => destruct (star_hit_now h) end;
      reflexivity. }
  rewrite Hdots, sfx_played_set_dots_play.
  subst g5. rewrite handle_stars_eq, sfx_played_set_stars.
  set (g4 := Game.handle_traps _).
  assert (Hstar : star_hit_now g4 = star_hit_now g).
  { subst g4. rewrite handle_traps_eq, handle_collectibles_eq.
    match goal with |- context [trap_hit_now ?h] => destruct (trap_hit_now h) end;
      reflexivity. }
  rewrite Hstar.
  assert (Hsfx4 : Game.sfx_played g4 =
    Game.sfx_played g ++ repeat SfxCoin (coins_now g)
    ++ sound_if (trap_hit_now g) SfxDeath).
  { subst g4. rewrite handle_traps_eq, handle_collectibles_eq.
    assert (Hhit : trap_hit_now
              (Game.set_collectibles (collect_coins g (coins_now g))
                 (map (collect_at (fst (Player.get_tile_pos (Game.player g)))
                                  (snd (Player.get_tile_pos (Game.player g))))
                      (Game.collectibles g))) = trap_hit_now g) by reflexivity.
    rewrite Hhit.
    destruct (trap_hit_now g); cbn [sound_if]; simpl.
    - now rewrite <- app_assoc.
    - now rewrite app_nil_r. }
  destruct (star_hit_now g); cbn [sound_if].
  - rewrite sfx_played_star, Hsfx4. now rewrite <- !app_assoc.
  - rewrite Hsfx4. cbn [app]. now rewrite <- !app_assoc.
Qed.
(** ** Invariants of the game *)

Lemma py_index_levels_range i name :
  py_index LEVELS i = Done name ->
  - Z.of_nat (List.length LEVELS) <= i < Z.of_nat (List.length LEVELS).
Proof.
  unfold py_index. simpl List.length.
  destruct (Z.ltb_spec i 0);
    destruct (Z.leb_spec 0 (i + Z.of_nat 3)); destruct (Z.leb_spec 0 i);
    destruct (Z.ltb_spec (i + Z.of_nat 3) (Z.of_nat 3));
    destruct (Z.ltb_spec i (Z.of_nat 3)); cbn [andb]; try discriminate; lia.
Qed.

Lemma py_index_levels_total i :
  - Z.of_nat (List.length LEVELS) <= i < Z.of_nat (List.length LEVELS) ->
  exists name, py_index LEVELS i = Done name.
Proof.
  simpl List.length. intros Hi.
  assert (Hcases : i = -3 \/ i = -2 \/ i = -1 \/ i = 0 \/ i = 1 \/ i = 2) by lia.
  destruct Hcases as [->|[->|[->|[->|[->| ->]]]]]; eexists; reflexivity.
Qed.

Lemma setup_level_spec load_level g play_sound g' :
  Game.setup_level load_level g play_sound = Done g' ->
  Game.lives g <= MAX_LIVES ->
  game_invariant g' /\ Game.lives g' = Game.lives g /\
  Game.state g' = Game.state g.
Proof.
  unfold Game.setup_level. intros Hrun Hlives.
  destruct (py_index LEVELS (Game.current_level_index g)) as [name| |] eqn:Hname;
    try discriminate.
  cbn [bind] in Hrun. injection Hrun as <-.
  split; [|split; reflexivity].
  split; [apply init_rectangular|].
  split; [apply (py_index_levels_range _ _ Hname)|].
  split; [exact Hlives|].
  apply player_invariant_set_sounds, player_invariant_init.
Qed.

Lemma game_invariant_fields g g' :
  Game.tilemap g' = Game.tilemap g ->
  Game.current_level_index g' = Game.current_level_index g ->
  Game.lives g' <= MAX_LIVES ->
  player_invariant (Game.player g') ->
  game_invariant g -> game_invariant g'.
Proof.
  intros Htm Hci Hlives Hplayer (Hrect & Hidx & _ & _).
  unfold game_invariant. rewrite Htm, Hci. tauto.
Qed.

Lemma max_lives_le : MAX_LIVES <= MAX_LIVES.
Proof. lia. Qed.

Lemma restart_game_invariant load_level g g' :
  Game.restart_game load_level g = Done g' -> game_invariant g'.
Proof.
  unfold Game.restart_game. intros Hrun.
  destruct (Game.setup_level _ _ _) as [g1| |] eqn:Hsetup; try discriminate.
  cbn [bind] in Hrun. injection Hrun as <-.
  apply setup_level_spec in Hsetup; [|apply max_lives_le].
  exact (proj1 Hsetup).
Qed.

Lemma setup_then_state load_level g play_sound s (o : outcome Game.t) g' :
  o = Game.setup_level load_level g play_sound ->
  bind o (fun g1 => Done (Game.set_state g1 s)) = Done g' ->
  Game.lives g <= MAX_LIVES -> game_invariant g'.
Proof.
  intros -> Hrun Hlives.
  destruct (Game.setup_level _ _ _) as [g1| |] eqn:Hsetup; try discriminate.
  cbn [bind] in Hrun. injection Hrun as <-.
  apply setup_level_spec in Hsetup; [|exact Hlives].
  exact (proj1 Hsetup).
Qed.

Lemma life_loss_check_cases g :
  Game.life_loss_check g = g \/
  (Game.lives g - 1 <= 0 /\
   Game.life_loss_check g
   = Game.set_state (Game.set_lives g (Game.lives g - 1)) GameOver) \/
  (0 < Game.lives g - 1 /\
   Game.life_loss_check g
   = Game.set_player (Game.set_lives g (Game.lives g - 1))
       (Player.reset_to_start (Game.player g))).
Proof.
  unfold Game.life_loss_check, Game.finish_player_death.
  destruct (negb (Player.alive (Game.player g))
            && Qle_bool (Player.death_timer (Game.player g)) 0); [|now left].
  right. cbn [Game.lives Game.set_lives].
  destruct (Z.leb_spec (Game.lives g - 1) 0); [left|right]; split;
    (reflexivity || lia).
Qed.

Lemma exit_check_fields g g' :
  Game.exit_check g = Done g' ->
  Game.lives g' = Game.lives g /\ Game.player g' = Game.player g /\
  Game.tilemap g' = Game.tilemap g /\
  Game.current_level_index g' = Game.current_level_index g /\
  Game.sfx_played g' =
    Game.sfx_played g
    ++ sound_if (Exit.check_hit (Game.exit_portal g)
                                (Player.rect (Game.player g))) SfxWin /\
  Game.state g' =
    if Exit.check_hit (Game.exit_portal g) (Player.rect (Game.player g))
    then LevelComplete else Game.state g.
Proof.
  unfold Game.exit_check, Game.update_level_stars_record.
  destruct (Exit.check_hit _ _); cbn [sound_if].
  - cbn [Game.current_level_index Game.play].
    destruct (py_index LEVELS (Game.current_level_index g)); try discriminate.
    cbn [bind].
    destruct (_ >? _); cbn [bind]; intros Hrun; injection Hrun as <-;
      repeat split.
  - intros Hrun. injection Hrun as <-. rewrite app_nil_r. repeat split.
Qed.

Lemma exit_check_total g :
  - Z.of_nat (List.length LEVELS) <= Game.current_level_index g
    < Z.of_nat (List.length LEVELS) ->
  exists g', Game.exit_check g = Done g'.
Proof.
  intros Hidx. unfold Game.exit_check, Game.update_level_stars_record.
  destruct (Exit.check_hit _ _); [|eauto].
  cbn [Game.current_level_index Game.play].
  destruct (py_index_levels_total _ Hidx) as [name ->]. cbn [bind].
  destruct (_ >? _); cbn [bind]; eauto.
Qed.

Lemma player_phase_spec g inp g1 :
  Game.player_phase g inp = Done g1 ->
  exists p s,
    g1 = Game.play (Game.set_player g p) s /\
    (player_invariant (Game.player g) -> player_invariant p).
Proof.
  unfold Game.player_phase. intros Hrun.
  destruct (Player.handle_input _ _ _) as [[p1 s1]| |] eqn:Hinput;
    try discriminate.
  cbn [bind fst snd] in Hrun.
  destruct (Player.update p1 (dt inp)) as [[p2 s2]| |] eqn:Hupdate;
    try discriminate.
  cbn [bind fst snd] in Hrun. injection Hrun as <-.
  exists p2, (s1 ++ s2). split; [reflexivity|].
  intros Hinv. eapply update_invariant; [exact Hupdate|].
  eapply handle_input_invariant; eauto.
Qed.

Lemma player_phase_total g inp :
  TileMap.rectangular (Game.tilemap g) -> (0 <= dt inp)%Q ->
  exists g1, Game.player_phase g inp = Done g1.
Proof.
  intros Hrect Hdt. unfold Game.player_phase.
  destruct (handle_input_total (Game.tilemap g) (Game.player g) (keys inp) Hrect)
    as [[p1 s1] ->].
  cbn [bind fst snd].
  destruct (update_total p1 (dt inp) Hdt) as [[p2 s2] ->].
  cbn [bind fst snd]. eauto.
Qed.

(** The frame, cut at the life-loss check. *)
Lemma update_playing_eq g inp :
  Game.update_playing g inp =
  (g1 <- Game.player_phase g inp ;;
   g8 <- Game.exit_check
           (checks_and_life_loss (Game.update_traps g1 (dt inp))) ;;
   Done (Game.pause_check g8 inp))%outcome.
Proof. reflexivity. Qed.

Lemma checks_and_life_loss_invariant g :
  game_invariant g -> game_invariant (checks_and_life_loss g).
Proof.
  intros (Hrect & Hidx & Hlives & Hplayer). unfold checks_and_life_loss.
  destruct (collision_checks_fields g) as (Hl & _ & Htm & Hci & _ & _).
  assert (Hp : player_invariant (Game.player (collision_checks g))).
  { rewrite collision_checks_player. cbn zeta.
    destruct (trap_hit_now g);
      [apply player_invariant_kill|]; apply player_invariant_set_score;
      exact Hplayer. }
  assert (Hg : game_invariant g) by (unfold game_invariant; tauto).
  destruct (life_loss_check_cases (collision_checks g))
    as [-> | [[Hle ->] | [Hlt ->]]];
    apply (game_invariant_fields g); try assumption;
    cbn [Game.lives Game.player Game.set_state Game.set_lives Game.set_player];
    try lia; apply player_invariant_reset.
Qed.

Lemma update_playing_invariant g inp g' :
  Game.update_playing g inp = Done g' ->
  game_invariant g -> game_invariant g'.
Proof.
  rewrite update_playing_eq. intros Hrun Hinv.
  destruct (Game.player_phase g inp) as [g1| |] eqn:Hphase; try discriminate.
  cbn [bind] in Hrun.
  destruct (Game.exit_check _) as [g8| |] eqn:Hexit; try discriminate.
  cbn [bind] in Hrun. injection Hrun as <-.
  destruct (player_phase_spec _ _ _ Hphase) as (p & s & -> & Hp).
  assert (Hinv2 : game_invariant
            (Game.update_traps (Game.play (Game.set_player g p) s) (dt inp))).
  { apply (game_invariant_fields g); try reflexivity; try apply Hinv.
    apply Hp, Hinv. }
  apply checks_and_life_loss_invariant in Hinv2.
  destruct (exit_check_fields _ _ Hexit) as (Hl & Hpl & Htm & Hci & _ & _).
  eapply game_invariant_fields; [| | | |exact Hinv2];
    unfold Game.pause_check; destruct (pause_requested inp);
    cbn [Game.tilemap Game.current_level_index Game.lives Game.player
         Game.set_state];
    rewrite ?Hl, ?Hpl; try assumption; apply Hinv2.
Qed.

Lemma update_playing_total g inp :
  game_invariant g -> (0 <= dt inp)%Q ->
  exists g', Game.update_playing g inp = Done g'.
Proof.
  intros Hinv Hdt. rewrite update_playing_eq.
  destruct (player_phase_total g inp (proj1 Hinv) Hdt) as [g1 Hphase].
  rewrite Hphase. cbn [bind].
  destruct (player_phase_spec _ _ _ Hphase) as (p & s & -> & Hp).
  assert (Hinv2 : game_invariant
            (Game.update_traps (Game.play (Game.set_player g p) s) (dt inp))).
  { apply (game_invariant_fields g); try reflexivity; try apply Hinv.
    apply Hp, Hinv. }
  apply checks_and_life_loss_invariant in Hinv2.
  destruct (exit_check_total _ (proj1 (proj2 Hinv2))) as [g8 ->].
  cbn [bind]. eauto.
Qed.

Lemma step_invariant load_level g g' :
  Game.step load_level g g' -> game_invariant g -> game_invariant g'.
Proof.
  intros Hstep Hinv.
  assert (Hlives : Game.lives g <= MAX_LIVES) by apply Hinv.
  destruct Hstep as [g inp g' _ _ Hrun | g choice g' Hrun | g i g' Hrun
                    | g i g' Hrun | g i g' Hrun | g g' Hrun | g g' Hrun
                    | g | g price].
  - eapply update_playing_invariant; eauto.
  - destruct choice; cbn [Game.handle_main_menu_selection] in Hrun.
    + eapply setup_then_state; [reflexivity|exact Hrun|].
      destruct (_ >=? _); exact Hlives.
    + injection Hrun as <-. exact Hinv.
    + injection Hrun as <-. exact Hinv.
    + injection Hrun as <-. exact Hinv.
  - unfold Game.handle_level_menu_selection in Hrun.
    destruct (i =? _); [injection Hrun as <-; exact Hinv|].
    eapply setup_then_state; [reflexivity|exact Hrun|exact Hlives].
  - unfold Game.handle_pause_action in Hrun.
    destruct (i =? 0); [injection Hrun as <-; exact Hinv|].
    destruct (i =? 1);
      [eapply setup_then_state; [reflexivity|exact Hrun|exact Hlives]|].
    destruct (i =? 2); [eapply restart_game_invariant; eauto|].
    injection Hrun as <-. exact Hinv.
  - unfold Game.handle_game_over_action in Hrun.
    destruct (i =? 0);
      [eapply setup_then_state; [reflexivity|exact Hrun|apply max_lives_le]|].
    destruct (i =? 1); [eapply restart_game_invariant; eauto|].
    injection Hrun as <-. exact Hinv.
  - unfold Game.goto_next_level in Hrun.
    destruct (_ <? _); [|eapply restart_game_invariant; eauto].
    eapply setup_then_state; [reflexivity|exact Hrun|].
    destruct (_ >? _); exact Hlives.
  - eapply restart_game_invariant; eauto.
  - exact Hinv.
  - unfold Game.shop_buy. destruct (_ >=? _); exact Hinv.
Qed.

(** Every state the game reaches satisfies the invariant. *)
Lemma reachable_invariant load_level save g :
  Game.reachable load_level save g -> game_invariant g.
Proof.
  induction 1 as [g Hinit | g g' _ IH Hstep].
  - unfold Game.init in Hinit.
    apply setup_level_spec in Hinit; [exact (proj1 Hinit)|apply max_lives_le].
  - eapply step_invariant; eauto.
Qed.
(** ** Scenarios are states of the game *)

Lemma start_level_reachable rows g :
  start_level rows = Done g ->
  Game.reachable (fun _ => rows) default_save g.
Proof.
  unfold start_level. intros Hstart.
  destruct (Game.init (fun _ => rows) default_save) as [g0| |] eqn:Hinit;
    try discriminate.
  cbn [bind] in Hstart.
  eapply Game.reachable_step.
  - apply Game.reachable_init. exact Hinit.
  - eapply Game.step_main_menu. exact Hstart.
Qed.

Lemma frame_reachable rows g inp g' :
  Game.reachable (fun _ => rows) default_save g ->
  Game.state g = Playing -> (0 <= dt inp)%Q ->
  Game.update_playing g inp = Done g' ->
  Game.reachable (fun _ => rows) default_save g'.
Proof.
  intros Hreach Hstate Hdt Hrun.
  eapply Game.reachable_step; [exact Hreach|].
  eapply Game.step_playing; eauto.
Qed.

(** ** The player at rest *)

(** C2, as stated, fails: in the trap corridor, one frame of 16 ms with the
    right key held starts the slide, moves the player 17.6 pixels and kills
    it on the trap; [kill] clears [moving] where the player stands, at
    x = 49.6, which is no multiple of [TILE_SIZE]. *)
Lemma kill_mid_slide_rests_off_grid :
  ~ (forall load_level save g,
       Game.reachable load_level save g -> rests_on_grid (Game.player g)).
Proof.
  intros Hclaim.
  assert (Hframe : exists g,
            Game.update_playing (started trap_corridor)
              (hold_right (16 # 1000) false) = Done g /\
            Player.moving (Game.player g) = false /\
            (Player.x (Game.player g) == 496 # 10)%Q).
  { eexists. split; [vm_compute; reflexivity|]. split; reflexivity. }
  destruct Hframe as (g & Hrun & Hmoving & Hx).
  assert (Hreach : Game.reachable (fun _ => trap_corridor) default_save g).
  { apply (frame_reachable trap_corridor (started trap_corridor)
             (hold_right (16 # 1000) false) g).
    - apply start_level_reachable. reflexivity.
    - reflexivity.
    - discriminate.
    - exact Hrun. }
  destruct (Hclaim _ _ _ Hreach Hmoving) as (tx & ty & Htx & _).
  rewrite Hx in Htx. unfold Qeq, TILE_SIZE in Htx. simpl in Htx. lia.
Qed.

(** C2, amended: in every state the game reaches, a living player whose
    [moving] flag is false stands exactly on a grid cell. *)
Theorem living_player_rests_on_grid (load_level : string -> list string)
    (save : SaveData) (g : Game.t) :
  Game.reachable load_level save g ->
  Player.alive (Game.player g) = true ->
  Player.moving (Game.player g) = false ->
  Player.on_grid (Game.player g).
Proof.
  intros Hreach Halive Hmoving.
  apply (reachable_invariant _ _ _ Hreach); assumption.
Qed.

Lemma living_player_rests_on_grid_witness :
  Player.on_grid (Game.player (started trap_corridor)).
Proof.
  apply (living_player_rests_on_grid (fun _ => trap_corridor) default_save
           (started trap_corridor)).
  - apply start_level_reachable. reflexivity.
  - reflexivity.
  - reflexivity.
Defined.

(** ** A trap hit and the lives *)

Lemma trap_hit_kills g :
  Player.alive (Game.player g) = true ->
  existsb (fun tr => Trap.check_hit tr (Player.rect (Game.player g)))
          (Game.traps g) = true ->
  Game.player (collision_checks g)
  = Player.kill (Player.set_score (Game.player g)
                   (Player.score (Game.player g) + Z.of_nat (coins_now g))) 0.
Proof.
  intros Halive Hhit. rewrite collision_checks_player.
  unfold trap_hit_now. now rewrite Halive, Hhit.
Qed.

(** C5: when the living player's box meets a trap in state "playing", the
    frame kills it and runs the life-loss handling at once.  With one life
    the state becomes "game_over" and the player is not respawned: it
    stays dead where it was hit.  With two lives one is taken, the player
    is reset to its spawn tile, alive, and the state stays "playing". *)
Theorem trap_hit_life_loss (g : Game.t) :
  Game.state g = Playing ->
  Player.alive (Game.player g) = true ->
  existsb (fun tr => Trap.check_hit tr (Player.rect (Game.player g)))
          (Game.traps g) = true ->
  (Game.lives g = 1 ->
     Game.state (checks_and_life_loss g) = GameOver /\
     Game.lives (checks_and_life_loss g) = 0 /\
     Player.alive (Game.player (checks_and_life_loss g)) = false /\
     Player.x (Game.player (checks_and_life_loss g)) = Player.x (Game.player g) /\
     Player.y (Game.player (checks_and_life_loss g)) = Player.y (Game.player g))
  /\
  (Game.lives g = 2 ->
     Game.state (checks_and_life_loss g) = Playing /\
     Game.lives (checks_and_life_loss g) = 1 /\
     Player.alive (Game.player (checks_and_life_loss g)) = true /\
     Player.moving (Game.player (checks_and_life_loss g)) = false /\
     Player.x (Game.player (checks_and_life_loss g))
       = inject_Z (Player.spawn_tile_x (Game.player g) * TILE_SIZE) /\
     Player.y (Game.player (checks_and_life_loss g))
       = inject_Z (Player.spawn_tile_y (Game.player g) * TILE_SIZE)).
Proof.
  intros Hstate Halive Hhit.
  pose proof (trap_hit_kills g Halive Hhit) as Hplayer.
  destruct (collision_checks_fields g) as (Hlives & Hst & _).
  unfold checks_and_life_loss, Game.life_loss_check, Game.finish_player_death.
  rewrite Hplayer. cbn [Player.alive Player.death_timer Player.kill
    Player.set_moving Player.set_death_timer Player.set_alive negb andb].
  change (Qle_bool 0 0) with true. cbn iota.
  cbn [Game.lives Game.set_lives]. rewrite Hlives.
  split; intros Hl; rewrite Hl; cbn [Z.sub Z.add Z.leb Z.compare Z.pos_sub
    Z.succ_double Z.pred_double Z.double Z.opp Pos.pred_double];
    cbn [Game.state Game.lives Game.player Game.set_state Game.set_player
         Game.set_lives];
    rewrite ?Hplayer, ?Hst, ?Hlives, ?Hl; repeat split; assumption.
Qed.

Lemma trap_hit_life_loss_witness :
  Game.state (checks_and_life_loss (collision_ready trap_corridor)) = GameOver /\
  Game.lives (checks_and_life_loss (two_lives (collision_ready trap_corridor))) = 1.
Proof.
  split.
  - apply (trap_hit_life_loss (collision_ready trap_corridor));
      reflexivity.
  - apply (trap_hit_life_loss (two_lives (collision_ready trap_corridor)));
      reflexivity.
Defined.
(** ** A trap and a star on one tile *)

(** With no life to spare, a player that is dead or touches a trap when the
    collision checks start is dead when the life-loss check is done. *)
Lemma dead_after_life_loss g :
  Game.lives g <= 1 ->
  Player.alive (Game.player g) = false \/
  existsb (fun tr => Trap.check_hit tr (Player.rect (Game.player g)))
          (Game.traps g) = true ->
  Player.alive (Game.player (checks_and_life_loss g)) = false.
Proof.
  intros Hlives Hdoomed.
  assert (Hdead : Player.alive (Game.player (collision_checks g)) = false).
  { rewrite collision_checks_player. cbn zeta. unfold trap_hit_now.
    destruct (Player.alive (Game.player g)) eqn:Halive.
    - destruct Hdoomed as [Hd|Hhit]; [discriminate|].
      rewrite Hhit. reflexivity.
    - cbn [andb]. exact Halive. }
  destruct (collision_checks_fields g) as (Hl & _).
  unfold checks_and_life_loss.
  destruct (life_loss_check_cases (collision_checks g))
    as [-> | [[_ ->] | [Hlt _]]]; [exact Hdead|exact Hdead|lia].
Qed.

(** C8: in a frame of state "playing", if a trap and a star occupy the same
    tile and the player's box, after its move of the frame, overlaps both
    hitboxes, then the frame's update ends with [alive] false.  The game
    record satisfies the invariant of the reachable states; its part
    [lives <= MAX_LIVES = 1] is what leaves no life to respawn with. *)
Theorem trap_under_star_kills (g : Game.t) (inp : FrameInput) (g1 : Game.t)
    (tr : Trap.t) (st : Star.t) :
  game_invariant g -> Game.state g = Playing -> (0 <= dt inp)%Q ->
  Game.player_phase g inp = Done g1 ->
  In tr (Game.traps g) -> In st (Game.stars g) ->
  Trap.tile_x tr = Star.tile_x st -> Trap.tile_y tr = Star.tile_y st ->
  Trap.check_hit tr (Player.rect (Game.player g1)) = true ->
  Rect.colliderect (Star.rect st) (Player.rect (Game.player g1)) = true ->
  exists g',
    Game.update_playing g inp = Done g' /\
    Player.alive (Game.player g') = false.
Proof.
  intros Hinv _ Hdt Hphase Htr _ _ _ Hhit _.
  destruct (update_playing_total g inp Hinv Hdt) as [g' Hrun].
  exists g'. split; [exact Hrun|].
  rewrite update_playing_eq, Hphase in Hrun. cbn [bind] in Hrun.
  destruct (Game.exit_check _) as [g8| |] eqn:Hexit; try discriminate.
  cbn [bind] in Hrun. injection Hrun as <-.
  destruct (exit_check_fields _ _ Hexit) as (_ & Hplayer & _).
  assert (Hp8 : Game.player (Game.pause_check g8 inp) = Game.player g8).
  { unfold Game.pause_check. destruct (pause_requested inp); reflexivity. }
  rewrite Hp8, Hplayer.
  destruct (player_phase_spec _ _ _ Hphase) as (p & s & -> & _).
  apply dead_after_life_loss.
  - cbn [Game.lives Game.update_traps Game.set_traps Game.play Game.set_player].
    destruct Hinv as (_ & _ & Hlives & _). unfold MAX_LIVES in Hlives.
    exact Hlives.
  - right. apply existsb_exists. exists tr. split; [|exact Hhit].
    cbn [Game.traps Game.update_traps Game.set_traps Game.play Game.set_player].
    apply in_map_iff. exists tr. split; [reflexivity|exact Htr].
Qed.

Lemma trap_under_star_kills_witness :
  exists g',
    Game.update_playing trap_under_star (hold_right (16 # 1000) false) = Done g' /\
    Player.alive (Game.player g') = false.
Proof.
  apply (trap_under_star_kills trap_under_star (hold_right (16 # 1000) false)
           (trap_under_star_moved) (Trap.spike_init 2 1) (Star.init 2 1)).
  - split; [split; [reflexivity|vm_compute; repeat constructor]|].
    split; [vm_compute; split; [discriminate|reflexivity]|].
    split; [vm_compute; discriminate|].
    split; [exists 1, 1; split; reflexivity|].
    intros _ _. exists 1, 1. split; reflexivity.
  - reflexivity.
  - discriminate.
  - vm_compute. reflexivity.
  - left. reflexivity.
  - left. reflexivity.
  - reflexivity.
  - reflexivity.
  - vm_compute. reflexivity.
  - vm_compute. reflexivity.
Defined.

(** ** One death, one life *)

(** C10 fails on the code when the pause is asked for in the frame of the
    death.  In the trap corridor the frame with the right key held kills
    the player on the trap and takes its only life; the state "game_over"
    that [finish_player_death] sets is overwritten by "pause" at the end of
    the same frame.  Resuming goes back to "playing" with the player still
    dead on the trap: [handle_traps] returns at once, as the claim says,
    but the life-loss check runs again and takes a second life for the
    same death. *)
Theorem pause_in_death_frame_takes_two_lives :
  exists g1 g2 g3,
    Game.update_playing (started trap_corridor) (hold_right (16 # 1000) true)
      = Done g1 /\
    Game.handle_pause_action (fun _ => trap_corridor) g1 0 = Done g2 /\
    Game.update_playing g2 (idle (16 # 1000)) = Done g3 /\
    Game.lives (started trap_corridor) = 1 /\
    Game.lives g1 = 0 /\ Game.state g1 = Pause /\
    Player.alive (Game.player g2) = false /\ Game.state g2 = Playing /\
    Game.handle_traps g2 = g2 /\
    Game.lives g3 = -1 /\ Game.state g3 = GameOver /\
    deaths_played g3 = 1.
Proof.
  eexists. eexists. eexists.
  split; [vm_compute; reflexivity|].
  split; [vm_compute; reflexivity|].
  split; [vm_compute; reflexivity|].
  repeat split.
Qed.
(** ** The order of the checks of a frame *)

Lemma life_loss_check_sounds g :
  Game.sfx_played (Game.life_loss_check g) = Game.sfx_played g.
Proof.
  destruct (life_loss_check_cases g) as [-> | [[_ ->] | [_ ->]]]; reflexivity.
Qed.

Lemma pause_check_fields g inp :
  Game.sfx_played (Game.pause_check g inp) = Game.sfx_played g /\
  Game.player (Game.pause_check g inp) = Game.player g /\
  Game.lives (Game.pause_check g inp) = Game.lives g /\
  Game.state (Game.pause_check g inp)
  = if pause_requested inp then Pause else Game.state g.
Proof.
  unfold Game.pause_check. destruct (pause_requested inp); repeat split.
Qed.

(** C3, as stated, fails: the code runs the life-loss check before the
    exit check.  In the level with the exit right of the trap, a frame of
    39 ms with the right key held carries the player onto both hitboxes:
    the code ends the frame in "level_complete" (the exit check overwrites
    the "game_over" of the life-loss check), the specified order ends it in
    "game_over". *)
Lemma life_loss_check_precedes_exit_check :
  ~ (forall load_level save g inp,
       Game.reachable load_level save g -> Game.state g = Playing ->
       Game.update_playing g inp = Game.update_playing_as_specified g inp).
Proof.
  intros Hclaim.
  specialize (Hclaim (fun _ => trap_before_exit) default_save
                (started trap_before_exit) (hold_right (39 # 1000) false)).
  assert (Hcode : exists g,
            Game.update_playing (started trap_before_exit)
              (hold_right (39 # 1000) false) = Done g /\
            Game.state g = LevelComplete).
  { eexists. split; [vm_compute; reflexivity|reflexivity]. }
  assert (Hspec : exists g,
            Game.update_playing_as_specified (started trap_before_exit)
              (hold_right (39 # 1000) false) = Done g /\
            Game.state g = GameOver).
  { eexists. split; [vm_compute; reflexivity|reflexivity]. }
  destruct Hcode as (g & Hg & Hstate). destruct Hspec as (g' & Hg' & Hstate').
  rewrite Hclaim in Hg.
  - rewrite Hg' in Hg. injection Hg as ->. congruence.
  - apply start_level_reachable. reflexivity.
  - reflexivity.
Qed.

(** C3, amended: in every frame of state "playing" the checks run in the
    order collectibles, traps, stars, dots, then the life-loss check, then
    the exit check.  The sounds of the frame after the player's move come
    in that order: coins, death, star, dots, win; the exit check reads the
    player as the life-loss check left it, and its "level_complete"
    overwrites the state the life-loss check set; only a pause asked for in
    the frame comes after it. *)
Theorem update_playing_check_order (g : Game.t) (inp : FrameInput)
    (g' : Game.t) :
  Game.update_playing g inp = Done g' ->
  exists g1,
    Game.player_phase g inp = Done g1 /\
    let g2 := Game.update_traps g1 (dt inp) in
    let g7 := checks_and_life_loss g2 in
    let win := Exit.check_hit (Game.exit_portal g7)
                              (Player.rect (Game.player g7)) in
    Game.sfx_played g' =
      Game.sfx_played g1
      ++ repeat SfxCoin (coins_now g2)
      ++ sound_if (trap_hit_now g2) SfxDeath
      ++ sound_if (star_hit_now g2) SfxStar
      ++ repeat SfxDot (dots_now g2)
      ++ sound_if win SfxWin /\
    Game.player g' = Game.player g7 /\
    Game.lives g' = Game.lives g7 /\
    Game.state g' =
      if pause_requested inp then Pause
      else if win then LevelComplete
      else Game.state g7.
Proof.
  rewrite update_playing_eq. intros Hrun.
  destruct (Game.player_phase g inp) as [g1| |] eqn:Hphase; try discriminate.
  cbn [bind] in Hrun.
  destruct (Game.exit_check _) as [g8| |] eqn:Hexit; try discriminate.
  cbn [bind] in Hrun. injection Hrun as <-.
  exists g1. split; [reflexivity|]. cbn zeta.
  destruct (exit_check_fields _ _ Hexit)
    as (Hlives & Hplayer & _ & _ & Hsfx & Hstate).
  destruct (pause_check_fields g8 inp) as (Hs8 & Hp8 & Hl8 & Hst8).
  rewrite Hs8, Hp8, Hl8, Hst8, Hsfx, Hplayer, Hlives, Hstate.
  split; [|split; [reflexivity|split; reflexivity]].
  unfold checks_and_life_loss at 1.
  rewrite life_loss_check_sounds, collision_checks_sounds.
  cbn [Game.sfx_played Game.update_traps Game.set_traps].
  now rewrite <- !app_assoc.
Qed.

Lemma update_playing_check_order_witness :
  exists g' g1,
    Game.update_playing (started trap_before_exit)
      (hold_right (39 # 1000) false) = Done g' /\
    Game.player_phase (started trap_before_exit)
      (hold_right (39 # 1000) false) = Done g1 /\
    Game.sfx_played g' = Game.sfx_played g1 ++ [SfxDeath; SfxWin] /\
    Game.state g' = LevelComplete.
Proof.
  assert (Hrun : exists g',
            Game.update_playing (started trap_before_exit)
              (hold_right (39 # 1000) false) = Done g').
  { eexists. vm_compute. reflexivity. }
  destruct Hrun as (g' & Hrun).
  destruct (update_playing_check_order _ _ _ Hrun)
    as (g1 & Hphase & Hsfx & _ & _ & Hstate).
  exists g', g1. split; [exact Hrun|]. split; [exact Hphase|].
  assert (Hg1 : exists h,
            Game.player_phase (started trap_before_exit)
              (hold_right (39 # 1000) false) = Done h /\
            coins_now (Game.update_traps h (39 # 1000)) = 0%nat /\
            trap_hit_now (Game.update_traps h (39 # 1000)) = true /\
            star_hit_now (Game.update_traps h (39 # 1000)) = false /\
            dots_now (Game.update_traps h (39 # 1000)) = 0%nat /\
            Exit.check_hit
              (Game.exit_portal
                 (checks_and_life_loss (Game.update_traps h (39 # 1000))))
              (Player.rect
                 (Game.player
                    (checks_and_life_loss (Game.update_traps h (39 # 1000)))))
            = true).
  { eexists. split; [vm_compute; reflexivity|]. repeat split. }
  destruct Hg1 as (h & Hh & Hc & Ht & Hs & Hd & Hw).
  rewrite Hphase in Hh. injection Hh as <-.
  cbn zeta in Hsfx, Hstate.
  change (dt (hold_right (39 # 1000) false)) with (39 # 1000)%Q in Hsfx, Hstate.
  rewrite Hc, Ht, Hs, Hd, Hw in Hsfx. rewrite Hw in Hstate.
  split; [exact Hsfx|exact Hstate].
Defined.

(** ** Pickups: tile equality and hitboxes *)

Lemma Qtrunc_ge (q : Q) (m : Z) : (inject_Z m <= q)%Q -> m <= Qtrunc q.
Proof.
  destruct q as [n d]. unfold Qle, Qtrunc. simpl. intros H.
  pose proof (Z.quot_rem' n (Zpos d)) as Hqr.
  pose proof (Z.rem_bound_abs n (Zpos d) ltac:(lia)) as Hr.
  nia.
Qed.

Lemma Qtrunc_le (q : Q) (m : Z) : (q <= inject_Z m)%Q -> Qtrunc q <= m.
Proof.
  destruct q as [n d]. unfold Qle, Qtrunc. simpl. intros H.
  pose proof (Z.quot_rem' n (Zpos d)) as Hqr.
  pose proof (Z.rem_bound_abs n (Zpos d) ltac:(lia)) as Hr.
  nia.
Qed.

(** The coordinates whose rounded tile is [t]. *)
Lemma tile_pos_bounds (q : Q) (t : Z) :
  Qfloordiv (q + inject_Z (TILE_SIZE / 2)) TILE_SIZE = t ->
  (inject_Z (TILE_SIZE * t - 16) <= q)%Q /\
  (q <= inject_Z (TILE_SIZE * t + 16))%Q.
Proof.
  unfold Qfloordiv. change (TILE_SIZE / 2) with 16. unfold TILE_SIZE.
  intros <-.
  set (r := ((q + inject_Z 16) / inject_Z 32)%Q).
  pose proof (Qfloor_le r) as Hle. pose proof (Qlt_floor r) as Hlt.
  assert (Hq : (q == inject_Z 32 * r - inject_Z 16)%Q).
  { subst r. field. }
  rewrite inject_Z_plus in Hlt.
  unfold Zminus. rewrite !inject_Z_plus, !inject_Z_mult, inject_Z_opp.
  change (inject_Z 32) with (32 # 1)%Q in *.
  change (inject_Z 16) with (16 # 1)%Q in *.
  change (inject_Z 1) with (1 # 1)%Q in *.
  split; lra.
Qed.

Lemma tile_pos_trunc (q : Q) (t : Z) :
  Qfloordiv (q + inject_Z (TILE_SIZE / 2)) TILE_SIZE = t ->
  TILE_SIZE * t - 16 <= Qtrunc q <= TILE_SIZE * t + 16.
Proof.
  intros Ht. destruct (tile_pos_bounds q t Ht) as [Hlo Hhi].
  split; [now apply Qtrunc_ge | now apply Qtrunc_le].
Qed.

(** A dot on the player's rounded tile is inside the player's box. *)
Lemma dot_tile_match_hit p d :
  dot_tile_match p d = true ->
  Rect.colliderect (Dot.rect d) (Player.rect p) = true.
Proof.
  unfold dot_tile_match, Player.get_tile_pos. cbn [fst snd].
  intros Hmatch. apply andb_true_iff in Hmatch. destruct Hmatch as [Hx Hy].
  apply Z.eqb_eq in Hx, Hy. symmetry in Hx, Hy.
  apply tile_pos_trunc in Hx, Hy.
  unfold Rect.colliderect, Dot.rect, Player.rect, Rect.of_floats, Dot.x, Dot.y.
  cbn [Rect.x Rect.y Rect.w Rect.h].
  change Dot.size with 5. change Player.size with 32.
  change ((TILE_SIZE - 5) / 2) with 13. unfold TILE_SIZE in *.
  cbn [Z.eqb orb].
  repeat (apply andb_true_intro; split);
    try apply Z.ltb_lt; try apply Z.gtb_lt; lia.
Qed.

(** C4, as stated, fails for the dots: in the dot corridor, after the move
    of a frame of 42 ms with the right key held, the player is at
    x = 78.2, its rounded tile is (2,1), and its box [78,110) already
    reaches the hitbox [109,114) of the dot of tile (3,1): the dot is
    collected though the tiles differ. *)
Lemma dot_collected_from_the_tile_before :
  ~ (forall load_level save g inp g1,
       Game.reachable load_level save g -> Game.state g = Playing ->
       Game.player_phase g inp = Done g1 ->
       Game.dots (Game.handle_dots g1)
       = dots_left_by_tile_rule (Game.player g1) (Game.dots g1)).
Proof.
  intros Hclaim.
  specialize (Hclaim (fun _ => dot_corridor) default_save
                (started dot_corridor) (hold_right (42 # 1000) false)
                dot_corridor_moved).
  assert (Hcode : Game.dots (Game.handle_dots dot_corridor_moved) = [])
    by reflexivity.
  assert (Hspec : dots_left_by_tile_rule (Game.player dot_corridor_moved)
                    (Game.dots dot_corridor_moved) = [Dot.init 3 1])
    by reflexivity.
  rewrite Hcode, Hspec in Hclaim.
  assert (Hfalse : @nil Dot.t = [Dot.init 3 1]); [|discriminate].
  apply Hclaim.
  - apply start_level_reachable. reflexivity.
  - reflexivity.
  - vm_compute. reflexivity.
Qed.

(** C4, amended: a collectible is collected exactly when it is not yet
    collected and its tile is the player's rounded tile; a dot is collected
    exactly when its hitbox, the 5-pixel square in the middle of its tile,
    overlaps the player's box.  A dot on the player's rounded tile is
    always collected. *)
Theorem pickup_rules (g : Game.t) :
  Game.collectibles (Game.handle_collectibles g)
  = map (fun c =>
           if negb (Collectible.collected c)
              && collectible_tile_match (Game.player g) c
           then Collectible.collect c else c)
        (Game.collectibles g) /\
  Game.dots (Game.handle_dots g)
  = filter (fun d =>
              negb (Rect.colliderect (Dot.rect d) (Player.rect (Game.player g))))
           (Game.dots g) /\
  (forall d, dot_tile_match (Game.player g) d = true ->
             Rect.colliderect (Dot.rect d) (Player.rect (Game.player g)) = true).
Proof.
  split; [|split].
  - rewrite handle_collectibles_eq. cbn [Game.collectibles Game.set_collectibles].
    apply map_ext. intros c.
    unfold collect_at, Game.tile_match, collectible_tile_match.
    now rewrite andb_assoc.
  - rewrite handle_dots_eq. reflexivity.
  - intros d. apply dot_tile_match_hit.
Qed.

(** ** The tile map, once more *)

Lemma max_len_attained rows :
  rows <> [] -> exists row, In row rows /\ String.length row = TileMap.max_len rows.
Proof.
  induction rows as [|r rows IH]; [congruence|]. intros _.
  destruct rows as [|r' rows'].
  - exists r. split; [left; reflexivity|]. simpl. lia.
  - destruct IH as [row [Hin Hlen]]; [congruence|].
    change (TileMap.max_len (r :: r' :: rows'))
      with (Nat.max (String.length r) (TileMap.max_len (r' :: rows'))).
    destruct (Nat.max_spec (String.length r) (TileMap.max_len (r' :: rows')))
      as [[_ ->]|[_ ->]].
    + exists row. split; [right; exact Hin|exact Hlen].
    + exists r. split; [left; reflexivity|reflexivity].
Qed.

(** X1: the grid [TileMap.__init__] builds is rectangular: it has as
    many rows as the level file, every row has the width of the grid, and
    that width is the length of the longest row of the file; the empty
    file gives the grid of width 0 and height 0. *)
Theorem init_shape (rows : list string) :
  TileMap.rectangular (TileMap.init rows) /\
  TileMap.len (TileMap.init rows) = Z.of_nat (List.length rows) /\
  (forall row, In row rows ->
     Z.of_nat (String.length row) <= TileMap.width (TileMap.init rows)) /\
  (rows <> [] ->
   exists row, In row rows /\
     Z.of_nat (String.length row) = TileMap.width (TileMap.init rows)) /\
  (rows = [] -> TileMap.width (TileMap.init rows) = 0).
Proof.
  split; [apply init_rectangular|].
  destruct rows as [|r rows].
  - repeat split; try reflexivity.
    + intros row [].
    + congruence.
  - split; [reflexivity|]. split; [|split].
    + intros row Hin. simpl. apply inj_le. apply (max_len_ge (r :: rows) row Hin).
    + intros Hne. destruct (max_len_attained (r :: rows) Hne) as [row [Hin Hlen]].
      exists row. split; [exact Hin|]. simpl TileMap.width. now rewrite Hlen.
    + congruence.
Qed.

Lemma get_spaces n m :
  String.get n (TileMap.spaces m) = if (n <? m)%nat then Some " "%char else None.
Proof.
  revert n. induction m as [|m IH]; intros n.
  - destruct n; reflexivity.
  - destruct n as [|n]; [reflexivity|]. simpl String.get. rewrite IH.
    reflexivity.
Qed.

Lemma get_append (s1 s2 : string) n :
  String.get n (s1 ++ s2) =
  if (n <? String.length s1)%nat then String.get n s1
  else String.get (n - String.length s1) s2.
Proof.
  revert n. induction s1 as [|c s1 IH]; intros n.
  - simpl. now rewrite Nat.sub_0_r.
  - destruct n as [|n]; [reflexivity|]. simpl. rewrite IH. reflexivity.
Qed.

Lemma get_none_of_ge (s : string) n :
  (String.length s <= n)%nat -> String.get n s = None.
Proof.
  revert n. induction s as [|c s IH]; intros n H.
  - destruct n; reflexivity.
  - destruct n as [|n]; [simpl in H; lia|]. simpl. apply IH. simpl in H. lia.
Qed.

Lemma get_pad_row w row n :
  (n < w)%nat ->
  String.get n (TileMap.pad_row w row) =
  Some (match String.get n row with Some c => c | None => " "%char end).
Proof.
  intros Hn. unfold TileMap.pad_row.
  destruct (Nat.ltb_spec (String.length row) w) as [Hlt|Hge].
  - rewrite get_append.
    destruct (Nat.ltb_spec n (String.length row)) as [Hn'|Hn'].
    + destruct (get_some_of_lt row n Hn') as [c ->]. reflexivity.
    + rewrite (get_none_of_ge row n Hn'), get_spaces.
      destruct (Nat.ltb_spec (n - String.length row) (w - String.length row));
        [reflexivity|lia].
  - destruct (get_some_of_lt row n) as [c ->]; [lia|reflexivity].
Qed.

(** X2: the padding of [TileMap.__init__] changes no tile.  On the grid
    built from [rows], [get_tile] returns, for every pair of coordinates,
    the character the level file has there, and a blank where the file
    has none: past the end of a short row, outside the grid, at negative
    coordinates.  It never raises. *)
Theorem init_get_tile (rows : list string) (x y : Z) :
  TileMap.get_tile (TileMap.init rows) x y = Done (raw_cell rows x y).
Proof.
  unfold TileMap.get_tile, raw_cell.
  destruct rows as [|r rows].
  - simpl TileMap.height. simpl TileMap.width.
    destruct (0 <=? y) eqn:Hy, (0 <=? x) eqn:Hx; simpl;
      try reflexivity.
    + destruct (y <? 0) eqn:E; [lia|]. simpl. now destruct (Z.to_nat y).
    + destruct (y <? 0) eqn:E; [lia|]. reflexivity.
  - set (rs := r :: rows).
    assert (Hh : TileMap.height (TileMap.init rs) = Z.of_nat (List.length rs))
      by reflexivity.
    assert (Hw : TileMap.width (TileMap.init rs) = Z.of_nat (TileMap.max_len rs))
      by reflexivity.
    assert (Hd : TileMap.level_data (TileMap.init rs)
                 = map (TileMap.pad_row (TileMap.max_len rs)) rs) by reflexivity.
    unfold TileMap.index. rewrite Hh, Hw, Hd. clear Hh Hw Hd. clearbody rs.
    rewrite nth_error_map.
    destruct (Z.leb_spec 0 y) as [Hy|Hy]; cbn [andb].
    2:{ now rewrite andb_false_r. }
    destruct (Z.leb_spec 0 x) as [Hx|Hx].
    2:{ rewrite andb_false_r. reflexivity. }
    rewrite andb_true_r.
    destruct (Z.ltb_spec y (Z.of_nat (List.length rs))) as [Hy'|Hy']; cbn [andb].
    + destruct (nth_error rs (Z.to_nat y)) as [row|] eqn:Hrow.
      2:{ apply nth_error_None in Hrow. lia. }
      cbn [option_map].
      destruct (Z.ltb_spec x (Z.of_nat (TileMap.max_len rs))) as [Hx'|Hx'].
      * rewrite get_pad_row by lia. reflexivity.
      * rewrite (get_none_of_ge row (Z.to_nat x)); [reflexivity|].
        assert (String.length row <= TileMap.max_len rs)%nat.
        { apply max_len_ge. eapply nth_error_In; eauto. }
        lia.
    + destruct (nth_error rs (Z.to_nat y)) as [row|] eqn:Hrow; [|reflexivity].
      assert (Z.to_nat y < List.length rs)%nat.
      { apply nth_error_Some. congruence. }
      lia.
Qed.

Lemma in_bounds_guards tm x y :
  0 <= x < TileMap.width tm -> 0 <= y < TileMap.height tm ->
  (x <? 0) || (y <? 0) || (x >=? TileMap.width tm) || (y >=? TileMap.height tm)
    = false /\
  (0 <=? y) && (y <? TileMap.height tm) && (0 <=? x) && (x <? TileMap.width tm)
    = true.
Proof.
  intros Hx Hy.
  destruct (Z.ltb_spec x 0); [lia|]. destruct (Z.ltb_spec y 0); [lia|].
  destruct (Z.geb_spec x (TileMap.width tm)); [lia|].
  destruct (Z.geb_spec y (TileMap.height tm)); [lia|].
  destruct (Z.leb_spec 0 y); [|lia]. destruct (Z.leb_spec 0 x); [|lia].
  destruct (Z.ltb_spec y (TileMap.height tm)); [|lia].
  destruct (Z.ltb_spec x (TileMap.width tm)); [|lia].
  split; reflexivity.
Qed.

Lemma in_or_out tm x y :
  (0 <= x < TileMap.width tm /\ 0 <= y < TileMap.height tm) \/
  TileMap.out_of_bounds tm x y.
Proof. unfold TileMap.out_of_bounds. lia. Qed.

Lemma is_solid_in_bounds tm x y :
  0 <= x < TileMap.width tm -> 0 <= y < TileMap.height tm ->
  TileMap.is_solid tm x y =
  (c <- TileMap.get_tile tm x y ;; Done (Ascii.eqb c "#"%char))%outcome.
Proof.
  intros Hx Hy. unfold TileMap.is_solid.
  destruct (in_bounds_guards tm x y Hx Hy) as [-> _].
  destruct (TileMap.get_tile tm x y); try reflexivity.
  simpl. unfold TileMap.in_tiles. simpl. now rewrite orb_false_r.
Qed.

(** X3: [is_solid] answers True exactly on the walls and outside the grid,
    and False exactly on the cells of the grid that hold another
    character. *)
Theorem is_solid_characterised (tm : TileMap.t) (x y : Z) :
  (TileMap.is_solid tm x y = Done true <-> solid_or_outside tm x y) /\
  (TileMap.is_solid tm x y = Done false <->
   (0 <= x < TileMap.width tm /\ 0 <= y < TileMap.height tm) /\
   exists c, TileMap.get_tile tm x y = Done c /\ c <> "#"%char).
Proof.
  split; split.
  - intros H. destruct (in_or_out tm x y) as [[Hx Hy]|Hout]; [|left; exact Hout].
    right. rewrite (is_solid_in_bounds tm x y Hx Hy) in H.
    destruct (TileMap.get_tile tm x y) as [c| |]; try discriminate.
    simpl in H. injection H as H. apply Ascii.eqb_eq in H. now subst.
  - apply is_solid_solid_or_outside.
  - intros H. destruct (not_solid_in_bounds tm x y H) as [Hx Hy].
    split; [split; assumption|].
    rewrite (is_solid_in_bounds tm x y Hx Hy) in H.
    destruct (TileMap.get_tile tm x y) as [c| |]; try discriminate.
    exists c. split; [reflexivity|]. simpl in H. injection H as H.
    apply Ascii.eqb_neq. exact H.
  - intros [[Hx Hy] [c [Hc Hne]]].
    rewrite (is_solid_in_bounds tm x y Hx Hy), Hc. simpl.
    apply Ascii.eqb_neq in Hne. now rewrite Hne.
Qed.

(** X4: the two defaults outside the grid differ: a cell outside is solid
    but does not connect; inside the grid every solid cell connects, and
    the connecting cells are the walls and the traps. *)
Theorem is_connectable_characterised (tm : TileMap.t) (x y : Z) :
  (TileMap.is_connectable tm x y = Done true <->
   TileMap.get_tile tm x y = Done "#"%char \/
   TileMap.get_tile tm x y = Done "T"%char) /\
  (TileMap.out_of_bounds tm x y ->
   TileMap.is_connectable tm x y = Done false /\
   TileMap.is_solid tm x y = Done true) /\
  (0 <= x < TileMap.width tm /\ 0 <= y < TileMap.height tm ->
   TileMap.is_solid tm x y = Done true ->
   TileMap.is_connectable tm x y = Done true).
Proof.
  assert (Hiff : TileMap.is_connectable tm x y = Done true <->
                 TileMap.get_tile tm x y = Done "#"%char \/
                 TileMap.get_tile tm x y = Done "T"%char).
  { unfold TileMap.is_connectable.
    destruct (TileMap.get_tile tm x y) as [c| |]; simpl.
    - unfold TileMap.in_tiles. simpl. rewrite orb_false_r. split.
      + intros H. injection H as H. apply orb_true_iff in H.
        destruct H as [H|H]; apply Ascii.eqb_eq in H; subst; auto.
      + intros [H|H]; injection H as ->; reflexivity.
    - split; [discriminate|intros [H|H]; discriminate].
    - split; [discriminate|intros [H|H]; discriminate]. }
  split; [exact Hiff|]. split.
  - intros Hout. split; [|apply is_solid_out_of_bounds; exact Hout].
    unfold TileMap.is_connectable.
    rewrite (get_tile_out_of_bounds tm x y Hout). reflexivity.
  - intros [Hx Hy] H. apply Hiff. left.
    rewrite (is_solid_in_bounds tm x y Hx Hy) in H.
    destruct (TileMap.get_tile tm x y) as [c| |]; try discriminate.
    simpl in H. injection H as H. apply Ascii.eqb_eq in H. now subst.
Qed.

(** X5: [tilemap[i]] is row [i] of the grid for the indices of the grid;
    for any other index, the negative ones too, it raises. *)
Theorem getitem_rows (tm : TileMap.t) (i : Z) :
  TileMap.rectangular tm ->
  (0 <= i < TileMap.len tm ->
   exists row,
     TileMap.getitem tm i = Done row /\
     nth_error (TileMap.level_data tm) (Z.to_nat i) = Some row /\
     Z.of_nat (String.length row) = TileMap.width tm /\
     forall x, 0 <= x < TileMap.width tm ->
       exists c, String.get (Z.to_nat x) row = Some c /\
                 TileMap.get_tile tm x i = Done c) /\
  (~ 0 <= i < TileMap.len tm -> TileMap.getitem tm i = Raised).
Proof.
  intros [Hh Hrows]. unfold TileMap.len, TileMap.getitem. split.
  - intros Hi.
    destruct (Z.leb_spec 0 i); [|lia].
    destruct (Z.ltb_spec i (TileMap.height tm)); [|lia]. cbn [andb].
    destruct (nth_error (TileMap.level_data tm) (Z.to_nat i)) as [row|] eqn:Hrow.
    2:{ apply nth_error_None in Hrow. lia. }
    exists row. split; [reflexivity|]. split; [reflexivity|].
    assert (Hlen : Z.of_nat (String.length row) = TileMap.width tm).
    { rewrite Forall_forall in Hrows. apply Hrows.
      eapply nth_error_In; eauto. }
    split; [exact Hlen|].
    intros x Hx. destruct (get_some_of_lt row (Z.to_nat x)) as [c Hc]; [lia|].
    exists c. split; [exact Hc|].
    unfold TileMap.get_tile.
    destruct (in_bounds_guards tm x i Hx Hi) as [_ ->].
    unfold TileMap.index. now rewrite Hrow, Hc.
  - intros Hi.
    destruct (Z.leb_spec 0 i); [|reflexivity].
    destruct (Z.ltb_spec i (TileMap.height tm)); [lia|reflexivity].
Qed.

Lemma getitem_rows_witness :
  exists row,
    TileMap.getitem (TileMap.init example_level) 1 = Done row /\
    Z.of_nat (String.length row) = TileMap.width (TileMap.init example_level).
Proof.
  destruct (getitem_rows (TileMap.init example_level) 1
              (init_rectangular example_level)) as [H _].
  destruct H as [row [H1 [_ [H2 _]]]]; [vm_compute; split; [discriminate|reflexivity]|].
  exists row. split; assumption.
Defined.

(** ** The spawn cell *)

Lemma find_in_row_spec row : forall x0,
  match TileMap.find_in_row row x0 with
  | Some x =>
      x0 <= x /\ String.get (Z.to_nat (x - x0)) row = Some "P"%char /\
      forall k, (k < Z.to_nat (x - x0))%nat -> String.get k row <> Some "P"%char
  | None => forall k, String.get k row <> Some "P"%char
  end.
Proof.
  induction row as [|ch rest IH]; intros x0.
  - simpl. intros k. destruct k; discriminate.
  - simpl TileMap.find_in_row. destruct (Ascii.eqb_spec ch "P"%char) as [->|Hne].
    + split; [lia|]. rewrite Z.sub_diag. split; [reflexivity|]. simpl. lia.
    + specialize (IH (x0 + 1)).
      destruct (TileMap.find_in_row rest (x0 + 1)) as [x|].
      * destruct IH as [Hle [Hget Hmin]]. split; [lia|].
        replace (Z.to_nat (x - x0)) with (S (Z.to_nat (x - (x0 + 1)))) by lia.
        split; [exact Hget|].
        intros [|k] Hk; [simpl; congruence|]. simpl. apply Hmin. lia.
      * intros [|k]; [simpl; congruence|]. simpl. apply IH.
Qed.

Lemma find_in_rows_spec rows : forall y0,
  match TileMap.find_in_rows rows y0 with
  | Some (x, y) =>
      0 <= x /\ y0 <= y /\
      (exists row, nth_error rows (Z.to_nat (y - y0)) = Some row /\
                   String.get (Z.to_nat x) row = Some "P"%char /\
                   forall k, (k < Z.to_nat x)%nat ->
                             String.get k row <> Some "P"%char) /\
      (forall j row, (j < Z.to_nat (y - y0))%nat -> nth_error rows j = Some row ->
                     forall k, String.get k row <> Some "P"%char)
  | None =>
      forall j row, nth_error rows j = Some row ->
                    forall k, String.get k row <> Some "P"%char
  end.
Proof.
  induction rows as [|row rest IH]; intros y0.
  - simpl. intros [|j] row; discriminate.
  - simpl TileMap.find_in_rows. pose proof (find_in_row_spec row 0) as Hrow.
    destruct (TileMap.find_in_row row 0) as [x|].
    + destruct Hrow as [Hx [Hget Hmin]]. rewrite Z.sub_0_r in Hget, Hmin.
      split; [exact Hx|]. split; [lia|]. rewrite Z.sub_diag. split.
      * exists row. repeat split; assumption.
      * simpl. intros; lia.
    + specialize (IH (y0 + 1)).
      destruct (TileMap.find_in_rows rest (y0 + 1)) as [[x y]|].
      * destruct IH as [Hx [Hy [[r [Hnth [Hget Hmin]]] Hbefore]]].
        split; [exact Hx|]. split; [lia|].
        replace (Z.to_nat (y - y0)) with (S (Z.to_nat (y - (y0 + 1)))) by lia.
        split.
        -- exists r. repeat split; assumption.
        -- intros [|j] r' Hj Hr'.
           ++ simpl in Hr'. injection Hr' as <-. exact Hrow.
           ++ simpl in Hr'. eapply Hbefore; [|exact Hr']. lia.
      * intros [|j] r' Hr'.
        -- simpl in Hr'. injection Hr' as <-. exact Hrow.
        -- simpl in Hr'. eapply IH. exact Hr'.
Qed.

Lemma find_player_spawn_spec (tm : TileMap.t) :
  (0 <= fst (TileMap.find_player_spawn tm) /\
   0 <= snd (TileMap.find_player_spawn tm) /\
   TileMap.index tm (fst (TileMap.find_player_spawn tm))
                    (snd (TileMap.find_player_spawn tm)) = Some "P"%char /\
   forall x y, 0 <= x -> 0 <= y -> TileMap.index tm x y = Some "P"%char ->
     snd (TileMap.find_player_spawn tm) < y \/
     (snd (TileMap.find_player_spawn tm) = y /\
      fst (TileMap.find_player_spawn tm) <= x))
  \/
  ((forall x y, TileMap.index tm x y <> Some "P"%char) /\
   TileMap.find_player_spawn tm = (1, 1)).
Proof.
  unfold TileMap.find_player_spawn.
  pose proof (find_in_rows_spec (TileMap.level_data tm) 0) as H.
  destruct (TileMap.find_in_rows (TileMap.level_data tm) 0) as [[sx sy]|].
  - left. destruct H as [Hx [Hy [[row [Hnth [Hget Hmin]]] Hbefore]]].
    rewrite Z.sub_0_r in Hnth, Hbefore. simpl fst. simpl snd.
    split; [exact Hx|]. split; [exact Hy|]. split.
    + unfold TileMap.index. now rewrite Hnth.
    + intros x y Hx0 Hy0 Hidx. unfold TileMap.index in Hidx.
      destruct (nth_error (TileMap.level_data tm) (Z.to_nat y)) as [r|] eqn:Hr;
        [|discriminate].
      destruct (Z.lt_trichotomy sy y) as [Hlt|[Heq|Hgt]]; [left; exact Hlt| |].
      * right. split; [exact Heq|]. subst y.
        rewrite Hnth in Hr. injection Hr as <-.
        destruct (Z.le_gt_cases sx x) as [Hle|Hgt]; [exact Hle|].
        exfalso. apply (Hmin (Z.to_nat x)); [lia|exact Hidx].
      * exfalso. apply (Hbefore (Z.to_nat y) r ltac:(lia) Hr _ Hidx).
  - right. split; [|reflexivity]. intros x y Hidx. unfold TileMap.index in Hidx.
    destruct (nth_error (TileMap.level_data tm) (Z.to_nat y)) as [r|] eqn:Hr;
      [|discriminate].
    exact (H _ _ Hr _ Hidx).
Qed.


(** X6: [find_player_spawn] returns the first cell that holds "P", in the
    order of the rows and then of the columns; when no cell holds "P" it
    returns (1, 1). *)
Theorem find_player_spawn_first (tm : TileMap.t) :
  (0 <= fst (TileMap.find_player_spawn tm) /\
   0 <= snd (TileMap.find_player_spawn tm) /\
   TileMap.index tm (fst (TileMap.find_player_spawn tm))
                    (snd (TileMap.find_player_spawn tm)) = Some "P"%char /\
   forall x y, 0 <= x -> 0 <= y -> TileMap.index tm x y = Some "P"%char ->
     snd (TileMap.find_player_spawn tm) < y \/
     (snd (TileMap.find_player_spawn tm) = y /\
      fst (TileMap.find_player_spawn tm) <= x))
  \/
  ((forall x y, TileMap.index tm x y <> Some "P"%char) /\
   TileMap.find_player_spawn tm = (1, 1)).
Proof. exact (find_player_spawn_spec tm). Qed.

(** ** Positions on the grid *)

Lemma Qfloor_unique (q : Q) (t : Z) :
  (inject_Z t <= q)%Q -> (q < inject_Z (t + 1))%Q -> Qfloor q = t.
Proof.
  intros Hle Hlt.
  pose proof (Qfloor_le q) as H1. pose proof (Qlt_floor q) as H2.
  assert (Qfloor q < t + 1).
  { rewrite Zlt_Qlt. eapply Qle_lt_trans; eauto. }
  assert (t < Qfloor q + 1).
  { rewrite Zlt_Qlt. eapply Qle_lt_trans; eauto. }
  lia.
Qed.

Lemma Qtrunc_grid (q : Q) (n : Z) : (q == inject_Z n)%Q -> Qtrunc q = n.
Proof.
  intros H.
  assert (n <= Qtrunc q) by (apply Qtrunc_ge; rewrite H; apply Qle_refl).
  assert (Qtrunc q <= n) by (apply Qtrunc_le; rewrite H; apply Qle_refl).
  lia.
Qed.

Lemma Qfloordiv_grid (q : Q) (t : Z) :
  (q == inject_Z (t * TILE_SIZE))%Q ->
  Qfloordiv q TILE_SIZE = t /\
  Qfloordiv (q + inject_Z (TILE_SIZE / 2)) TILE_SIZE = t.
Proof.
  intros H. unfold Qfloordiv.
  rewrite inject_Z_mult in H.
  change (inject_Z TILE_SIZE) with (32 # 1)%Q in *.
  change (inject_Z (TILE_SIZE / 2)) with (16 # 1)%Q.
  split; apply Qfloor_unique; try rewrite inject_Z_plus;
    change (inject_Z 1) with 1%Q; unfold Qdiv;
    change (/ (32 # 1))%Q with (1 # 32)%Q; lra.
Qed.

Lemma resting_player_cells (p : Player.t) (tx ty : Z) :
  (Player.x p == inject_Z (tx * TILE_SIZE))%Q ->
  (Player.y p == inject_Z (ty * TILE_SIZE))%Q ->
  Player.get_tile_pos p = (tx, ty) /\
  Player.start_tile p = (tx, ty) /\
  Player.rect p = Rect.mk (tx * TILE_SIZE) (ty * TILE_SIZE) TILE_SIZE TILE_SIZE.
Proof.
  intros Hx Hy.
  destruct (Qfloordiv_grid _ _ Hx) as [Hx1 Hx2].
  destruct (Qfloordiv_grid _ _ Hy) as [Hy1 Hy2].
  unfold Player.get_tile_pos, Player.start_tile, Player.rect, Rect.of_floats.
  rewrite Hx1, Hx2, Hy1, Hy2, (Qtrunc_grid _ _ Hx), (Qtrunc_grid _ _ Hy).
  repeat split.
Qed.

(** X7: for a player that stands exactly on a cell, the ways the code
    takes its cell agree: the rounded tile of [get_tile_pos] and the
    floored tile [start_move] looks ahead from are that cell, and the
    rectangle of the player is the square of that cell. *)
Theorem tile_of_resting_player (p : Player.t) (tx ty : Z) :
  (Player.x p == inject_Z (tx * TILE_SIZE))%Q ->
  (Player.y p == inject_Z (ty * TILE_SIZE))%Q ->
  Player.get_tile_pos p = (tx, ty) /\
  Player.start_tile p = (tx, ty) /\
  Player.rect p = Rect.mk (tx * TILE_SIZE) (ty * TILE_SIZE) TILE_SIZE TILE_SIZE.
Proof. exact (resting_player_cells p tx ty). Qed.

Lemma tile_of_resting_player_witness :
  Player.get_tile_pos (Player.init 3 2) = (3, 2) /\
  Player.start_tile (Player.init 3 2) = (3, 2) /\
  Player.rect (Player.init 3 2)
  = Rect.mk (3 * TILE_SIZE) (2 * TILE_SIZE) TILE_SIZE TILE_SIZE.
Proof.
  apply (tile_of_resting_player (Player.init 3 2) 3 2); reflexivity.
Defined.

(** ** The square root on squares *)

Lemma reduced_unique (c a : Z) (d b : positive) :
  Z.gcd c (Zpos d) = 1 -> Z.gcd a (Zpos b) = 1 ->
  c * Zpos b = a * Zpos d -> c = a /\ d = b.
Proof.
  intros Hc Ha Heq.
  assert (Hdb : (Zpos d | Zpos b)).
  { apply (Z.gauss (Zpos d) c (Zpos b)).
    - exists a. lia.
    - rewrite Z.gcd_comm. exact Hc. }
  assert (Hbd : (Zpos b | Zpos d)).
  { apply (Z.gauss (Zpos b) a (Zpos d)).
    - exists c. lia.
    - rewrite Z.gcd_comm. exact Ha. }
  assert (Zpos d = Zpos b)
    by (apply Z.divide_antisym_nonneg; [lia|lia|exact Hdb|exact Hbd]).
  assert (d = b) by congruence. subst d. split; [|reflexivity].
  apply (Z.mul_cancel_r c a (Zpos b)); lia.
Qed.

Lemma gcd_square (a b : Z) : Z.gcd a b = 1 -> Z.gcd (a * a) (b * b) = 1.
Proof.
  intros H.
  assert (Hab : Z.gcd a (b * b) = 1) by (apply Z.coprime_mul_r; exact H).
  apply Z.coprime_mul_l; exact Hab.
Qed.

Lemma Qsqrt_comp (q q' : Q) : (q == q')%Q -> Qsqrt q = Qsqrt q'.
Proof. intros H. unfold Qsqrt. now rewrite (Qred_complete q q' H). Qed.

Lemma Qsqrt_square (v : Q) : (0 <= v)%Q -> (Qsqrt (v * v) == v)%Q.
Proof.
  intros Hv.
  pose proof (Qred_correct v) as Hr. pose proof (gcd_Qred v) as Hg.
  destruct (Qred v) as [a b] eqn:Er. simpl in Hg.
  assert (Ha : 0 <= a).
  { rewrite <- Hr in Hv. unfold Qle in Hv. simpl in Hv. lia. }
  rewrite (Qsqrt_comp (v * v) ((a # b) * (a # b))) by (now rewrite Hr).
  unfold Qsqrt.
  pose proof (Qred_correct ((a # b) * (a # b))) as Hr2.
  pose proof (gcd_Qred ((a # b) * (a # b))) as Hg2.
  destruct (Qred ((a # b) * (a # b))) as [c d] eqn:Er2. simpl in Hg2.
  unfold Qeq in Hr2. simpl in Hr2.
  destruct (reduced_unique c (a * a) d (b * b)%positive Hg2) as [-> ->].
  - rewrite Pos2Z.inj_mul. apply gcd_square. exact Hg.
  - exact Hr2.
  - rewrite <- Hr. simpl Qnum. simpl Qden.
    rewrite Z.sqrt_square by exact Ha.
    assert (Hb : Pos.sqrt (b * b) = b).
    { assert (H : Zpos (Pos.sqrt (b * b)) = Zpos b).
      { change (Zpos (Pos.sqrt (b * b))) with (Z.sqrt (Zpos (b * b))).
        rewrite Pos2Z.inj_mul. apply Z.sqrt_square. lia. }
      congruence. }
    rewrite Hb. reflexivity.
Qed.

Lemma Qsqrt_square_neg (v : Q) : (v <= 0)%Q -> (Qsqrt (v * v) == - v)%Q.
Proof.
  intros Hv. rewrite (Qsqrt_comp (v * v) ((- v) * (- v))) by ring.
  apply Qsqrt_square. lra.
Qed.

(** ** The player *)

(** X8: one key counts, and no move is diagonal.  With several keys held
    [handle_input] acts as with the first of left, right, up, down alone:
    left wins over right, and both win over up and down.  Whatever the
    keys, it leaves the player as it is and plays nothing, or it is
    [start_move] in one of the four directions. *)
Theorem handle_input_key_priority (tm : TileMap.t) (p : Player.t)
    (r u d : bool) (keys : Keys) :
  Player.handle_input tm p (mkKeys true r u d)
    = Player.handle_input tm p (mkKeys true false false false) /\
  Player.handle_input tm p (mkKeys false true u d)
    = Player.handle_input tm p (mkKeys false true false false) /\
  Player.handle_input tm p (mkKeys false false true d)
    = Player.handle_input tm p (mkKeys false false true false) /\
  (Player.handle_input tm p keys = Done (p, []) \/
   exists dx dy, cardinal dx dy /\
     Player.handle_input tm p keys = Player.start_move tm p dx dy).
Proof.
  repeat split.
  unfold Player.handle_input.
  destruct (Player.moving p || negb (Player.alive p)
            || Qpositive (Player.move_cooldown p)); [left; reflexivity|].
  unfold cardinal.
  destruct (K_LEFT keys); [right; exists (-1), 0; split; [lia|reflexivity]|].
  destruct (K_RIGHT keys); [right; exists 1, 0; split; [lia|reflexivity]|].
  destruct (K_UP keys); [right; exists 0, (-1); split; [lia|reflexivity]|].
  destruct (K_DOWN keys); [right; exists 0, 1; split; [lia|reflexivity]|].
  left. reflexivity.
Qed.

Lemma Qpositive_spec (q : Q) :
  (Qpositive q = true <-> (0 < q)%Q) /\ (Qpositive q = false <-> (q <= 0)%Q).
Proof.
  unfold Qpositive. destruct (Qle_bool q 0) eqn:E; simpl.
  - apply Qle_bool_iff in E. repeat split; try discriminate; try lra; auto.
  - assert (~ (q <= 0)%Q) by (rewrite <- Qle_bool_iff; congruence).
    repeat split; try discriminate; try lra; auto.
Qed.

(** X9: a bump locks the input.  When [start_move] finds the next cell
    solid, the player stays where it is and the landing sound is played;
    after that [handle_input] ignores every key, right away and after any
    frame shorter than the cooldown of 0.2 seconds. *)
Theorem bump_locks_input (tm : TileMap.t) (p p' : Player.t) (dx dy : Z)
    (s : list Sfx) (keys : Keys) (dt : Q) :
  Player.start_move tm p dx dy = Done (p', s) ->
  Player.moving p = false -> Player.moving p' = false ->
  (0 <= dt)%Q -> (dt < 2 # 10)%Q ->
  Player.x p' = Player.x p /\ Player.y p' = Player.y p /\
  s = Player.play (Player.land_sound p) /\
  Player.handle_input tm p' keys = Done (p', []) /\
  exists p'',
    Player.update p' dt = Done (p'', []) /\
    Player.x p'' = Player.x p /\ Player.y p'' = Player.y p /\
    Player.handle_input tm p'' keys = Done (p'', []).
Proof.
  intros Hrun Hm Hm' Hdt Hlt. unfold Player.start_move in Hrun.
  destruct (look_ahead tm (fst (Player.start_tile p)) (snd (Player.start_tile p))
              dx dy) as [lf| |]; try discriminate.
  simpl in Hrun.
  match type of Hrun with (if ?c then _ else _) = _ => destruct c end.
  2:{ injection Hrun as Hp _. subst p'. discriminate Hm'. }
  injection Hrun as Hp Hs. subst p' s.
  split; [reflexivity|]. split; [reflexivity|]. split; [reflexivity|].
  split.
  - unfold Player.handle_input. simpl. now rewrite orb_true_r.
  - unfold Player.update. simpl Player.move_cooldown.
    change (Qpositive (2 # 10)) with true. cbn iota.
    set (q := Player.set_move_cooldown
                (Player.set_move_cooldown (Player.set_dir p dx dy) (2 # 10))
                ((2 # 10) - dt)).
    assert (Hq : Qpositive (Player.move_cooldown q) = true).
    { apply Qpositive_spec. simpl. lra. }
    assert (Hin : forall q', Player.move_cooldown q' = Player.move_cooldown q ->
                   Player.handle_input tm q' keys = Done (q', [])).
    { intros q' E. unfold Player.handle_input. rewrite E, Hq.
      now rewrite orb_true_r. }
    change (Player.alive q) with (Player.alive p).
    change (Player.moving q) with (Player.moving p). rewrite Hm.
    destruct (Player.alive p); simpl.
    + exists q. split; [reflexivity|]. split; [reflexivity|].
      split; [reflexivity|]. apply Hin. reflexivity.
    + destruct (Qpositive (Player.death_timer p)).
      * eexists. split; [reflexivity|]. split; [reflexivity|].
        split; [reflexivity|]. apply Hin. reflexivity.
      * exists q. split; [reflexivity|]. split; [reflexivity|].
        split; [reflexivity|]. apply Hin. reflexivity.
Qed.

Lemma bump_locks_input_witness :
  exists p' s p'',
    Player.start_move (TileMap.init example_level) (Player.init 1 1) (-1) 0
      = Done (p', s) /\
    Player.handle_input (TileMap.init example_level) p'
      (mkKeys false true false false) = Done (p', []) /\
    Player.update p' (16 # 1000) = Done (p'', []) /\
    Player.handle_input (TileMap.init example_level) p''
      (mkKeys false true false false) = Done (p'', []).
Proof.
  eexists. eexists.
  assert (Hrun : Player.start_move (TileMap.init example_level)
                   (Player.init 1 1) (-1) 0
                 = Done (Player.set_move_cooldown
                           (Player.set_dir (Player.init 1 1) (-1) 0) (2 # 10), []))
    by (vm_compute; reflexivity).
  destruct (bump_locks_input _ _ _ _ _ _ (mkKeys false true false false)
              (16 # 1000) Hrun)
    as [_ [_ [_ [H1 [p'' [H2 [_ [_ H3]]]]]]]];
    [reflexivity|reflexivity|vm_compute; discriminate|vm_compute; reflexivity|].
  exists p''. split; [exact Hrun|]. split; [exact H1|]. split; assumption.
Defined.

(** X10: a dead player stays where it is.  [handle_input] ignores every
    key, and [update] keeps the position, the rectangle, the score and the
    flags of the player and plays nothing; only the death timer runs
    down, while it is positive. *)
Theorem dead_player_stays (tm : TileMap.t) (p : Player.t) (keys : Keys)
    (dt : Q) :
  Player.alive p = false ->
  Player.handle_input tm p keys = Done (p, []) /\
  exists p',
    Player.update p dt = Done (p', []) /\
    Player.x p' = Player.x p /\ Player.y p' = Player.y p /\
    Player.rect p' = Player.rect p /\
    Player.alive p' = false /\ Player.moving p' = Player.moving p /\
    Player.score p' = Player.score p /\
    Player.death_timer p' =
      (if Qpositive (Player.death_timer p)
       then Player.death_timer p - dt else Player.death_timer p)%Q.
Proof.
  intros Ha. split.
  - unfold Player.handle_input. rewrite Ha. simpl. now rewrite orb_true_r.
  - unfold Player.update.
    set (p0 := if Qpositive (Player.move_cooldown p)
               then Player.set_move_cooldown p (Player.move_cooldown p - dt)
               else p).
    assert (H0 : Player.alive p0 = false /\ Player.x p0 = Player.x p /\
                 Player.y p0 = Player.y p /\
                 Player.moving p0 = Player.moving p /\
                 Player.score p0 = Player.score p /\
                 Player.death_timer p0 = Player.death_timer p).
    { unfold p0. destruct (Qpositive (Player.move_cooldown p)); simpl;
        repeat split; assumption. }
    destruct H0 as [E1 [E2 [E3 [E4 [E5 E6]]]]]. rewrite E1, E6. cbn [negb].
    destruct (Qpositive (Player.death_timer p)); eexists;
      (split; [reflexivity|]); unfold Player.rect; simpl;
      rewrite ?E1, ?E2, ?E3, ?E4, ?E5, ?E6; repeat split.
Qed.

Lemma dead_player_stays_witness :
  Player.handle_input (TileMap.init example_level)
    (Player.kill (Player.init 1 1) 1) (mkKeys false true false false)
  = Done (Player.kill (Player.init 1 1) 1, []).
Proof.
  apply (dead_player_stays (TileMap.init example_level)
           (Player.kill (Player.init 1 1) 1) (mkKeys false true false false) 0).
  reflexivity.
Defined.

(** ** The slide, frame after frame *)

Lemma Qdist_le (a b : Q) : (a <= b)%Q -> (Qdist a b == b - a)%Q.
Proof.
  intros H. unfold Qdist. apply Qle_bool_iff in H. rewrite H. reflexivity.
Qed.

Lemma Qdist_ge (a b : Q) : (b <= a)%Q -> (Qdist a b == a - b)%Q.
Proof.
  intros H. unfold Qdist. destruct (Qle_bool a b) eqn:E; [|reflexivity].
  apply Qle_bool_iff in E. lra.
Qed.

Lemma Qdist_nonneg (a b : Q) : (0 <= Qdist a b)%Q.
Proof.
  destruct (Qlt_le_dec a b) as [H|H].
  - rewrite Qdist_le by lra. lra.
  - rewrite Qdist_ge by lra. lra.
Qed.

Lemma Qdist_zero (a b : Q) : (a == b)%Q -> (Qdist a b == 0)%Q.
Proof. intros H. rewrite Qdist_le by lra. lra. Qed.

(** During a slide the length of the vector to the target, as
    [Player.update] computes it, is what is left of the slide. *)
Lemma dist_axis (p : Player.t) :
  axis_aligned p ->
  (Qsqrt ((inject_Z (Player.target_x p) - Player.x p)
          * (inject_Z (Player.target_x p) - Player.x p)
          + (inject_Z (Player.target_y p) - Player.y p)
            * (inject_Z (Player.target_y p) - Player.y p))
   == remaining p)%Q.
Proof.
  unfold axis_aligned, remaining.
  set (x := Player.x p). set (y := Player.y p).
  set (tx := inject_Z (Player.target_x p)).
  set (ty := inject_Z (Player.target_y p)).
  intros [H|H].
  - rewrite (Qsqrt_comp _ ((ty - y) * (ty - y))) by (rewrite H; ring).
    rewrite (Qdist_zero x tx H).
    destruct (Qlt_le_dec y ty) as [Hy|Hy].
    + rewrite Qsqrt_square by lra. rewrite Qdist_le by lra. ring.
    + rewrite Qsqrt_square_neg by lra. rewrite Qdist_ge by lra. ring.
  - rewrite (Qsqrt_comp _ ((tx - x) * (tx - x))) by (rewrite H; ring).
    rewrite (Qdist_zero y ty H).
    destruct (Qlt_le_dec x tx) as [Hx|Hx].
    + rewrite Qsqrt_square by lra. rewrite Qdist_le by lra. ring.
    + rewrite Qsqrt_square_neg by lra. rewrite Qdist_ge by lra. ring.
Qed.

Lemma Qdist_comp (a a' b : Q) : (a == a')%Q -> (Qdist a b == Qdist a' b)%Q.
Proof.
  intros H. destruct (Qlt_le_dec a b) as [Hab|Hab].
  - rewrite (Qdist_le a b), (Qdist_le a' b) by lra. lra.
  - rewrite (Qdist_ge a b), (Qdist_ge a' b) by lra. lra.
Qed.

Lemma step_toward (x t d step : Q) :
  (0 <= step)%Q -> (step < d)%Q -> (d == Qdist x t)%Q ->
  (Qdist (x + (t - x) / d * step) t == d - step)%Q /\
  Qbetween (x + (t - x) / d * step) x t.
Proof.
  intros Hs Hd Hdist. unfold Qbetween.
  destruct (Qlt_le_dec x t) as [H|H].
  - rewrite Qdist_le in Hdist by lra.
    assert (E : (x + (t - x) / d * step == x + step)%Q).
    { rewrite <- Hdist. field. lra. }
    rewrite (Qdist_comp _ _ t E), Qdist_le by lra. split; [lra|]. left. lra.
  - rewrite Qdist_ge in Hdist by lra.
    assert (E : (x + (t - x) / d * step == x - step)%Q).
    { assert (E' : (t - x == - d)%Q) by lra. rewrite E'. field. lra. }
    rewrite (Qdist_comp _ _ t E), Qdist_ge by lra. split; [lra|]. right. lra.
Qed.

Lemma step_along (x t d step : Q) :
  (x == t)%Q -> (x + (t - x) / d * step == t)%Q.
Proof.
  intros H. assert (E : (t - x == 0)%Q) by lra. rewrite E.
  unfold Qdiv. rewrite Qmult_0_l, Qmult_0_l. lra.
Qed.

(** What one frame does to a living player on its slide. *)
Lemma update_slide (p : Player.t) (dt : Q) :
  Player.alive p = true -> Player.moving p = true -> axis_aligned p ->
  (0 <= dt)%Q ->
  exists p' s,
    Player.update p dt = Done (p', s) /\
    Player.alive p' = true /\
    Player.target_x p' = Player.target_x p /\
    Player.target_y p' = Player.target_y p /\
    Player.land_sound p' = Player.land_sound p /\
    ((remaining p <= inject_Z Player.speed * dt)%Q ->
     Player.moving p' = false /\ s = Player.play (Player.land_sound p) /\
     Player.x p' = inject_Z (Player.target_x p) /\
     Player.y p' = inject_Z (Player.target_y p)) /\
    ((inject_Z Player.speed * dt < remaining p)%Q ->
     Player.moving p' = true /\ s = [] /\
     (remaining p' == remaining p - inject_Z Player.speed * dt)%Q /\
     axis_aligned p' /\
     Qbetween (Player.x p') (Player.x p) (inject_Z (Player.target_x p)) /\
     Qbetween (Player.y p') (Player.y p) (inject_Z (Player.target_y p))).
Proof.
  intros Ha Hm Hax Hdt. pose proof (dist_axis p Hax) as Hdist.
  unfold Player.update.
  set (p1 := if Qpositive (Player.move_cooldown p)
             then Player.set_move_cooldown p (Player.move_cooldown p - dt)
             else p).
  assert (H1 : Player.alive p1 = true /\ Player.moving p1 = true /\
               Player.x p1 = Player.x p /\ Player.y p1 = Player.y p /\
               Player.target_x p1 = Player.target_x p /\
               Player.target_y p1 = Player.target_y p /\
               Player.land_sound p1 = Player.land_sound p).
  { unfold p1. destruct (Qpositive (Player.move_cooldown p)); simpl;
      repeat split; assumption. }
  destruct H1 as [E1 [E2 [E3 [E4 [E5 [E6 E7]]]]]].
  rewrite E1, E2, E3, E4, E5, E6, E7. cbn [negb].
  set (x := Player.x p) in *. set (y := Player.y p) in *.
  set (tx := inject_Z (Player.target_x p)) in *.
  set (ty := inject_Z (Player.target_y p)) in *.
  set (d := Qsqrt ((tx - x) * (tx - x) + (ty - y) * (ty - y))) in *.
  set (step := (inject_Z Player.speed * dt)%Q).
  assert (Hstep : (0 <= step)%Q).
  { unfold step. change (inject_Z Player.speed) with (1100 # 1)%Q. lra. }
  destruct (Qle_bool d step) eqn:Hle.
  - apply Qle_bool_iff in Hle.
    eexists. eexists. split; [reflexivity|]. simpl.
    split; [exact E1|]. split; [exact E5|]. split; [exact E6|].
    split; [exact E7|]. split.
    + intros _. repeat split.
    + intros Hlt. exfalso. lra.
  - assert (Hgt : (step < d)%Q).
    { destruct (Qlt_le_dec step d) as [H|H]; [exact H|].
      apply Qle_bool_iff in H. congruence. }
    assert (Hnz : Qeq_bool d 0 = false).
    { destruct (Qeq_bool d 0) eqn:E; [|reflexivity].
      apply Qeq_bool_iff in E. lra. }
    rewrite Hnz.
    eexists. eexists. split; [reflexivity|]. simpl.
    split; [exact E1|]. split; [exact E5|]. split; [exact E6|].
    split; [exact E7|]. split.
    + intros Hle'. exfalso. lra.
    + intros _. split; [exact E2|]. split; [reflexivity|].
      unfold remaining, axis_aligned. simpl. rewrite E5, E6.
      fold tx ty. fold x y. fold x y in Hax. unfold axis_aligned in Hax.
      fold x y tx ty in Hax. unfold remaining in Hdist.
      fold x y tx ty in Hdist.
      destruct Hax as [Hx|Hy].
      * pose proof (step_along x tx d step Hx) as Ex.
        assert (Hd : (d == Qdist y ty)%Q).
        { rewrite Hdist, (Qdist_zero x tx Hx). lra. }
        destruct (step_toward y ty d step Hstep Hgt Hd) as [Ey By].
        split.
        { pose proof (Qdist_zero _ tx Ex) as Z1.
          pose proof (Qdist_zero x tx Hx) as Z2. lra. }
        split; [left; exact Ex|].
        split; [|exact By]. left. rewrite Ex. lra.
      * pose proof (step_along y ty d step Hy) as Ey.
        assert (Hd : (d == Qdist x tx)%Q).
        { rewrite Hdist, (Qdist_zero y ty Hy). lra. }
        destruct (step_toward x tx d step Hstep Hgt Hd) as [Ex Bx].
        split.
        { pose proof (Qdist_zero _ ty Ey) as Z1.
          pose proof (Qdist_zero y ty Hy) as Z2. lra. }
        split; [right; exact Ey|].
        split; [exact Bx|]. left. rewrite Ey. lra.
Qed.

(** X11: one frame of a slide.  A living player on its slide advances
    toward its target by the speed times the frame time, in its row or
    column and never past the target; when what is left is no more than
    that step it stands exactly on the target, stops, and the landing
    sound is played. *)
Theorem slide_advances_by_step (p : Player.t) (dt : Q) :
  Player.alive p = true -> Player.moving p = true -> axis_aligned p ->
  (0 <= dt)%Q ->
  exists p' s,
    Player.update p dt = Done (p', s) /\
    Player.alive p' = true /\
    Player.target_x p' = Player.target_x p /\
    Player.target_y p' = Player.target_y p /\
    Player.land_sound p' = Player.land_sound p /\
    ((remaining p <= inject_Z Player.speed * dt)%Q ->
     Player.moving p' = false /\ s = Player.play (Player.land_sound p) /\
     Player.x p' = inject_Z (Player.target_x p) /\
     Player.y p' = inject_Z (Player.target_y p)) /\
    ((inject_Z Player.speed * dt < remaining p)%Q ->
     Player.moving p' = true /\ s = [] /\
     (remaining p' == remaining p - inject_Z Player.speed * dt)%Q /\
     axis_aligned p' /\
     Qbetween (Player.x p') (Player.x p) (inject_Z (Player.target_x p)) /\
     Qbetween (Player.y p') (Player.y p) (inject_Z (Player.target_y p))).
Proof. exact (update_slide p dt). Qed.

(** A slide to the right over two cells, as [start_move] sets it. *)
Lemma slide_advances_by_step_witness :
  exists p' s,
    Player.update
      (Player.set_moving (Player.set_target (Player.init 1 1) 96 32) true)
      (16 # 1000) = Done (p', s) /\
    Player.moving p' = true /\ s = [] /\
    (remaining p' == (64 # 1) - (176 # 10))%Q.
Proof.
  destruct (slide_advances_by_step
              (Player.set_moving (Player.set_target (Player.init 1 1) 96 32) true)
              (16 # 1000))
    as [p' [s [H1 [_ [_ [_ [_ [_ H2]]]]]]]];
    [reflexivity|reflexivity|right; reflexivity|vm_compute; discriminate|].
  destruct H2 as [H3 [H4 [H5 _]]]; [vm_compute; reflexivity|].
  exists p', s. split; [exact H1|]. split; [exact H3|]. split; [exact H4|].
  rewrite H5. vm_compute. reflexivity.
Defined.

Lemma rest_frames (n : nat) : forall (p : Player.t) (dt : Q),
  Player.alive p = true -> Player.moving p = false ->
  exists p',
    update_frames n p dt = Done (p', []) /\
    Player.alive p' = true /\ Player.moving p' = false /\
    Player.x p' = Player.x p /\ Player.y p' = Player.y p.
Proof.
  induction n as [|n IH]; intros p dt Ha Hm.
  - exists p. repeat split; assumption.
  - cbn [update_frames]. unfold Player.update.
    set (p1 := if Qpositive (Player.move_cooldown p)
               then Player.set_move_cooldown p (Player.move_cooldown p - dt)
               else p).
    assert (H1 : Player.alive p1 = true /\ Player.moving p1 = false /\
                 Player.x p1 = Player.x p /\ Player.y p1 = Player.y p).
    { unfold p1. destruct (Qpositive (Player.move_cooldown p)); simpl;
        repeat split; assumption. }
    destruct H1 as [E1 [E2 [E3 E4]]]. rewrite E1, E2. cbn [negb bind fst snd].
    destruct (IH p1 dt E1 E2) as [p' [Hrun [Ha' [Hm' [Hx' Hy']]]]].
    rewrite Hrun. cbn [bind fst snd app].
    exists p'. repeat split; congruence.
Qed.

(** X12: every slide ends on its target.  After enough frames for the
    distance at the speed of the player, a living player on its slide
    stands exactly on its target and has stopped, and the landing sound
    was played once. *)
Theorem slide_ends_on_target (n : nat) (p : Player.t) (dt : Q) :
  Player.alive p = true -> Player.moving p = true -> axis_aligned p ->
  (0 <= dt)%Q -> (0 < n)%nat ->
  (remaining p <= inject_Z (Z.of_nat n) * (inject_Z Player.speed * dt))%Q ->
  exists p',
    update_frames n p dt = Done (p', Player.play (Player.land_sound p)) /\
    Player.alive p' = true /\ Player.moving p' = false /\
    Player.x p' = inject_Z (Player.target_x p) /\
    Player.y p' = inject_Z (Player.target_y p).
Proof.
  intros Ha Hm Hax Hdt Hn Hrem. revert p Ha Hm Hax Hn Hrem.
  induction n as [|n IH]; intros p Ha Hm Hax Hn Hrem; [lia|].
  destruct (update_slide p dt Ha Hm Hax Hdt)
    as [p1 [s [Hrun [Ha1 [Htx [Hty [Hls [Hland Hgo]]]]]]]].
  cbn [update_frames]. rewrite Hrun. cbn [bind fst snd].
  destruct (Qlt_le_dec (inject_Z Player.speed * dt) (remaining p)) as [Hlt|Hle].
  - destruct (Hgo Hlt) as [Hm1 [Hs [Hrem1 [Hax1 _]]]]. subst s.
    assert (Hn' : (0 < n)%nat).
    { destruct n; [|lia]. exfalso. change (inject_Z (Z.of_nat 1)) with 1%Q in Hrem.
      lra. }
    destruct (IH p1 Ha1 Hm1 Hax1 Hn') as [p' [Hrun' [Ha' [Hm' [Hx' Hy']]]]].
    { rewrite Hrem1. rewrite Nat2Z.inj_succ in Hrem. unfold Z.succ in Hrem.
      rewrite inject_Z_plus in Hrem. change (inject_Z 1) with 1%Q in Hrem. lra. }
    rewrite Hrun'. cbn [bind fst snd app]. rewrite Hls.
    exists p'. repeat split; congruence.
  - destruct (Hland Hle) as [Hm1 [Hs [Hx1 Hy1]]]. subst s.
    destruct (rest_frames n p1 dt Ha1 Hm1) as [p' [Hrun' [Ha' [Hm' [Hx' Hy']]]]].
    rewrite Hrun'. cbn [bind fst snd]. rewrite app_nil_r.
    exists p'. repeat split; congruence.
Qed.

Lemma slide_ends_on_target_witness :
  exists p',
    update_frames 4
      (Player.set_moving (Player.set_target (Player.init 1 1) 96 32) true)
      (16 # 1000) = Done (p', []) /\
    Player.moving p' = false /\ Player.x p' = inject_Z 96.
Proof.
  destruct (slide_ends_on_target 4
              (Player.set_moving (Player.set_target (Player.init 1 1) 96 32) true)
              (16 # 1000))
    as [p' [H1 [_ [H2 [H3 _]]]]];
    [reflexivity|reflexivity|right; reflexivity|vm_compute; discriminate|lia
    |vm_compute; discriminate|].
  exists p'. split; [exact H1|]. split; [exact H2|exact H3].
Defined.

(** ** The hitboxes, for a player that rests on a cell *)

Lemma collide_centered (a b c d o s : Z) :
  0 < s -> 0 <= o -> o + s <= 32 ->
  Rect.colliderect (Rect.mk (c * 32 + o) (d * 32 + o) s s)
                   (Rect.mk (a * 32) (b * 32) 32 32)
  = (c =? a) && (d =? b).
Proof.
  intros Hs Ho Hos. unfold Rect.colliderect. cbn [Rect.x Rect.y Rect.w Rect.h].
  destruct (Z.eqb_spec s 0); [lia|]. change (32 =? 0) with false. cbn [orb].
  apply Bool.eq_iff_eq_true.
  rewrite !andb_true_iff, !Z.ltb_lt, !Z.gtb_lt, !Z.eqb_eq. lia.
Qed.

(** X13: a player that rests on a cell touches the hitbox of a trap, a
    star, a dot or the exit exactly when that entity is on the cell of the
    player: every hitbox lies inside its own cell. *)
Theorem resting_player_touches_own_cell (p : Player.t) (a b c d : Z) :
  (Player.x p == inject_Z (a * TILE_SIZE))%Q ->
  (Player.y p == inject_Z (b * TILE_SIZE))%Q ->
  Trap.check_hit (Trap.spike_init c d) (Player.rect p) = (c =? a) && (d =? b) /\
  Trap.check_hit (Trap.init c d) (Player.rect p) = (c =? a) && (d =? b) /\
  Game.star_hit (Player.rect p) (Star.init c d) = (c =? a) && (d =? b) /\
  Game.dot_hit (Player.rect p) (Dot.init c d) = (c =? a) && (d =? b) /\
  Exit.check_hit (Exit.init c d) (Player.rect p) = (c =? a) && (d =? b).
Proof.
  intros Hx Hy. destruct (resting_player_cells p a b Hx Hy) as [_ [_ ->]].
  change TILE_SIZE with 32.
  repeat split.
  - exact (collide_centered a b c d 10 12 ltac:(lia) ltac:(lia) ltac:(lia)).
  - exact (collide_centered a b c d 6 20 ltac:(lia) ltac:(lia) ltac:(lia)).
  - exact (collide_centered a b c d 5 22 ltac:(lia) ltac:(lia) ltac:(lia)).
  - exact (collide_centered a b c d 13 5 ltac:(lia) ltac:(lia) ltac:(lia)).
  - exact (collide_centered a b c d 4 24 ltac:(lia) ltac:(lia) ltac:(lia)).
Qed.

Lemma resting_player_touches_own_cell_witness :
  Trap.check_hit (Trap.spike_init 2 1) (Player.rect (Player.init 1 1)) = false /\
  Trap.check_hit (Trap.spike_init 1 1) (Player.rect (Player.init 1 1)) = true.
Proof.
  split.
  - apply (resting_player_touches_own_cell (Player.init 1 1) 1 1 2 1);
      reflexivity.
  - apply (resting_player_touches_own_cell (Player.init 1 1) 1 1 1 1);
      reflexivity.
Defined.

(** ** What the look-ahead returns *)

Lemma look_ahead_inv tm x y dx dy r :
  look_ahead tm x y dx dy = Done r ->
  exists n : Z,
    0 <= n /\ r = (x + n * dx, y + n * dy) /\
    (forall k, 1 <= k <= n ->
       TileMap.is_solid tm (x + k * dx) (y + k * dy) = Done false) /\
    TileMap.is_solid tm (fst r + dx) (snd r + dy) = Done true.
Proof.
  intros H. unfold look_ahead in H.
  destruct (slide_loop_inv tm dx dy _ _ _ _ H) as [n [_ [Hr [Hfree Hwall]]]].
  exists (Z.of_nat n). split; [lia|]. split; [exact Hr|]. split; [exact Hfree|].
  subst r. cbn [fst snd].
  replace (x + Z.of_nat n * dx + dx) with (x + (Z.of_nat n + 1) * dx) by lia.
  replace (y + Z.of_nat n * dy + dy) with (y + (Z.of_nat n + 1) * dy) by lia.
  exact Hwall.
Qed.

(** X14: whatever the look-ahead returns is the start cell or a free cell
    of the grid, reached from the start over free cells only, with a solid
    cell right behind it in the direction of the move. *)
Theorem look_ahead_lands_free (tm : TileMap.t) (x y dx dy : Z) (r : Z * Z) :
  look_ahead tm x y dx dy = Done r ->
  exists n : Z,
    0 <= n /\ r = (x + n * dx, y + n * dy) /\
    (forall k, 1 <= k <= n ->
       TileMap.is_solid tm (x + k * dx) (y + k * dy) = Done false) /\
    TileMap.is_solid tm (fst r + dx) (snd r + dy) = Done true /\
    (r = (x, y) \/
     (TileMap.is_solid tm (fst r) (snd r) = Done false /\
      0 <= fst r < TileMap.width tm /\ 0 <= snd r < TileMap.height tm)).
Proof.
  intros H. destruct (look_ahead_inv tm x y dx dy r H)
    as [n [Hn [Hr [Hfree Hwall]]]].
  exists n. split; [exact Hn|]. split; [exact Hr|]. split; [exact Hfree|].
  split; [exact Hwall|].
  destruct (Z.eq_dec n 0) as [->|Hne].
  - left. rewrite Hr. f_equal; lia.
  - right. assert (Hf : TileMap.is_solid tm (fst r) (snd r) = Done false).
    { rewrite Hr. cbn [fst snd]. apply Hfree. lia. }
    split; [exact Hf|]. exact (not_solid_in_bounds tm _ _ Hf).
Qed.

Lemma look_ahead_lands_free_witness :
  exists n : Z,
    0 <= n /\ (3, 1) = (1 + n * 1, 1 + n * 0) /\
    TileMap.is_solid (TileMap.init example_level) (3 + 1) (1 + 0) = Done true.
Proof.
  destruct (look_ahead_lands_free (TileMap.init example_level) 1 1 1 0 (3, 1))
    as [n [H1 [H2 [_ [H3 _]]]]]; [vm_compute; reflexivity|].
  exists n. split; [exact H1|]. split; [exact H2|exact H3].
Defined.

(** X15: a move that starts sets the target on a free cell of the grid, in
    the row or the column of the player; the player is never sent into a
    wall or out of the grid. *)
Theorem start_move_targets_free_cell (tm : TileMap.t) (p p' : Player.t)
    (dx dy : Z) (s : list Sfx) :
  Player.start_move tm p dx dy = Done (p', s) ->
  Player.moving p = false -> Player.moving p' = true ->
  exists n : Z,
    0 < n /\
    Player.target_x p' = (fst (Player.start_tile p) + n * dx) * TILE_SIZE /\
    Player.target_y p' = (snd (Player.start_tile p) + n * dy) * TILE_SIZE /\
    TileMap.is_solid tm (fst (Player.start_tile p) + n * dx)
                        (snd (Player.start_tile p) + n * dy) = Done false /\
    0 <= fst (Player.start_tile p) + n * dx < TileMap.width tm /\
    0 <= snd (Player.start_tile p) + n * dy < TileMap.height tm /\
    Player.x p' = Player.x p /\ Player.y p' = Player.y p /\
    s = Player.play (Player.jump_sound p).
Proof.
  intros Hrun Hm Hm'. unfold Player.start_move in Hrun.
  destruct (look_ahead tm (fst (Player.start_tile p)) (snd (Player.start_tile p))
              dx dy) as [lf| |] eqn:Hla; try discriminate.
  cbn [bind] in Hrun.
  destruct (look_ahead_inv tm _ _ dx dy lf Hla) as [n [Hn [Hr [Hfree _]]]].
  destruct ((fst lf =? fst (Player.start_tile p))
            && (snd lf =? snd (Player.start_tile p))) eqn:Hsame.
  - injection Hrun as Hp _. subst p'. simpl in Hm'. congruence.
  - injection Hrun as Hp Hs. subst p' s.
    assert (Hn0 : n <> 0).
    { intros ->. subst lf. cbn [fst snd] in Hsame.
      rewrite !Z.mul_0_l, !Z.add_0_r, !Z.eqb_refl in Hsame. discriminate. }
    assert (Hf : TileMap.is_solid tm (fst (Player.start_tile p) + n * dx)
                   (snd (Player.start_tile p) + n * dy) = Done false)
      by (apply Hfree; lia).
    destruct (not_solid_in_bounds tm _ _ Hf) as [Bx By].
    exists n. subst lf. cbn [fst snd].
    split; [lia|]. split; [reflexivity|]. split; [reflexivity|].
    split; [exact Hf|]. split; [exact Bx|]. split; [exact By|].
    repeat split.
Qed.

Lemma start_move_targets_free_cell_witness :
  exists n : Z,
    0 < n /\
    TileMap.is_solid (TileMap.init example_level)
      (fst (Player.start_tile (Player.init 1 1)) + n * 1)
      (snd (Player.start_tile (Player.init 1 1)) + n * 0) = Done false.
Proof.
  destruct (start_move_targets_free_cell (TileMap.init example_level)
              (Player.init 1 1)
              (Player.set_moving
                 (Player.set_dir (Player.set_target (Player.init 1 1) 96 32) 1 0)
                 true)
              1 0 [])
    as [n [H1 [_ [_ [H2 _]]]]];
    [vm_compute; reflexivity|reflexivity|reflexivity|].
  exists n. split; [exact H1|exact H2].
Defined.

(** ** The entities of a level *)

Lemma cols_of_spec ch row : forall x0 x,
  In x (cols_of ch row x0) <->
  x0 <= x /\ String.get (Z.to_nat (x - x0)) row = Some ch.
Proof.
  induction row as [|c rest IH]; intros x0 x.
  - simpl. split; [tauto|]. intros [_ H]. destruct (Z.to_nat (x - x0)); discriminate.
  - cbn [cols_of].
    assert (Hrest : In x (cols_of ch rest (x0 + 1)) <->
                    x0 < x /\ String.get (Z.to_nat (x - x0)) (String c rest) = Some ch).
    { rewrite IH. split.
      - intros [Hle Hget]. split; [lia|].
        replace (Z.to_nat (x - x0)) with (S (Z.to_nat (x - (x0 + 1)))) by lia.
        exact Hget.
      - intros [Hlt Hget]. split; [lia|].
        replace (Z.to_nat (x - x0)) with (S (Z.to_nat (x - (x0 + 1)))) in Hget
          by lia.
        exact Hget. }
    assert (Hhead : x = x0 ->
              (String.get (Z.to_nat (x - x0)) (String c rest) = Some ch <-> c = ch)).
    { intros ->. rewrite Z.sub_diag. simpl. split; congruence. }
    destruct (Ascii.eqb_spec c ch) as [Hc|Hc].
    + cbn [In]. rewrite Hrest. split.
      * intros [<-|[Hlt Hget]]; [split; [lia|apply Hhead; auto]|split; [lia|exact Hget]].
      * intros [Hle Hget]. destruct (Z.eq_dec x0 x) as [E|E]; [left; exact E|].
        right. split; [lia|exact Hget].
    + rewrite Hrest. split.
      * intros [Hlt Hget]. split; [lia|exact Hget].
      * intros [Hle Hget]. split; [|exact Hget].
        destruct (Z.eq_dec x x0) as [E|E]; [|lia].
        exfalso. apply Hc. apply (Hhead E). exact Hget.
Qed.

Lemma cells_of_spec ch rows : forall y0 x y,
  In (x, y) (cells_of ch rows y0) <->
  0 <= x /\ y0 <= y /\
  exists row, nth_error rows (Z.to_nat (y - y0)) = Some row /\
              String.get (Z.to_nat x) row = Some ch.
Proof.
  induction rows as [|row rest IH]; intros y0 x y.
  - simpl. split; [tauto|]. intros [_ [_ [r [H _]]]].
    destruct (Z.to_nat (y - y0)); discriminate.
  - cbn [cells_of]. rewrite in_app_iff, in_map_iff, IH. split.
    + intros [[x' [E Hin]]|[Hx [Hy [r [Hnth Hget]]]]].
      * injection E as -> ->. apply cols_of_spec in Hin.
        rewrite Z.sub_0_r in Hin. destruct Hin as [Hx Hget].
        split; [exact Hx|]. split; [lia|]. exists row.
        rewrite Z.sub_diag. split; [reflexivity|exact Hget].
      * split; [exact Hx|]. split; [lia|]. exists r.
        replace (Z.to_nat (y - y0)) with (S (Z.to_nat (y - (y0 + 1)))) by lia.
        split; [exact Hnth|exact Hget].
    + intros [Hx [Hy [r [Hnth Hget]]]].
      destruct (Z.eq_dec y y0) as [->|Hne].
      * left. exists x. split; [reflexivity|]. apply cols_of_spec.
        rewrite Z.sub_0_r. split; [exact Hx|].
        rewrite Z.sub_diag in Hnth. simpl in Hnth. injection Hnth as ->.
        exact Hget.
      * right. split; [exact Hx|]. split; [lia|]. exists r.
        replace (Z.to_nat (y - y0)) with (S (Z.to_nat (y - (y0 + 1)))) in Hnth
          by lia.
        split; [exact Hnth|exact Hget].
Qed.

(** One character of the level adds at most one entity. *)
Lemma place_spec ch x y e :
  e_collectibles (place ch x y e)
  = e_collectibles e ++ (if Ascii.eqb ch "*" then [Collectible.init x y] else []) /\
  e_traps (place ch x y e)
  = e_traps e ++ (if Ascii.eqb ch "T" then [Trap.spike_init x y] else []) /\
  e_stars (place ch x y e)
  = e_stars e ++ (if Ascii.eqb ch "S" then [Star.init x y] else []) /\
  e_dots (place ch x y e)
  = e_dots e ++ (if Ascii.eqb ch "." then [Dot.init x y] else []) /\
  e_exit (place ch x y e)
  = if Ascii.eqb ch "E" then Some (Exit.init x y) else e_exit e.
Proof.
  unfold place.
  destruct (Ascii.eqb_spec ch "*") as [->|H1];
    [cbn; rewrite ?app_nil_r; repeat split|].
  destruct (Ascii.eqb_spec ch "T") as [->|H2];
    [cbn; rewrite ?app_nil_r; repeat split|].
  destruct (Ascii.eqb_spec ch "E") as [->|H3];
    [cbn; rewrite ?app_nil_r; repeat split|].
  destruct (Ascii.eqb_spec ch "S") as [->|H4];
    [cbn; rewrite ?app_nil_r; repeat split|].
  destruct (Ascii.eqb_spec ch ".") as [->|H5];
    cbn; rewrite ?app_nil_r; repeat split.
Qed.

Lemma last_cell_app (l1 l2 : list (Z * Z)) :
  last_cell (l1 ++ l2) =
  match last_cell l2 with
  | Some c => Some c
  | None => last_cell l1
  end.
Proof.
  unfold last_cell. rewrite rev_app_distr.
  destruct (rev l2) as [|c r]; [reflexivity|reflexivity].
Qed.

Lemma exit_after_nil e : exit_after [] e = e.
Proof. reflexivity. Qed.

Lemma exit_after_cons c l e :
  exit_after (c :: l) e = exit_after l (Some (Exit.init (fst c) (snd c))).
Proof.
  unfold exit_after. change (c :: l) with ([c] ++ l). rewrite last_cell_app.
  destruct (last_cell l); reflexivity.
Qed.

Lemma exit_after_app l1 l2 e :
  exit_after (l1 ++ l2) e = exit_after l2 (exit_after l1 e).
Proof.
  unfold exit_after. rewrite last_cell_app.
  destruct (last_cell l2); reflexivity.
Qed.

Lemma scan_row_spec row : forall x y e,
  e_collectibles (scan_row row x y e)
  = e_collectibles e ++ map (fun x => Collectible.init x y) (cols_of "*" row x) /\
  e_traps (scan_row row x y e)
  = e_traps e ++ map (fun x => Trap.spike_init x y) (cols_of "T" row x) /\
  e_stars (scan_row row x y e)
  = e_stars e ++ map (fun x => Star.init x y) (cols_of "S" row x) /\
  e_dots (scan_row row x y e)
  = e_dots e ++ map (fun x => Dot.init x y) (cols_of "." row x) /\
  e_exit (scan_row row x y e)
  = exit_after (map (fun x => (x, y)) (cols_of "E" row x)) (e_exit e).
Proof.
  induction row as [|ch rest IH]; intros x y e.
  - cbn. rewrite !app_nil_r. repeat split.
  - cbn [scan_row cols_of].
    destruct (IH (x + 1) y (place ch x y e)) as [I1 [I2 [I3 [I4 I5]]]].
    destruct (place_spec ch x y e) as [P1 [P2 [P3 [P4 P5]]]].
    rewrite I1, I2, I3, I4, I5, P1, P2, P3, P4, P5.
    repeat split.
    + destruct (Ascii.eqb ch "*"); [now rewrite <- app_assoc|now rewrite app_nil_r].
    + destruct (Ascii.eqb ch "T"); [now rewrite <- app_assoc|now rewrite app_nil_r].
    + destruct (Ascii.eqb ch "S"); [now rewrite <- app_assoc|now rewrite app_nil_r].
    + destruct (Ascii.eqb ch "."); [now rewrite <- app_assoc|now rewrite app_nil_r].
    + destruct (Ascii.eqb ch "E"); [|reflexivity].
      cbn [map]. now rewrite exit_after_cons.
Qed.

Lemma map_cells (A : Type) (f : Z -> Z -> A) ch row rest y :
  map (fun c => f (fst c) (snd c)) (cells_of ch (row :: rest) y)
  = map (fun x => f x y) (cols_of ch row 0)
    ++ map (fun c => f (fst c) (snd c)) (cells_of ch rest (y + 1)).
Proof. cbn [cells_of]. rewrite map_app, map_map. reflexivity. Qed.

Lemma scan_rows_spec rows : forall y e,
  e_collectibles (scan_rows rows y e)
  = e_collectibles e
    ++ map (fun c => Collectible.init (fst c) (snd c)) (cells_of "*" rows y) /\
  e_traps (scan_rows rows y e)
  = e_traps e ++ map (fun c => Trap.spike_init (fst c) (snd c)) (cells_of "T" rows y) /\
  e_stars (scan_rows rows y e)
  = e_stars e ++ map (fun c => Star.init (fst c) (snd c)) (cells_of "S" rows y) /\
  e_dots (scan_rows rows y e)
  = e_dots e ++ map (fun c => Dot.init (fst c) (snd c)) (cells_of "." rows y) /\
  e_exit (scan_rows rows y e) = exit_after (cells_of "E" rows y) (e_exit e).
Proof.
  induction rows as [|row rest IH]; intros y e.
  - cbn. rewrite !app_nil_r. repeat split.
  - cbn [scan_rows].
    destruct (IH (y + 1) (scan_row row 0 y e)) as [I1 [I2 [I3 [I4 I5]]]].
    destruct (scan_row_spec row 0 y e) as [P1 [P2 [P3 [P4 P5]]]].
    rewrite I1, I2, I3, I4, I5, P1, P2, P3, P4, P5.
    rewrite !map_cells, <- !app_assoc.
    repeat split. cbn [cells_of]. now rewrite exit_after_app.
Qed.

Lemma setup_level_result load_level g play_sound g' :
  Game.setup_level load_level g play_sound = Done g' ->
  exists name,
    py_index LEVELS (Game.current_level_index g) = Done name /\
    Game.tilemap g' = TileMap.init (load_level name) /\
    Game.player g'
    = Player.set_sounds
        (Player.init (fst (TileMap.find_player_spawn (Game.tilemap g')))
                     (snd (TileMap.find_player_spawn (Game.tilemap g'))))
        (Some SfxLanding) (Some SfxJump) /\
    (Game.collectibles g'
     = e_collectibles (scan_rows (TileMap.level_data (Game.tilemap g')) 0 no_entities) /\
     Game.traps g'
     = e_traps (scan_rows (TileMap.level_data (Game.tilemap g')) 0 no_entities) /\
     Game.stars g'
     = e_stars (scan_rows (TileMap.level_data (Game.tilemap g')) 0 no_entities) /\
     Game.dots g'
     = e_dots (scan_rows (TileMap.level_data (Game.tilemap g')) 0 no_entities) /\
     Game.exit_portal g'
     = match e_exit (scan_rows (TileMap.level_data (Game.tilemap g')) 0 no_entities)
       with Some x => x | None => Exit.init 1 1 end) /\
    Game.stars_collected_count g' = 0 /\
    Game.sfx_played g'
    = Game.sfx_played g ++ (if play_sound then [SfxStart] else []) /\
    Game.state g' = Game.state g /\ Game.lives g' = Game.lives g /\
    Game.current_level_index g' = Game.current_level_index g /\
    Game.saved_level_index g' = Game.saved_level_index g /\
    Game.global_coins g' = Game.global_coins g /\
    Game.level_stars g' = Game.level_stars g.
Proof.
  unfold Game.setup_level. intros H.
  destruct (py_index LEVELS (Game.current_level_index g)) as [name| |];
    try discriminate.
  cbn [bind] in H. injection H as <-. exists name.
  cbn [Game.tilemap Game.player Game.collectibles Game.traps Game.stars
       Game.dots Game.exit_portal Game.stars_collected_count Game.sfx_played
       Game.state Game.lives Game.current_level_index Game.saved_level_index
       Game.global_coins Game.level_stars].
  repeat split.
Qed.

(** X16: the entities [setup_level] creates are those of the level map:
    a coin on every cell that holds an asterisk, a spike trap on every
    "T", a star on every "S", a dot on every ".", each list in the order of
    the rows and then of the columns, and nothing else; the exit is on the
    last "E", or on the cell (1, 1) when the map has none. *)
Theorem setup_level_entities (load_level : string -> list string) (g : Game.t)
    (play_sound : bool) (g' : Game.t) :
  Game.setup_level load_level g play_sound = Done g' ->
  let rows := TileMap.level_data (Game.tilemap g') in
  Game.collectibles g'
  = map (fun c => Collectible.init (fst c) (snd c)) (cells_of "*" rows 0) /\
  Game.traps g'
  = map (fun c => Trap.spike_init (fst c) (snd c)) (cells_of "T" rows 0) /\
  Game.stars g'
  = map (fun c => Star.init (fst c) (snd c)) (cells_of "S" rows 0) /\
  Game.dots g'
  = map (fun c => Dot.init (fst c) (snd c)) (cells_of "." rows 0) /\
  Game.exit_portal g'
  = match last_cell (cells_of "E" rows 0) with
    | Some c => Exit.init (fst c) (snd c)
    | None => Exit.init 1 1
    end /\
  forall ch x y,
    In (x, y) (cells_of ch rows 0) <->
    0 <= x /\ 0 <= y /\ TileMap.index (Game.tilemap g') x y = Some ch.
Proof.
  intros H rows.
  destruct (setup_level_result _ _ _ _ H)
    as [name [_ [_ [_ [[E1 [E2 [E3 [E4 E5]]]] _]]]]].
  destruct (scan_rows_spec rows 0 no_entities) as [S1 [S2 [S3 [S4 S5]]]].
  fold rows in E1, E2, E3, E4, E5.
  rewrite E1, E2, E3, E4, E5, S1, S2, S3, S4, S5.
  cbn [no_entities e_collectibles e_traps e_stars e_dots e_exit app].
  split; [reflexivity|]. split; [reflexivity|]. split; [reflexivity|].
  split; [reflexivity|]. split.
  - unfold exit_after. destruct (last_cell (cells_of "E" rows 0)); reflexivity.
  - intros ch x y. rewrite cells_of_spec, Z.sub_0_r. unfold TileMap.index.
    fold rows. split.
    + intros [Hx [Hy [row [Hnth Hget]]]]. rewrite Hnth. auto.
    + intros [Hx [Hy Hidx]]. split; [exact Hx|]. split; [exact Hy|].
      destruct (nth_error rows (Z.to_nat y)) as [row|]; [|discriminate].
      exists row. split; [reflexivity|exact Hidx].
Qed.

Lemma setup_level_entities_witness :
  exists g',
    Game.setup_level (fun _ => example_level) (Game.before_setup default_save)
      false = Done g' /\
    Game.traps g' = [Trap.spike_init 2 2] /\
    Game.exit_portal g' = Exit.init 3 3.
Proof.
  eexists. split; [vm_compute; reflexivity|].
  match goal with
  | |- Game.traps ?g = _ /\ _ =>
      destruct (setup_level_entities (fun _ => example_level)
                  (Game.before_setup default_save) false g)
        as [_ [H1 [_ [_ [H2 _]]]]]; [vm_compute; reflexivity|]
  end.
  split; [rewrite H1; vm_compute; reflexivity|rewrite H2; vm_compute; reflexivity].
Defined.

(** ** A level that was just set up *)

Lemma index_some_get_tile tm x y c :
  TileMap.rectangular tm -> 0 <= x -> 0 <= y ->
  TileMap.index tm x y = Some c ->
  (0 <= x < TileMap.width tm /\ 0 <= y < TileMap.height tm) /\
  TileMap.get_tile tm x y = Done c.
Proof.
  intros [Hh Hrows] Hx Hy Hidx.
  assert (Hb : 0 <= x < TileMap.width tm /\ 0 <= y < TileMap.height tm).
  { unfold TileMap.index in Hidx.
    destruct (nth_error (TileMap.level_data tm) (Z.to_nat y)) as [row|] eqn:Hrow;
      [|discriminate].
    assert (Z.to_nat y < List.length (TileMap.level_data tm))%nat
      by (apply nth_error_Some; congruence).
    assert (Hlen : Z.of_nat (String.length row) = TileMap.width tm).
    { rewrite Forall_forall in Hrows. apply Hrows. eapply nth_error_In; eauto. }
    destruct (Nat.lt_ge_cases (Z.to_nat x) (String.length row)) as [Hlt|Hge].
    - lia.
    - rewrite (get_none_of_ge row _ Hge) in Hidx. discriminate. }
  split; [exact Hb|]. unfold TileMap.get_tile.
  destruct Hb as [Bx By]. destruct (in_bounds_guards tm x y Bx By) as [_ ->].
  now rewrite Hidx.
Qed.

Lemma stars_init_uncollected (cells : list (Z * Z)) :
  collected_stars (map (fun c => Star.init (fst c) (snd c)) cells) = 0.
Proof.
  unfold collected_stars. induction cells as [|c cells IH]; [reflexivity|].
  cbn [map filter Star.init Star.collected]. exact IH.
Qed.

(** X17: a level that was just set up is fresh.  The star counter is zero
    and no star or coin is collected, every trap is active, and the player
    is alive, at rest, with no score, on the spawn cell; when the map
    holds a "P" that cell is a free cell of the grid.  The lives, the
    coins, the saved progress and the star records are those from
    before. *)
Theorem setup_level_fresh (load_level : string -> list string) (g : Game.t)
    (play_sound : bool) (g' : Game.t) :
  Game.setup_level load_level g play_sound = Done g' ->
  Game.stars_collected_count g' = 0 /\
  collected_stars (Game.stars g') = 0 /\
  Forall (fun c => Collectible.collected c = false) (Game.collectibles g') /\
  Forall (fun tr => Trap.active tr = true) (Game.traps g') /\
  ready (Game.player g') /\ Player.score (Game.player g') = 0 /\
  Player.get_tile_pos (Game.player g')
    = TileMap.find_player_spawn (Game.tilemap g') /\
  ((exists x y, TileMap.index (Game.tilemap g') x y = Some "P"%char) ->
   TileMap.get_tile (Game.tilemap g')
     (fst (Player.get_tile_pos (Game.player g')))
     (snd (Player.get_tile_pos (Game.player g'))) = Done "P"%char /\
   TileMap.is_solid (Game.tilemap g')
     (fst (Player.get_tile_pos (Game.player g')))
     (snd (Player.get_tile_pos (Game.player g'))) = Done false) /\
  Game.state g' = Game.state g /\ Game.lives g' = Game.lives g /\
  Game.current_level_index g' = Game.current_level_index g /\
  Game.saved_level_index g' = Game.saved_level_index g /\
  Game.global_coins g' = Game.global_coins g /\
  Game.level_stars g' = Game.level_stars g.
Proof.
  intros H.
  destruct (setup_level_result _ _ _ _ H)
    as [name [_ [Htm [Hp [[E1 [E2 [E3 _]]] [Hc [_ Hrest]]]]]]].
  destruct (scan_rows_spec (TileMap.level_data (Game.tilemap g')) 0 no_entities)
    as [S1 [S2 [S3 _]]].
  cbn [no_entities e_collectibles e_traps e_stars app] in S1, S2, S3.
  split; [exact Hc|].
  split; [rewrite E3, S3; apply stars_init_uncollected|].
  split; [rewrite E1, S1; apply Forall_forall; intros c Hin;
          apply in_map_iff in Hin; destruct Hin as [c0 [<- _]]; reflexivity|].
  split; [rewrite E2, S2; apply Forall_forall; intros c Hin;
          apply in_map_iff in Hin; destruct Hin as [c0 [<- _]]; reflexivity|].
  set (spawn := TileMap.find_player_spawn (Game.tilemap g')) in *.
  assert (Hpos : Player.get_tile_pos (Game.player g') = spawn).
  { rewrite Hp.
    destruct (resting_player_cells
                (Player.set_sounds (Player.init (fst spawn) (snd spawn))
                   (Some SfxLanding) (Some SfxJump)) (fst spawn) (snd spawn))
      as [Hpos _]; [reflexivity|reflexivity|].
    rewrite Hpos. now destruct spawn. }
  split; [rewrite Hp; repeat split|].
  split; [rewrite Hp; reflexivity|].
  split; [exact Hpos|].
  split; [|exact Hrest].
  intros [x [y Hxy]]. rewrite Hpos.
  destruct (find_player_spawn_spec (Game.tilemap g'))
    as [[Hx [Hy [Hidx _]]]|[Hno _]]; [|exfalso; exact (Hno x y Hxy)].
  fold spawn in Hx, Hy, Hidx.
  assert (Hrect : TileMap.rectangular (Game.tilemap g'))
    by (rewrite Htm; apply init_rectangular).
  destruct (index_some_get_tile _ _ _ _ Hrect Hx Hy Hidx) as [[Bx By] Hget].
  split; [exact Hget|].
  rewrite (is_solid_in_bounds _ _ _ Bx By), Hget. reflexivity.
Qed.

Lemma setup_level_fresh_witness :
  exists g',
    Game.setup_level (fun _ => example_level) (Game.before_setup default_save)
      false = Done g' /\
    Game.stars_collected_count g' = 0 /\
    Player.get_tile_pos (Game.player g')
      = TileMap.find_player_spawn (Game.tilemap g').
Proof.
  eexists. split; [vm_compute; reflexivity|].
  match goal with
  | |- Game.stars_collected_count ?g = _ /\ _ =>
      destruct (setup_level_fresh (fun _ => example_level)
                  (Game.before_setup default_save) false g)
        as [H1 [_ [_ [_ [_ [_ [H2 _]]]]]]]; [vm_compute; reflexivity|]
  end.
  split; [exact H1|exact H2].
Defined.

(** ** The transitions of the game, by kind *)

Lemma same_progress_refl g : same_progress g g.
Proof. unfold same_progress. repeat split; try lia; auto. Qed.

Lemma setup_step load_level g g0 ps s (o : outcome Game.t) g' :
  o = Game.setup_level load_level g0 ps ->
  same_progress g g0 ->
  bind o (fun g1 => Done (Game.set_state g1 s)) = Done g' ->
  exists g0 g1 ps s,
    same_progress g g0 /\ Game.setup_level load_level g0 ps = Done g1 /\
    g' = Game.set_state g1 s.
Proof.
  intros Ho Hsp H. destruct o as [g1| |]; try discriminate.
  cbn [bind] in H. injection H as <-.
  exists g0, g1, ps, s. split; [exact Hsp|]. split; [now symmetry|reflexivity].
Qed.

Lemma restart_step load_level g g' :
  Game.restart_game load_level g = Done g' ->
  exists g0 g1 ps s,
    same_progress g g0 /\ Game.setup_level load_level g0 ps = Done g1 /\
    g' = Game.set_state g1 s.
Proof.
  unfold Game.restart_game. intros H.
  eapply setup_step; [reflexivity| |exact H].
  unfold same_progress. cbn. repeat split; try lia; auto.
Qed.

Lemma step_cases load_level g g' :
  Game.step load_level g g' ->
  (exists inp, Game.state g = Playing /\ (0 <= dt inp)%Q /\
               Game.update_playing g inp = Done g') \/
  (exists g0 g1 ps s,
     same_progress g g0 /\ Game.setup_level load_level g0 ps = Done g1 /\
     g' = Game.set_state g1 s) \/
  (exists s, g' = Game.set_state g s) \/
  g' = g \/
  (exists c, g' = Game.set_global_coins g c).
Proof.
  intros Hstep.
  destruct Hstep as [g inp g' Hs Hdt H|g choice g' H|g i g' H|g i g' H|g i g' H
                    |g g' H|g g' H|g|g price].
  - left. exists inp. auto.
  - destruct choice; cbn [Game.handle_main_menu_selection] in H.
    + right; left.
      eapply setup_step; [reflexivity| |exact H].
      destruct (Game.current_level_index
                  (Game.set_current_level_index g (Game.saved_level_index g))
                >=? Z.of_nat (List.length LEVELS));
        unfold same_progress; cbn; repeat split; try lia; auto.
    + injection H as <-. auto.
    + injection H as <-. right; right; left. eauto.
    + injection H as <-. auto.
  - unfold Game.handle_level_menu_selection in H.
    destruct (i =? Z.of_nat (List.length LEVELS)).
    + injection H as <-. auto.
    + right; left. eapply setup_step; [reflexivity| |exact H].
      unfold same_progress; cbn; repeat split; try lia; auto.
  - unfold Game.handle_pause_action in H.
    destruct (i =? 0); [injection H as <-; right; right; left; eauto|].
    destruct (i =? 1).
    { right; left. eapply setup_step; [reflexivity| |exact H].
      apply same_progress_refl. }
    destruct (i =? 2); [right; left; eapply restart_step; exact H|].
    injection H as <-. auto.
  - unfold Game.handle_game_over_action in H.
    destruct (i =? 0).
    { right; left. eapply setup_step; [reflexivity| |exact H].
      unfold same_progress; cbn; repeat split; try lia; auto. }
    destruct (i =? 1); [right; left; eapply restart_step; exact H|].
    injection H as <-. auto.
  - unfold Game.goto_next_level in H.
    destruct (Game.current_level_index g <? Z.of_nat (List.length LEVELS) - 1);
      [|right; left; eapply restart_step; exact H].
    right; left. eapply setup_step; [reflexivity| |exact H].
    destruct (Game.current_level_index
                (Game.set_current_level_index g (Game.current_level_index g + 1))
              >? Game.saved_level_index
                   (Game.set_current_level_index g (Game.current_level_index g + 1)))
      eqn:E; unfold same_progress; cbn; cbn in E; repeat split; try lia;
      auto.
  - right; left. eapply restart_step; exact H.
  - right; right; left. unfold Game.shop_leave. eauto.
  - unfold Game.shop_buy. destruct (Game.global_coins g >=? price); eauto 6.
Qed.

(** ** What a frame leaves alone *)

Lemma map_trap_update ts dt : map (fun tr => Trap.update tr dt) ts = ts.
Proof. unfold Trap.update. apply map_id. Qed.

Lemma rect_set_score p n : Player.rect (Player.set_score p n) = Player.rect p.
Proof. reflexivity. Qed.

Lemma rect_kill p d : Player.rect (Player.kill p d) = Player.rect p.
Proof. reflexivity. Qed.

(** The player phase and the trap updates change the player and the sounds
    only. *)
Lemma player_phase_keeps g inp g1 :
  Game.player_phase g inp = Done g1 ->
  Game.stars g1 = Game.stars g /\
  Game.stars_collected_count g1 = Game.stars_collected_count g /\
  Game.collectibles g1 = Game.collectibles g /\
  Game.dots g1 = Game.dots g /\
  Game.traps g1 = Game.traps g /\
  Game.global_coins g1 = Game.global_coins g /\
  Game.level_stars g1 = Game.level_stars g /\
  Game.saved_level_index g1 = Game.saved_level_index g /\
  Game.current_level_index g1 = Game.current_level_index g /\
  Game.exit_portal g1 = Game.exit_portal g /\
  Game.tilemap g1 = Game.tilemap g /\
  Game.lives g1 = Game.lives g /\ Game.state g1 = Game.state g.
Proof.
  intros H. destruct (player_phase_spec g inp g1 H) as [p [s [-> _]]].
  repeat split.
Qed.

(** The four collision checks, field by field. *)
Lemma collision_checks_keeps g :
  Game.stars (collision_checks g)
  = mark_first_star (Player.rect (Game.player g)) (Game.stars g) /\
  Game.stars_collected_count (collision_checks g)
  = Game.stars_collected_count g
    + (if existsb (Game.star_hit (Player.rect (Game.player g))) (Game.stars g)
       then 1 else 0) /\
  Game.global_coins (collision_checks g)
  = Game.global_coins g + Z.of_nat (coins_now g) /\
  Game.level_stars (collision_checks g) = Game.level_stars g /\
  Game.saved_level_index (collision_checks g) = Game.saved_level_index g.
Proof.
  unfold collision_checks.
  set (g1 := Game.handle_collectibles g).
  set (g2 := Game.handle_traps g1).
  set (g3 := Game.handle_stars g2).
  assert (H1 : Game.stars g1 = Game.stars g /\
               Game.stars_collected_count g1 = Game.stars_collected_count g /\
               Game.global_coins g1 = Game.global_coins g + Z.of_nat (coins_now g) /\
               Game.level_stars g1 = Game.level_stars g /\
               Game.saved_level_index g1 = Game.saved_level_index g /\
               Player.rect (Game.player g1) = Player.rect (Game.player g)).
  { unfold g1. rewrite handle_collectibles_eq. repeat split. }
  assert (H2 : Game.stars g2 = Game.stars g1 /\
               Game.stars_collected_count g2 = Game.stars_collected_count g1 /\
               Game.global_coins g2 = Game.global_coins g1 /\
               Game.level_stars g2 = Game.level_stars g1 /\
               Game.saved_level_index g2 = Game.saved_level_index g1 /\
               Player.rect (Game.player g2) = Player.rect (Game.player g1)).
  { unfold g2. rewrite handle_traps_eq. destruct (trap_hit_now g1);
      repeat split. }
  assert (H3 : Game.stars g3
               = mark_first_star (Player.rect (Game.player g2)) (Game.stars g2) /\
               Game.stars_collected_count g3
               = Game.stars_collected_count g2
                 + (if star_hit_now g2 then 1 else 0) /\
               Game.global_coins g3 = Game.global_coins g2 /\
               Game.level_stars g3 = Game.level_stars g2 /\
               Game.saved_level_index g3 = Game.saved_level_index g2).
  { unfold g3. rewrite handle_stars_eq. destruct (star_hit_now g2);
      cbn; repeat split; lia. }
  assert (H4 : Game.stars (Game.handle_dots g3) = Game.stars g3 /\
               Game.stars_collected_count (Game.handle_dots g3)
               = Game.stars_collected_count g3 /\
               Game.global_coins (Game.handle_dots g3) = Game.global_coins g3 /\
               Game.level_stars (Game.handle_dots g3) = Game.level_stars g3 /\
               Game.saved_level_index (Game.handle_dots g3)
               = Game.saved_level_index g3).
  { rewrite handle_dots_eq. repeat split. }
  destruct H1 as [A1 [A2 [A3 [A4 [A5 A6]]]]].
  destruct H2 as [B1 [B2 [B3 [B4 [B5 B6]]]]].
  destruct H3 as [C1 [C2 [C3 [C4 C5]]]].
  destruct H4 as [D1 [D2 [D3 [D4 D5]]]].
  unfold star_hit_now in C2. rewrite B6, A6, B1, A1 in C1, C2.
  repeat split; congruence.
Qed.

Lemma life_loss_check_keeps g :
  Game.stars (Game.life_loss_check g) = Game.stars g /\
  Game.stars_collected_count (Game.life_loss_check g)
  = Game.stars_collected_count g /\
  Game.global_coins (Game.life_loss_check g) = Game.global_coins g /\
  Game.level_stars (Game.life_loss_check g) = Game.level_stars g /\
  Game.saved_level_index (Game.life_loss_check g) = Game.saved_level_index g /\
  Game.current_level_index (Game.life_loss_check g) = Game.current_level_index g.
Proof.
  destruct (life_loss_check_cases g) as [->|[[_ ->]|[_ ->]]]; repeat split.
Qed.

Lemma pause_check_keeps g inp :
  Game.stars (Game.pause_check g inp) = Game.stars g /\
  Game.stars_collected_count (Game.pause_check g inp)
  = Game.stars_collected_count g /\
  Game.global_coins (Game.pause_check g inp) = Game.global_coins g /\
  Game.level_stars (Game.pause_check g inp) = Game.level_stars g /\
  Game.saved_level_index (Game.pause_check g inp) = Game.saved_level_index g.
Proof. unfold Game.pause_check. destruct (pause_requested inp); repeat split. Qed.

(** ** The star records *)

Lemma dict_get_set_same d k v default :
  dict_get (dict_set d k v) k default = v.
Proof.
  induction d as [|[k' v'] d IH]; cbn [dict_set dict_get].
  - now rewrite String.eqb_refl.
  - destruct (String.eqb k k') eqn:E; cbn [dict_get].
    + now rewrite String.eqb_refl.
    + rewrite E. exact IH.
Qed.

Lemma dict_get_set_other d k k' v default :
  k' <> k -> dict_get (dict_set d k v) k' default = dict_get d k' default.
Proof.
  intros Hne. induction d as [|[k0 v0] d IH]; cbn [dict_set dict_get].
  - destruct (String.eqb_spec k' k); [contradiction|reflexivity].
  - destruct (String.eqb_spec k k0) as [->|Hk]; cbn [dict_get].
    + destruct (String.eqb_spec k' k0); [contradiction|reflexivity].
    + destruct (String.eqb k' k0); [reflexivity|exact IH].
Qed.

Lemma update_level_stars_record_spec g g' :
  Game.update_level_stars_record g = Done g' ->
  exists name,
    py_index LEVELS (Game.current_level_index g) = Done name /\
    dict_get (Game.level_stars g') name 0
    = Z.max (dict_get (Game.level_stars g) name 0) (Game.stars_collected_count g) /\
    (forall k default, k <> name ->
       dict_get (Game.level_stars g') k default
       = dict_get (Game.level_stars g) k default) /\
    g' = Game.set_level_stars g (Game.level_stars g').
Proof.
  unfold Game.update_level_stars_record. intros H.
  destruct (py_index LEVELS (Game.current_level_index g)) as [name| |];
    try discriminate.
  cbn [bind] in H. exists name. split; [reflexivity|].
  destruct (Z.gtb_spec (Game.stars_collected_count g)
              (dict_get (Game.level_stars g) name 0)) as [Hgt|Hle];
    injection H as <-.
  - cbn [Game.level_stars Game.set_level_stars].
    split; [rewrite dict_get_set_same; lia|].
    split; [intros k default Hk; now apply dict_get_set_other|reflexivity].
  - split; [lia|]. split; [reflexivity|]. now destruct g.
Qed.

Lemma exit_check_keeps g g' :
  Game.exit_check g = Done g' ->
  Game.stars g' = Game.stars g /\
  Game.stars_collected_count g' = Game.stars_collected_count g /\
  Game.global_coins g' = Game.global_coins g /\
  Game.saved_level_index g' = Game.saved_level_index g /\
  (forall name, dict_get (Game.level_stars g) name 0
                <= dict_get (Game.level_stars g') name 0).
Proof.
  unfold Game.exit_check. intros H.
  destruct (Exit.check_hit (Game.exit_portal g) (Player.rect (Game.player g))).
  - destruct (Game.update_level_stars_record (Game.play g [SfxWin]))
      as [g1| |] eqn:E; try discriminate.
    cbn [bind] in H. injection H as <-.
    destruct (update_level_stars_record_spec _ _ E) as [name [_ [Hmax [Hoth Hg1]]]].
    rewrite Hg1. cbn. repeat split.
    intros k. destruct (String.eqb_spec k name) as [->|Hne].
    + cbn in Hmax. rewrite Hmax. lia.
    + rewrite (Hoth k 0 Hne). cbn. lia.
  - injection H as <-. repeat split. intros; lia.
Qed.

Lemma bind_done_inv {A B} (m : outcome A) (k : A -> outcome B) (b : B) :
  bind m k = Done b -> exists a, m = Done a /\ k a = Done b.
Proof. destruct m as [a| |]; try discriminate. intros H. exists a. auto. Qed.

Lemma update_traps_id g dt : Game.update_traps g dt = g.
Proof. unfold Game.update_traps. rewrite map_trap_update. now destruct g. Qed.

Lemma update_playing_inv g inp g' :
  Game.update_playing g inp = Done g' ->
  exists g1 g8,
    Game.player_phase g inp = Done g1 /\
    Game.exit_check (Game.life_loss_check (collision_checks g1)) = Done g8 /\
    g' = Game.pause_check g8 inp.
Proof.
  intros H. unfold Game.update_playing in H.
  apply bind_done_inv in H. destruct H as [g1 [E1 H]].
  apply bind_done_inv in H. destruct H as [g8 [E8 H]].
  injection H as <-. rewrite update_traps_id in E8.
  exists g1, g8. split; [exact E1|]. split; [exact E8|reflexivity].
Qed.

(** A gameplay frame, on the stars, the coins and the progress. *)
Lemma update_playing_keeps g inp g' :
  Game.update_playing g inp = Done g' ->
  exists g1,
    Game.player_phase g inp = Done g1 /\
    Game.stars g'
    = mark_first_star (Player.rect (Game.player g1)) (Game.stars g) /\
    Game.stars_collected_count g'
    = Game.stars_collected_count g
      + (if existsb (Game.star_hit (Player.rect (Game.player g1))) (Game.stars g)
         then 1 else 0) /\
    Game.global_coins g'
    = Game.global_coins g + Z.of_nat (coins_now g1) /\
    Game.saved_level_index g' = Game.saved_level_index g /\
    (forall name, dict_get (Game.level_stars g) name 0
                  <= dict_get (Game.level_stars g') name 0).
Proof.
  intros H. destruct (update_playing_inv g inp g' H) as [g1 [g8 [E1 [E8 ->]]]].
  exists g1. split; [exact E1|].
  destruct (player_phase_keeps g inp g1 E1)
    as [P1 [P2 [_ [_ [_ [P3 [P4 [P5 _]]]]]]]].
  destruct (collision_checks_keeps g1) as [C1 [C2 [C3 [C4 C5]]]].
  destruct (life_loss_check_keeps (collision_checks g1))
    as [L1 [L2 [L3 [L4 [L5 _]]]]].
  destruct (exit_check_keeps _ _ E8) as [X1 [X2 [X3 [X4 X5]]]].
  destruct (pause_check_keeps g8 inp) as [Q1 [Q2 [Q3 [Q4 Q5]]]].
  rewrite Q1, Q2, Q3, Q5, X1, X2, X3, X4, L1, L2, L3, L5, C1, C2, C3, C5,
    P1, P2, P3, P5.
  repeat split. intros name. specialize (X5 name).
  rewrite Q4. rewrite L4, C4, P4 in X5. exact X5.
Qed.

(** ** The stars *)

Lemma collected_mark_first r ss :
  collected_stars (mark_first_star r ss)
  = collected_stars ss + (if existsb (Game.star_hit r) ss then 1 else 0) /\
  List.length (mark_first_star r ss) = List.length ss.
Proof.
  unfold collected_stars. induction ss as [|s rest [IH1 IH2]]; [split; reflexivity|].
  cbn [mark_first_star existsb].
  destruct (Game.star_hit r s) eqn:Hhit; cbn [orb].
  - unfold Game.star_hit in Hhit. apply andb_true_iff in Hhit.
    destruct Hhit as [Hc _]. apply negb_true_iff in Hc.
    cbn [filter Star.set_collected Star.collected List.length]. rewrite Hc.
    split; [lia|reflexivity].
  - cbn [filter List.length]. destruct (Star.collected s); cbn [List.length];
      split; lia.
Qed.

Lemma setup_stars_counted load_level g ps g' :
  Game.setup_level load_level g ps = Done g' -> stars_counted g'.
Proof.
  intros H. unfold stars_counted.
  destruct (setup_level_result _ _ _ _ H)
    as [name [_ [_ [_ [[_ [_ [E3 _]]] [Hc _]]]]]].
  destruct (scan_rows_spec (TileMap.level_data (Game.tilemap g')) 0 no_entities)
    as [_ [_ [S3 _]]].
  cbn [no_entities e_stars app] in S3.
  rewrite Hc, E3, S3. symmetry. apply stars_init_uncollected.
Qed.

Lemma step_stars_counted load_level g g' :
  Game.step load_level g g' -> stars_counted g -> stars_counted g'.
Proof.
  intros Hstep Hinv.
  destruct (step_cases load_level g g' Hstep)
    as [[inp [_ [_ H]]]|[[g0 [g1 [ps [s [_ [H ->]]]]]]|[[s ->]|[->|[c ->]]]]].
  - destruct (update_playing_keeps g inp g' H) as [g1 [_ [Hs [Hc _]]]].
    unfold stars_counted in *. rewrite Hs, Hc, Hinv.
    destruct (collected_mark_first (Player.rect (Game.player g1)) (Game.stars g))
      as [-> _].
    reflexivity.
  - exact (setup_stars_counted _ _ _ _ H).
  - exact Hinv.
  - exact Hinv.
  - exact Hinv.
Qed.

(** X18: in every state the game reaches, the star counter is the number
    of stars of the level that are marked collected. *)
Theorem star_counter_counts_stars (load_level : string -> list string)
    (save : SaveData) (g : Game.t) :
  Game.reachable load_level save g ->
  Game.stars_collected_count g = collected_stars (Game.stars g) /\
  0 <= Game.stars_collected_count g <= Z.of_nat (List.length (Game.stars g)).
Proof.
  intros H.
  assert (Hc : stars_counted g).
  { induction H as [g H|g g' _ IH Hstep].
    - unfold Game.init in H. exact (setup_stars_counted _ _ _ _ H).
    - exact (step_stars_counted _ _ _ Hstep IH). }
  split; [exact Hc|]. rewrite Hc. unfold collected_stars.
  pose proof (filter_length_le Star.collected (Game.stars g)). lia.
Qed.

Lemma star_counter_counts_stars_witness :
  Game.stars_collected_count (started example_level)
  = collected_stars (Game.stars (started example_level)).
Proof.
  apply (star_counter_counts_stars (fun _ => example_level) default_save
           (started example_level)).
  apply start_level_reachable. vm_compute. reflexivity.
Defined.

(** X19: a gameplay frame collects at most one star: the first star of
    the list that is not collected yet and touches the rectangle of the
    player as it stands after its move.  The counter goes up by one with
    it, and never down. *)
Theorem at_most_one_star_a_frame (g : Game.t) (inp : FrameInput) (g' : Game.t) :
  Game.update_playing g inp = Done g' ->
  exists g1,
    Game.player_phase g inp = Done g1 /\
    Game.stars g'
    = mark_first_star (Player.rect (Game.player g1)) (Game.stars g) /\
    Game.stars_collected_count g'
    = Game.stars_collected_count g
      + (if existsb (Game.star_hit (Player.rect (Game.player g1))) (Game.stars g)
         then 1 else 0) /\
    collected_stars (Game.stars g') - collected_stars (Game.stars g)
    = Game.stars_collected_count g' - Game.stars_collected_count g /\
    Game.stars_collected_count g <= Game.stars_collected_count g'
      <= Game.stars_collected_count g + 1 /\
    List.length (Game.stars g') = List.length (Game.stars g).
Proof.
  intros H. destruct (update_playing_keeps g inp g' H) as [g1 [E1 [Hs [Hc _]]]].
  exists g1. split; [exact E1|]. split; [exact Hs|]. split; [exact Hc|].
  destruct (collected_mark_first (Player.rect (Game.player g1)) (Game.stars g))
    as [Hm Hl].
  rewrite Hs, Hc, Hm, Hl.
  destruct (existsb (Game.star_hit (Player.rect (Game.player g1))) (Game.stars g));
    repeat split; lia.
Qed.

Lemma at_most_one_star_a_frame_witness :
  exists g',
    Game.update_playing trap_under_star (hold_right (16 # 1000) false) = Done g' /\
    Game.stars_collected_count trap_under_star <= Game.stars_collected_count g'
      <= Game.stars_collected_count trap_under_star + 1.
Proof.
  eexists. split; [vm_compute; reflexivity|].
  match goal with
  | |- _ <= Game.stars_collected_count ?g <= _ =>
      destruct (at_most_one_star_a_frame trap_under_star
                  (hold_right (16 # 1000) false) g)
        as [g1 [_ [_ [_ [_ [H _]]]]]]; [vm_compute; reflexivity|exact H]
  end.
Defined.

(** ** The progress of the player *)

(** X20: progress is never lost.  Along every transition of the game the
    saved level index does not decrease, nor does the best star count
    recorded for any level. *)
Theorem progress_never_lost (load_level : string -> list string)
    (g g' : Game.t) :
  Game.step load_level g g' ->
  Game.saved_level_index g <= Game.saved_level_index g' /\
  (forall name, dict_get (Game.level_stars g) name 0
                <= dict_get (Game.level_stars g') name 0).
Proof.
  intros Hstep.
  destruct (step_cases load_level g g' Hstep)
    as [[inp [_ [_ H]]]|[[g0 [g1 [ps [s [Hsp [H ->]]]]]]|[[s ->]|[->|[c ->]]]]].
  - destruct (update_playing_keeps g inp g' H) as [g1 [_ [_ [_ [_ [Hs Hr]]]]]].
    split; [lia|exact Hr].
  - destruct (setup_level_result _ _ _ _ H)
      as [name [_ [_ [_ [_ [_ [_ [_ [_ [_ [Hs [_ Hl]]]]]]]]]]]].
    destruct Hsp as [_ [Hl0 [Hs0 _]]].
    cbn [Game.saved_level_index Game.level_stars Game.set_state].
    rewrite Hs, Hl, Hl0. split; [exact Hs0|]. intros; lia.
  - cbn. split; [lia|intros; lia].
  - split; [lia|intros; lia].
  - cbn. split; [lia|intros; lia].
Qed.

Lemma progress_never_lost_witness :
  exists g',
    Game.goto_next_level (fun _ => example_level) (started example_level)
      = Done g' /\
    Game.saved_level_index (started example_level) <= Game.saved_level_index g'.
Proof.
  eexists. split; [vm_compute; reflexivity|].
  match goal with
  | |- _ <= Game.saved_level_index ?g =>
      apply (progress_never_lost (fun _ => example_level)
               (started example_level) g)
  end.
  apply Game.step_next_level. vm_compute. reflexivity.
Defined.

(** X21: [update_level_stars_record] keeps the best: for a level index
    that names a level it returns, the record of the current level becomes
    the larger of the record so far (0 when there is none) and the stars
    collected, the records of the other levels are as before, and nothing
    else of the game changes. *)
Theorem best_star_record (g : Game.t) :
  - Z.of_nat (List.length LEVELS) <= Game.current_level_index g
    < Z.of_nat (List.length LEVELS) ->
  exists g' name,
    Game.update_level_stars_record g = Done g' /\
    py_index LEVELS (Game.current_level_index g) = Done name /\
    dict_get (Game.level_stars g') name 0
    = Z.max (dict_get (Game.level_stars g) name 0) (Game.stars_collected_count g) /\
    (forall k default, k <> name ->
       dict_get (Game.level_stars g') k default
       = dict_get (Game.level_stars g) k default) /\
    g' = Game.set_level_stars g (Game.level_stars g').
Proof.
  intros Hi. destruct (py_index_levels_total _ Hi) as [name Hname].
  assert (Hrun : exists g', Game.update_level_stars_record g = Done g').
  { unfold Game.update_level_stars_record. rewrite Hname. cbn [bind].
    destruct (Game.stars_collected_count g >? dict_get (Game.level_stars g) name 0);
      eauto. }
  destruct Hrun as [g' Hrun]. exists g', name. split; [exact Hrun|].
  destruct (update_level_stars_record_spec g g' Hrun) as [n [Hn Hrest]].
  assert (n = name) by congruence. subst n.
  split; [exact Hname|exact Hrest].
Qed.

Lemma best_star_record_witness :
  exists g' name,
    Game.update_level_stars_record
      (Game.set_stars_collected_count (started example_level) 2) = Done g' /\
    dict_get (Game.level_stars g') name 0 = 2.
Proof.
  destruct (best_star_record
              (Game.set_stars_collected_count (started example_level) 2))
    as [g' [name [H1 [_ [H2 _]]]]];
    [vm_compute; split; [discriminate|reflexivity]|].
  exists g', name. split; [exact H1|]. rewrite H2. vm_compute. reflexivity.
Defined.

(** ** Coins and dots are counted once *)

Lemma tile_match_collect_at px py c :
  Game.tile_match px py (collect_at px py c) = false.
Proof.
  unfold collect_at. destruct (Game.tile_match px py c) eqn:E; [|exact E].
  reflexivity.
Qed.

Lemma collect_at_twice px py c :
  collect_at px py (collect_at px py c) = collect_at px py c.
Proof.
  unfold collect_at at 1. now rewrite tile_match_collect_at.
Qed.

Lemma filter_none {A} (f : A -> bool) (l : list A) :
  (forall a, In a l -> f a = false) -> filter f l = [].
Proof.
  induction l as [|a l IH]; intros H; [reflexivity|].
  cbn [filter]. rewrite (H a (or_introl eq_refl)). apply IH.
  intros b Hb. apply H. now right.
Qed.

Lemma filter_twice {A} (f : A -> bool) (l : list A) :
  filter f (filter f l) = filter f l.
Proof.
  induction l as [|a l IH]; [reflexivity|].
  cbn [filter]. destruct (f a) eqn:E; [|exact IH].
  cbn [filter]. rewrite E. now rewrite IH.
Qed.

Lemma filter_split_length {A} (f : A -> bool) (l : list A) :
  List.length l
  = (List.length (filter (fun a => negb (f a)) l) + List.length (filter f l))%nat.
Proof.
  induction l as [|a l IH]; [reflexivity|].
  cbn [filter]. destruct (f a); cbn [negb List.length]; lia.
Qed.

(** X22: no coin and no dot is counted twice.  [handle_collectibles] adds
    to the coins and to the score the number of coins on the tile of the
    player that were not collected yet, and leaves none of them to
    collect; the dot check removes the dots that touch the player, and
    plays one sound for each.  Running either check again changes
    nothing. *)
Theorem coins_and_dots_counted_once (g : Game.t) :
  Game.global_coins (Game.handle_collectibles g)
  = Game.global_coins g + Z.of_nat (coins_now g) /\
  Player.score (Game.player (Game.handle_collectibles g))
  = Player.score (Game.player g) + Z.of_nat (coins_now g) /\
  Game.sfx_played (Game.handle_collectibles g)
  = Game.sfx_played g ++ repeat SfxCoin (coins_now g) /\
  coins_now (Game.handle_collectibles g) = 0%nat /\
  Game.handle_collectibles (Game.handle_collectibles g)
  = Game.handle_collectibles g /\
  List.length (Game.dots g)
  = (List.length (Game.dots (Game.handle_dots g)) + dots_now g)%nat /\
  Game.sfx_played (Game.handle_dots g)
  = Game.sfx_played g ++ repeat SfxDot (dots_now g) /\
  dots_now (Game.handle_dots g) = 0%nat /\
  Game.handle_dots (Game.handle_dots g) = Game.handle_dots g.
Proof.
  set (px := fst (Player.get_tile_pos (Game.player g))).
  set (py := snd (Player.get_tile_pos (Game.player g))).
  assert (Hc0 : coins_now (Game.handle_collectibles g) = 0%nat).
  { unfold coins_now. rewrite handle_collectibles_eq.
    cbn [Game.player Game.collectibles Game.set_collectibles collect_coins
         Game.set_global_coins Game.set_player].
    change (Player.get_tile_pos
              (Player.set_score (Game.player g)
                 (Player.score (Game.player g) + Z.of_nat (coins_now g))))
      with (Player.get_tile_pos (Game.player g)).
    fold px py. rewrite filter_none; [reflexivity|].
    intros c Hc. apply in_map_iff in Hc. destruct Hc as [c0 [<- _]].
    apply tile_match_collect_at. }
  assert (Hd0 : dots_now (Game.handle_dots g) = 0%nat).
  { unfold dots_now. rewrite handle_dots_eq.
    cbn [Game.player Game.dots Game.set_dots Game.play].
    rewrite filter_none; [reflexivity|].
    intros d Hd. apply filter_In in Hd. destruct Hd as [_ Hd].
    now apply negb_true_iff in Hd. }
  split; [rewrite handle_collectibles_eq; reflexivity|].
  split; [rewrite handle_collectibles_eq; reflexivity|].
  split; [rewrite handle_collectibles_eq; reflexivity|].
  split; [exact Hc0|].
  split.
  { rewrite (handle_collectibles_eq (Game.handle_collectibles g)), Hc0,
      collect_coins_0.
    rewrite handle_collectibles_eq.
    cbn [Game.player Game.collectibles Game.set_collectibles collect_coins
         Game.set_global_coins Game.set_player].
    change (Player.get_tile_pos
              (Player.set_score (Game.player g)
                 (Player.score (Game.player g) + Z.of_nat (coins_now g))))
      with (Player.get_tile_pos (Game.player g)).
    fold px py. rewrite map_map.
    rewrite (map_ext _ (collect_at px py) (collect_at_twice px py)).
    reflexivity. }
  split.
  { rewrite handle_dots_eq. cbn [Game.dots Game.set_dots]. unfold dots_now.
    apply filter_split_length. }
  split; [rewrite handle_dots_eq; reflexivity|].
  split; [exact Hd0|].
  rewrite (handle_dots_eq (Game.handle_dots g)), Hd0. cbn [repeat].
  rewrite play_nil. rewrite handle_dots_eq.
  cbn [Game.player Game.dots Game.set_dots Game.play].
  rewrite filter_twice. reflexivity.
Qed.

(** ** Every frame returns *)

(** X23: in every state the game reaches the grid is rectangular, the
    level index names a level, there are never more than [MAX_LIVES]
    lives, and a gameplay frame of any frame time that is not negative
    returns: no index outside the grid is read and no division by zero
    happens. *)
Theorem frame_never_raises (load_level : string -> list string)
    (save : SaveData) (g : Game.t) (inp : FrameInput) :
  Game.reachable load_level save g -> (0 <= dt inp)%Q ->
  TileMap.rectangular (Game.tilemap g) /\
  - Z.of_nat (List.length LEVELS) <= Game.current_level_index g
    < Z.of_nat (List.length LEVELS) /\
  Game.lives g <= MAX_LIVES /\
  exists g', Game.update_playing g inp = Done g' /\ game_invariant g'.
Proof.
  intros Hreach Hdt. pose proof (reachable_invariant _ _ _ Hreach) as Hinv.
  destruct Hinv as [Hrect [Hidx [Hlives Hp]]].
  split; [exact Hrect|]. split; [exact Hidx|]. split; [exact Hlives|].
  pose proof (reachable_invariant _ _ _ Hreach) as Hinv.
  destruct (update_playing_total g inp Hinv Hdt) as [g' Hrun].
  exists g'. split; [exact Hrun|].
  exact (update_playing_invariant g inp g' Hrun Hinv).
Qed.

Lemma frame_never_raises_witness :
  exists g',
    Game.update_playing (started example_level) (hold_right (16 # 1000) false)
    = Done g'.
Proof.
  destruct (frame_never_raises (fun _ => example_level) default_save
              (started example_level) (hold_right (16 # 1000) false))
    as [_ [_ [_ [g' [H _]]]]].
  - apply start_level_reachable. vm_compute. reflexivity.
  - vm_compute. discriminate.
  - exists g'. exact H.
Defined.

(** ** From level to level *)

Lemma setup_level_total load_level g ps :
  - Z.of_nat (List.length LEVELS) <= Game.current_level_index g
    < Z.of_nat (List.length LEVELS) ->
  exists g', Game.setup_level load_level g ps = Done g'.
Proof.
  intros Hi. destruct (py_index_levels_total _ Hi) as [name Hname].
  unfold Game.setup_level. rewrite Hname. cbn [bind]. eauto.
Qed.

Lemma py_index_levels_raises i :
  i < - Z.of_nat (List.length LEVELS) \/ Z.of_nat (List.length LEVELS) <= i ->
  py_index LEVELS i = Raised.
Proof.
  intros Hi. unfold py_index.
  set (n := Z.of_nat (List.length LEVELS)) in *.
  destruct (Z.ltb_spec i 0).
  - destruct (Z.leb_spec 0 (i + n)); [|reflexivity].
    destruct (Z.ltb_spec (i + n) n); [lia|reflexivity].
  - destruct (Z.leb_spec 0 i); [|reflexivity].
    destruct (Z.ltb_spec i n); [lia|reflexivity].
Qed.

(** What a level set up from [g0] and entered in state [s] looks like. *)
Lemma setup_then_state_fields load_level g0 ps s g1 :
  Game.setup_level load_level g0 ps = Done g1 ->
  Game.state (Game.set_state g1 s) = s /\
  Game.lives (Game.set_state g1 s) = Game.lives g0 /\
  Game.current_level_index (Game.set_state g1 s) = Game.current_level_index g0 /\
  Game.saved_level_index (Game.set_state g1 s) = Game.saved_level_index g0 /\
  Game.global_coins (Game.set_state g1 s) = Game.global_coins g0 /\
  Game.level_stars (Game.set_state g1 s) = Game.level_stars g0 /\
  Game.stars_collected_count (Game.set_state g1 s) = 0 /\
  Game.sfx_played (Game.set_state g1 s)
  = Game.sfx_played g0 ++ (if ps then [SfxStart] else []) /\
  ready (Game.player (Game.set_state g1 s)).
Proof.
  intros H.
  destruct (setup_level_result _ _ _ _ H)
    as [name [_ [_ [Hp [_ [Hc [Hsfx [_ [Hl [Hi [Hs [Hco Hls]]]]]]]]]]]].
  cbn [Game.state Game.lives Game.current_level_index Game.saved_level_index
       Game.global_coins Game.level_stars Game.stars_collected_count
       Game.sfx_played Game.player Game.set_state].
  rewrite Hl, Hi, Hs, Hco, Hls, Hc, Hsfx, Hp. repeat split.
Qed.

(** X24: [goto_next_level] never raises for a level index that names a
    level.  Before the last level it enters the next one in state
    "playing", with the lives as they are, and the saved level index
    becomes the larger of itself and the new index; from the last level it
    goes back to the menu on the first level, with [MAX_LIVES] lives and
    the saved index untouched.  The coins and the star records stay, and
    the star counter starts from zero. *)
Theorem next_level_or_menu (load_level : string -> list string) (g : Game.t) :
  - Z.of_nat (List.length LEVELS) <= Game.current_level_index g
    < Z.of_nat (List.length LEVELS) ->
  exists g',
    Game.goto_next_level load_level g = Done g' /\
    Game.global_coins g' = Game.global_coins g /\
    Game.level_stars g' = Game.level_stars g /\
    Game.stars_collected_count g' = 0 /\
    ready (Game.player g') /\
    (Game.current_level_index g < Z.of_nat (List.length LEVELS) - 1 ->
     Game.state g' = Playing /\
     Game.current_level_index g' = Game.current_level_index g + 1 /\
     Game.saved_level_index g'
     = Z.max (Game.saved_level_index g) (Game.current_level_index g + 1) /\
     Game.lives g' = Game.lives g /\
     Game.sfx_played g' = Game.sfx_played g ++ [SfxStart]) /\
    (Game.current_level_index g = Z.of_nat (List.length LEVELS) - 1 ->
     Game.state g' = Menu /\
     Game.current_level_index g' = 0 /\
     Game.saved_level_index g' = Game.saved_level_index g /\
     Game.lives g' = MAX_LIVES /\
     Game.sfx_played g' = Game.sfx_played g).
Proof.
  intros Hi. unfold Game.goto_next_level, Game.restart_game.
  destruct (Z.ltb_spec (Game.current_level_index g)
              (Z.of_nat (List.length LEVELS) - 1)) as [Hlt|Hge].
  - set (g1 := Game.set_current_level_index g (Game.current_level_index g + 1)).
    set (g2 := if Game.current_level_index g1 >? Game.saved_level_index g1
               then Game.set_saved_level_index g1 (Game.current_level_index g1)
               else g1).
    assert (H2 : Game.current_level_index g2 = Game.current_level_index g + 1 /\
                 Game.saved_level_index g2
                 = Z.max (Game.saved_level_index g) (Game.current_level_index g + 1) /\
                 Game.lives g2 = Game.lives g /\
                 Game.global_coins g2 = Game.global_coins g /\
                 Game.level_stars g2 = Game.level_stars g /\
                 Game.sfx_played g2 = Game.sfx_played g).
    { unfold g2.
      destruct (Z.gtb_spec (Game.current_level_index g1) (Game.saved_level_index g1))
        as [Hgt|Hle]; unfold g1 in *; cbn in *; repeat split; lia. }
    destruct H2 as [A1 [A2 [A3 [A4 [A5 A6]]]]].
    destruct (setup_level_total load_level g2 true) as [g3 Hrun];
      [rewrite A1; lia|].
    rewrite Hrun. cbn [bind]. exists (Game.set_state g3 Playing).
    destruct (setup_then_state_fields _ _ _ Playing _ Hrun)
      as [B1 [B2 [B3 [B4 [B5 [B6 [B7 [B8 B9]]]]]]]].
    split; [reflexivity|]. split; [congruence|]. split; [congruence|].
    split; [exact B7|]. split; [exact B9|]. split.
    + intros _. rewrite B1, B2, B3, B4, B8, A1, A2, A3, A6. repeat split.
    + intros Heq. lia.
  - set (g0 := Game.set_current_level_index (Game.set_lives g MAX_LIVES) 0).
    destruct (setup_level_total load_level g0 false) as [g1 Hrun];
      [cbn; lia|].
    rewrite Hrun. cbn [bind]. exists (Game.set_state g1 Menu).
    destruct (setup_then_state_fields _ _ _ Menu _ Hrun)
      as [B1 [B2 [B3 [B4 [B5 [B6 [B7 [B8 B9]]]]]]]].
    split; [reflexivity|]. split; [exact B5|]. split; [exact B6|].
    split; [exact B7|]. split; [exact B9|]. split.
    + intros Hlt. lia.
    + intros _. rewrite B1, B2, B3, B4, B8. unfold g0. cbn.
      rewrite app_nil_r. repeat split.
Qed.

Lemma next_level_or_menu_witness :
  exists g',
    Game.goto_next_level (fun _ => example_level) (started example_level)
      = Done g' /\
    Game.stars_collected_count g' = 0.
Proof.
  destruct (next_level_or_menu (fun _ => example_level) (started example_level))
    as [g' [H1 [_ [_ [H2 _]]]]];
    [vm_compute; split; [discriminate|reflexivity]|].
  exists g'. split; [exact H1|exact H2].
Defined.

(** X25: PLAY in the main menu resumes the saved level.  A saved index
    past the last level starts the first level; a negative one counts from
    the last level, and below minus the number of levels the selection
    raises.  The level is entered in state "playing" with the lives, the
    coins and the saved index as they are. *)
Theorem play_resumes_saved_level (load_level : string -> list string)
    (g : Game.t) :
  (Game.saved_level_index g < - Z.of_nat (List.length LEVELS) ->
   Game.handle_main_menu_selection load_level g Game.PLAY = Raised) /\
  (- Z.of_nat (List.length LEVELS) <= Game.saved_level_index g ->
   exists g',
     Game.handle_main_menu_selection load_level g Game.PLAY = Done g' /\
     Game.state g' = Playing /\
     Game.current_level_index g'
     = (if Game.saved_level_index g >=? Z.of_nat (List.length LEVELS)
        then 0 else Game.saved_level_index g) /\
     Game.lives g' = Game.lives g /\
     Game.global_coins g' = Game.global_coins g /\
     Game.saved_level_index g' = Game.saved_level_index g /\
     Game.stars_collected_count g' = 0 /\
     ready (Game.player g') /\
     Game.sfx_played g' = Game.sfx_played g ++ [SfxStart]).
Proof.
  cbn [Game.handle_main_menu_selection].
  set (g1 := Game.set_current_level_index g (Game.saved_level_index g)).
  set (g2 := if Game.current_level_index g1 >=? Z.of_nat (List.length LEVELS)
             then Game.set_current_level_index g1 0 else g1).
  assert (H2 : Game.current_level_index g2
               = (if Game.saved_level_index g >=? Z.of_nat (List.length LEVELS)
                  then 0 else Game.saved_level_index g) /\
               Game.saved_level_index g2 = Game.saved_level_index g /\
               Game.lives g2 = Game.lives g /\
               Game.global_coins g2 = Game.global_coins g /\
               Game.sfx_played g2 = Game.sfx_played g).
  { unfold g2, g1. cbn [Game.current_level_index Game.set_current_level_index].
    destruct (Game.saved_level_index g >=? Z.of_nat (List.length LEVELS));
      repeat split. }
  destruct H2 as [A1 [A2 [A3 [A4 A5]]]]. split.
  - intros Hlow. unfold Game.setup_level.
    rewrite py_index_levels_raises; [reflexivity|].
    rewrite A1. destruct (Z.geb_spec (Game.saved_level_index g)
                            (Z.of_nat (List.length LEVELS))); lia.
  - intros Hok.
    destruct (setup_level_total load_level g2 true) as [g3 Hrun].
    { rewrite A1. change (Z.of_nat (List.length LEVELS)) with 3 in *.
      destruct (Z.geb_spec (Game.saved_level_index g) 3); lia. }
    rewrite Hrun. cbn [bind]. exists (Game.set_state g3 Playing).
    destruct (setup_then_state_fields _ _ _ Playing _ Hrun)
      as [B1 [B2 [B3 [B4 [B5 [B6 [B7 [B8 B9]]]]]]]].
    rewrite B1, B2, B3, B4, B5, B7, B8, A1, A2, A3, A4, A5.
    repeat (split; [reflexivity|]). split; [exact B9|reflexivity].
Qed.

(** X26: after a game over, Retry enters the same level again with
    [MAX_LIVES] lives, and Menu goes back to the menu on the first level,
    with [MAX_LIVES] lives as well; any other index does nothing.  The
    coins, the saved index and the star records stay. *)
Theorem game_over_actions (load_level : string -> list string) (g : Game.t) :
  - Z.of_nat (List.length LEVELS) <= Game.current_level_index g
    < Z.of_nat (List.length LEVELS) ->
  (exists g',
     Game.handle_game_over_action load_level g 0 = Done g' /\
     Game.state g' = Playing /\ Game.lives g' = MAX_LIVES /\
     Game.current_level_index g' = Game.current_level_index g /\
     Game.global_coins g' = Game.global_coins g /\
     Game.saved_level_index g' = Game.saved_level_index g /\
     Game.level_stars g' = Game.level_stars g /\
     Game.stars_collected_count g' = 0 /\ ready (Game.player g')) /\
  (exists g',
     Game.handle_game_over_action load_level g 1 = Done g' /\
     Game.state g' = Menu /\ Game.lives g' = MAX_LIVES /\
     Game.current_level_index g' = 0 /\
     Game.global_coins g' = Game.global_coins g /\
     Game.saved_level_index g' = Game.saved_level_index g /\
     Game.level_stars g' = Game.level_stars g) /\
  (forall i, i <> 0 -> i <> 1 ->
     Game.handle_game_over_action load_level g i = Done g).
Proof.
  intros Hi. unfold Game.handle_game_over_action, Game.restart_game.
  split; [|split].
  - cbn [Z.eqb].
    destruct (setup_level_total load_level (Game.set_lives g MAX_LIVES) true)
      as [g1 Hrun]; [exact Hi|].
    rewrite Hrun. cbn [bind]. exists (Game.set_state g1 Playing).
    destruct (setup_then_state_fields _ _ _ Playing _ Hrun)
      as [B1 [B2 [B3 [B4 [B5 [B6 [B7 [B8 B9]]]]]]]].
    rewrite B1, B2, B3, B4, B5, B6, B7. repeat (split; [reflexivity|]).
    exact B9.
  - cbn [Z.eqb].
    destruct (setup_level_total load_level
                (Game.set_current_level_index (Game.set_lives g MAX_LIVES) 0)
                false) as [g1 Hrun]; [cbn; lia|].
    rewrite Hrun. cbn [bind]. exists (Game.set_state g1 Menu).
    destruct (setup_then_state_fields _ _ _ Menu _ Hrun)
      as [B1 [B2 [B3 [B4 [B5 [B6 [B7 [B8 B9]]]]]]]].
    rewrite B1, B2, B3, B4, B5, B6. repeat split.
  - intros i H0 H1. destruct (Z.eqb_spec i 0); [contradiction|].
    destruct (Z.eqb_spec i 1); [contradiction|reflexivity].
Qed.

Lemma game_over_actions_witness :
  exists g',
    Game.handle_game_over_action (fun _ => example_level)
      (Game.set_lives (started example_level) 0) 0 = Done g' /\
    Game.lives g' = MAX_LIVES.
Proof.
  destruct (game_over_actions (fun _ => example_level)
              (Game.set_lives (started example_level) 0))
    as [[g' [H1 [_ [H2 _]]]] _];
    [vm_compute; split; [discriminate|reflexivity]|].
  exists g'. split; [exact H1|exact H2].
Defined.

(** ** The shop *)

Lemma sorted_skins : Shop.sorted_by_price SKINS = SKINS.
Proof. reflexivity. Qed.

Lemma py_index_in_range {A} (l : list A) (i : Z) :
  0 <= i < Z.of_nat (List.length l) ->
  exists v, py_index l i = Done v /\ nth_error l (Z.to_nat i) = Some v.
Proof.
  intros Hi. unfold py_index.
  destruct (Z.ltb_spec i 0); [lia|].
  destruct (Z.leb_spec 0 i); [|lia].
  destruct (Z.ltb_spec i (Z.of_nat (List.length l))); [|lia]. cbn [andb].
  destruct (nth_error l (Z.to_nat i)) as [v|] eqn:E.
  - exists v. auto.
  - apply nth_error_None in E. lia.
Qed.

Lemma skin_price_nonneg (item : string * Z) : In item SKINS -> 0 <= snd item.
Proof.
  unfold SKINS. cbn [In]. intros [<-|[<-|[<-|[]]]]; cbn; lia.
Qed.

Lemma owned_in s k : Shop.owned s k = true <-> In k (Shop.bought_items s).
Proof.
  unfold Shop.owned. rewrite existsb_exists. split.
  - intros [k' [Hin Heq]]. apply String.eqb_eq in Heq. now subst.
  - intros Hin. exists k. split; [exact Hin|apply String.eqb_refl].
Qed.

Lemma NoDup_snoc {A} (l : list A) (a : A) :
  NoDup l -> ~ In a l -> NoDup (l ++ [a]).
Proof.
  induction l as [|b l IH]; intros Hnd Hin.
  - constructor; [intros []|constructor].
  - inversion Hnd as [|b' l' Hb Hl]; subst. cbn. constructor.
    + rewrite in_app_iff. cbn. intros [H|[H|[]]]; [contradiction|].
      subst. apply Hin. now left.
    + apply IH; [exact Hl|]. intros H. apply Hin. now right.
Qed.

Lemma shop_follows_refl s : Shop.invariant s -> shop_follows s s.
Proof.
  intros H. unfold shop_follows. split; [exact H|]. split; [lia|].
  split; [apply incl_refl|]. split; [auto|now left].
Qed.

Lemma shop_follows_trans s1 s2 s3 :
  shop_follows s1 s2 -> shop_follows s2 s3 -> shop_follows s1 s3.
Proof.
  intros [_ [A2 [A3 [A4 A5]]]] [B1 [B2 [B3 [B4 B5]]]]. unfold shop_follows.
  split; [exact B1|]. split; [lia|]. split; [eapply incl_tran; eauto|].
  split; [auto|]. destruct B5 as [B5|B5]; [rewrite B5; exact A5|now right].
Qed.

(** What [action_item] does, case by case. *)
Lemma action_item_spec s :
  Shop.invariant s ->
  exists s' key price,
    Shop.action_item s = Done s' /\
    nth_error (Shop.items s) (Z.to_nat (Shop.selected_index s))
    = Some (key, price) /\
    Shop.items s' = Shop.items s /\
    Shop.selected_index s' = Shop.selected_index s /\
    Shop.state s' = Shop.state s /\
    ((In key (Shop.bought_items s) /\
      Shop.global_coins s' = Shop.global_coins s /\
      Shop.bought_items s' = Shop.bought_items s /\
      Shop.current_skin s' = key /\
      Shop.sfx_played s' = Shop.sfx_played s ++ [SfxClick]) \/
     (~ In key (Shop.bought_items s) /\ price <= Shop.global_coins s /\
      Shop.global_coins s' = Shop.global_coins s - price /\
      Shop.bought_items s' = Shop.bought_items s ++ [key] /\
      Shop.current_skin s' = key /\
      Shop.sfx_played s' = Shop.sfx_played s ++ [SfxBuy]) \/
     (~ In key (Shop.bought_items s) /\ Shop.global_coins s < price /\
      Shop.global_coins s' = Shop.global_coins s /\
      Shop.bought_items s' = Shop.bought_items s /\
      Shop.current_skin s' = Shop.current_skin s /\
      Shop.sfx_played s' = Shop.sfx_played s ++ [SfxClick])).
Proof.
  intros [Hitems [Hsel _]].
  destruct (py_index_in_range (Shop.items s) (Shop.selected_index s) Hsel)
    as [[key price] [Hpy Hnth]].
  unfold Shop.action_item. rewrite Hpy. cbn [bind fst snd].
  destruct (Shop.owned s key) eqn:Hown.
  - eexists. exists key, price. split; [reflexivity|]. split; [exact Hnth|].
    cbn. repeat split. left. apply owned_in in Hown. repeat split. exact Hown.
  - assert (Hnot : ~ In key (Shop.bought_items s)).
    { intros Hin. apply owned_in in Hin. congruence. }
    destruct (Z.geb_spec (Shop.global_coins s) price) as [Hge|Hlt].
    + eexists. exists key, price. split; [reflexivity|]. split; [exact Hnth|].
      cbn. repeat split. right. left. repeat split; [exact Hnot|lia].
    + eexists. exists key, price. split; [reflexivity|]. split; [exact Hnth|].
      cbn. repeat split. right. right. repeat split; [exact Hnot|lia].
Qed.

Lemma action_item_follows s :
  Shop.invariant s ->
  exists s', Shop.action_item s = Done s' /\ shop_follows s s'.
Proof.
  intros Hinv. pose proof Hinv as [Hitems [Hsel [Hcoins Hnd]]].
  destruct (action_item_spec s Hinv)
    as [s' [key [price [Hrun [Hnth [E1 [E2 [E3 Hcases]]]]]]]].
  exists s'. split; [exact Hrun|].
  assert (Hprice : 0 <= price).
  { apply (skin_price_nonneg (key, price)). rewrite <- sorted_skins, <- Hitems.
    eapply nth_error_In; eauto. }
  unfold shop_follows, Shop.invariant. rewrite E1, E2, E3.
  destruct Hcases as [[Hin [C1 [C2 [C3 _]]]]
                     |[[Hnot [Hle [C1 [C2 [C3 _]]]]]
                      |[Hnot [Hlt [C1 [C2 [C3 _]]]]]]];
    rewrite C1, C2, C3.
  - repeat split; try assumption; try lia; auto using incl_refl.
  - repeat split; try assumption; try lia.
    + apply NoDup_snoc; assumption.
    + apply incl_appl, incl_refl.
    + intros _. apply in_app_iff. right. now left.
    + now left.
  - repeat split; try assumption; try lia; auto using incl_refl.
Qed.

Lemma mod_len_in_range s a :
  Shop.invariant s ->
  exists i, Shop.mod_len s a = Done i /\
            0 <= i < Z.of_nat (List.length (Shop.items s)).
Proof.
  intros [_ [Hsel _]]. unfold Shop.mod_len.
  destruct (Z.eqb_spec (Z.of_nat (List.length (Shop.items s))) 0); [lia|].
  eexists. split; [reflexivity|]. apply Z.mod_pos_bound. lia.
Qed.

Lemma select_follows s e i :
  Shop.invariant s -> 0 <= i < Z.of_nat (List.length (Shop.items s)) ->
  shop_follows s (Shop.set_selected_index (Shop.play s e) i).
Proof.
  intros [H1 [H2 [H3 H4]]] Hi. unfold shop_follows, Shop.invariant. cbn.
  repeat split; try assumption; try lia; auto using incl_refl.
Qed.

Lemma leave_follows s :
  Shop.invariant s -> shop_follows s (Shop.set_state (Shop.play s SfxClick) Menu).
Proof.
  intros [H1 [H2 [H3 H4]]]. unfold shop_follows, Shop.invariant. cbn.
  repeat split; try assumption; try lia; auto using incl_refl.
Qed.

Lemma events_loop_follows events : forall s clicked,
  Shop.invariant s ->
  exists s' clicked',
    Shop.events_loop events s clicked = Done (s', clicked') /\ shop_follows s s'.
Proof.
  induction events as [|e rest IH]; intros s clicked Hinv.
  - exists s, clicked. split; [reflexivity|apply shop_follows_refl; exact Hinv].
  - assert (Hnext : forall s1 c1, shop_follows s s1 ->
              exists s' clicked',
                Shop.events_loop rest s1 c1 = Done (s', clicked') /\
                shop_follows s s').
    { intros s1 c1 Hf. destruct (IH s1 c1) as [s' [c' [Hrun Hf']]];
        [exact (proj1 Hf)|].
      exists s', c'. split; [exact Hrun|]. eapply shop_follows_trans; eauto. }
    destruct e; cbn [Shop.events_loop].
    + apply Hnext. apply leave_follows. exact Hinv.
    + destruct (mod_len_in_range s (Shop.selected_index s - 1) Hinv)
        as [i [-> Hi]].
      cbn [bind]. apply Hnext. apply select_follows; assumption.
    + destruct (mod_len_in_range s (Shop.selected_index s + 1) Hinv)
        as [i [-> Hi]].
      cbn [bind]. apply Hnext. apply select_follows; assumption.
    + destruct (action_item_follows s Hinv) as [s1 [-> Hf]].
      cbn [bind]. apply Hnext. exact Hf.
    + apply Hnext. apply shop_follows_refl. exact Hinv.
    + apply Hnext. apply shop_follows_refl. exact Hinv.
    + apply Hnext. apply shop_follows_refl. exact Hinv.
Qed.

Lemma cards_loop_follows rest : forall i mouse_pos clicked s,
  Shop.invariant s -> 0 <= i ->
  i + Z.of_nat (List.length rest) = Z.of_nat (List.length (Shop.items s)) ->
  exists s', Shop.cards_loop rest i mouse_pos clicked s = Done s' /\
             shop_follows s s'.
Proof.
  induction rest as [|item rest IH]; intros i mouse_pos clicked s Hinv Hi Hlen.
  - exists s. split; [reflexivity|apply shop_follows_refl; exact Hinv].
  - cbn [Shop.cards_loop]. cbn [List.length] in Hlen.
    assert (Hnext : forall s1, shop_follows s s1 ->
              exists s', Shop.cards_loop rest (i + 1) mouse_pos clicked s1 = Done s' /\
                         shop_follows s s').
    { intros s1 Hf. destruct (IH (i + 1) mouse_pos clicked s1) as [s' [Hrun Hf']].
      - exact (proj1 Hf).
      - lia.
      - destruct Hf as [[Hit _] _]. destruct Hinv as [Hit0 _].
        rewrite Hit, <- Hit0. lia.
      - exists s'. split; [exact Hrun|]. eapply shop_follows_trans; eauto. }
    destruct (Shop.collidepoint (Shop.card_rect s i) mouse_pos).
    + set (s1 := if negb (Shop.selected_index s =? i)
                 then Shop.set_selected_index (Shop.play s SfxButton) i
                 else s).
      assert (Hf1 : shop_follows s s1).
      { unfold s1. destruct (negb (Shop.selected_index s =? i)).
        - apply select_follows; [exact Hinv|lia].
        - apply shop_follows_refl. exact Hinv. }
      destruct clicked.
      * destruct (action_item_follows s1 (proj1 Hf1)) as [s2 [-> Hf2]].
        cbn [bind]. apply Hnext. eapply shop_follows_trans; eauto.
      * cbn [bind]. apply Hnext. exact Hf1.
    + apply Hnext. apply shop_follows_refl. exact Hinv.
Qed.

(** X27: [Shop.update] is safe.  From a shop that satisfies the invariant
    (the selection is one of the skins, the coins are not negative, no
    skin is owned twice), any events and any mouse position give a shop
    that satisfies it again: the update never raises, never adds coins or
    makes them negative, never forgets a bought skin, and the skin worn
    stays one that is owned. *)
Theorem shop_update_safe (s : Shop.t) (events : list ShopEvent)
    (mouse_pos : Z * Z) :
  Shop.invariant s ->
  exists s',
    Shop.update s events mouse_pos = Done s' /\
    Shop.invariant s' /\
    0 <= Shop.global_coins s' <= Shop.global_coins s /\
    incl (Shop.bought_items s) (Shop.bought_items s') /\
    (In (Shop.current_skin s) (Shop.bought_items s) ->
     In (Shop.current_skin s') (Shop.bought_items s')) /\
    (Shop.state s' = Shop.state s \/ Shop.state s' = Menu).
Proof.
  intros Hinv. unfold Shop.update.
  destruct (events_loop_follows events s false Hinv) as [s1 [c [-> Hf1]]].
  cbn [bind fst snd].
  set (s2 := if Shop.collidepoint (Rect.mk 20 20 120 50) mouse_pos && c
             then Shop.set_state (Shop.play s1 SfxClick) Menu else s1).
  assert (Hf2 : shop_follows s1 s2).
  { unfold s2. destruct (Shop.collidepoint (Rect.mk 20 20 120 50) mouse_pos && c).
    - apply leave_follows. exact (proj1 Hf1).
    - apply shop_follows_refl. exact (proj1 Hf1). }
  destruct (cards_loop_follows (Shop.items s2) 0 mouse_pos c s2 (proj1 Hf2))
    as [s3 [-> Hf3]]; [lia|lia|].
  exists s3. split; [reflexivity|].
  pose proof (shop_follows_trans _ _ _ (shop_follows_trans _ _ _ Hf1 Hf2) Hf3)
    as [H1 [H2 [H3 [H4 H5]]]].
  split; [exact H1|]. split; [|auto].
  destruct H1 as [_ [_ [H0 _]]]. lia.
Qed.

Lemma shop_update_safe_witness :
  exists s',
    Shop.update (Shop.init 7 ["travel_boy"%string] "travel_boy" Shop)
      [KeyRight; KeyReturn; KeyRight; KeyReturn] (0, 0) = Done s' /\
    0 <= Shop.global_coins s' <= 7.
Proof.
  destruct (shop_update_safe
              (Shop.init 7 ["travel_boy"%string] "travel_boy" Shop)
              [KeyRight; KeyReturn; KeyRight; KeyReturn] (0, 0))
    as [s' [H1 [_ [H2 _]]]].
  - unfold Shop.invariant. split; [reflexivity|].
    split; [vm_compute; split; [discriminate|reflexivity]|].
    split; [vm_compute; discriminate|].
    constructor; [intros []|constructor].
  - exists s'. split; [exact H1|exact H2].
Defined.

(** X28: a skin is paid for once.  [action_item] on the selected skin
    equips it for nothing when it is owned, buys it for its price when the
    coins suffice (it then joins the bought skins and is worn), and only
    clicks otherwise; doing it again right after costs nothing and buys
    nothing. *)
Theorem skin_paid_once (s : Shop.t) :
  Shop.invariant s ->
  exists s1 s2 key price,
    Shop.action_item s = Done s1 /\ Shop.action_item s1 = Done s2 /\
    nth_error (Shop.items s) (Z.to_nat (Shop.selected_index s))
    = Some (key, price) /\
    Shop.global_coins s1
    = (if negb (Shop.owned s key) && (price <=? Shop.global_coins s)
       then Shop.global_coins s - price else Shop.global_coins s) /\
    Shop.bought_items s1
    = (if negb (Shop.owned s key) && (price <=? Shop.global_coins s)
       then Shop.bought_items s ++ [key] else Shop.bought_items s) /\
    Shop.current_skin s1
    = (if Shop.owned s key || (price <=? Shop.global_coins s)
       then key else Shop.current_skin s) /\
    Shop.global_coins s2 = Shop.global_coins s1 /\
    Shop.bought_items s2 = Shop.bought_items s1 /\
    Shop.current_skin s2 = Shop.current_skin s1.
Proof.
  intros Hinv.
  destruct (action_item_spec s Hinv)
    as [s1 [key [price [Hrun [Hnth [E1 [E2 [E3 Hcases]]]]]]]].
  destruct (action_item_follows s Hinv) as [s1' [Hrun' [Hinv1 _]]].
  assert (s1' = s1) by congruence. subst s1'.
  destruct (action_item_spec s1 Hinv1)
    as [s2 [key2 [price2 [Hrun2 [Hnth2 [_ [_ [_ Hcases2]]]]]]]].
  rewrite E1, E2, Hnth in Hnth2. injection Hnth2 as <- <-.
  exists s1, s2, key, price. split; [exact Hrun|]. split; [exact Hrun2|].
  split; [exact Hnth|].
  destruct Hcases as [[Hin [C1 [C2 [C3 _]]]]
                     |[[Hnot [Hle [C1 [C2 [C3 _]]]]]
                      |[Hnot [Hlt [C1 [C2 [C3 _]]]]]]].
  - assert (Ho : Shop.owned s key = true) by (apply owned_in; exact Hin).
    rewrite Ho. cbn [negb andb orb].
    destruct Hcases2 as [[_ [D1 [D2 [D3 _]]]]
                        |[[Hnot2 _]|[Hnot2 _]]];
      try (exfalso; apply Hnot2; rewrite C2; exact Hin).
    repeat split; congruence.
  - assert (Ho : Shop.owned s key = false).
    { destruct (Shop.owned s key) eqn:E; [|reflexivity].
      apply owned_in in E. contradiction. }
    rewrite Ho. destruct (Z.leb_spec price (Shop.global_coins s)); [|lia].
    cbn [negb andb orb].
    assert (Hin1 : In key (Shop.bought_items s1)).
    { rewrite C2. apply in_app_iff. right. now left. }
    destruct Hcases2 as [[_ [D1 [D2 [D3 _]]]]
                        |[[Hnot2 _]|[Hnot2 _]]];
      try (exfalso; apply Hnot2; exact Hin1).
    repeat split; congruence.
  - assert (Ho : Shop.owned s key = false).
    { destruct (Shop.owned s key) eqn:E; [|reflexivity].
      apply owned_in in E. contradiction. }
    rewrite Ho. destruct (Z.leb_spec price (Shop.global_coins s)); [lia|].
    cbn [negb andb orb].
    destruct Hcases2 as [[Hin2 _]
                        |[[_ [Hle2 _]]|[_ [_ [D1 [D2 [D3 _]]]]]]].
    + exfalso. apply Hnot. rewrite <- C2. exact Hin2.
    + exfalso. lia.
    + repeat split; congruence.
Qed.

Lemma skin_paid_once_witness :
  exists s1 s2,
    Shop.action_item
      (Shop.set_selected_index
         (Shop.init 7 ["travel_boy"%string] "travel_boy" Shop) 1) = Done s1 /\
    Shop.action_item s1 = Done s2 /\
    Shop.global_coins s2 = Shop.global_coins s1.
Proof.
  destruct (skin_paid_once
              (Shop.set_selected_index
                 (Shop.init 7 ["travel_boy"%string] "travel_boy" Shop) 1))
    as [s1 [s2 [key [price [H1 [H2 [_ [_ [_ [_ [H3 _]]]]]]]]]]].
  - unfold Shop.invariant. split; [reflexivity|].
    split; [vm_compute; split; [discriminate|reflexivity]|].
    split; [vm_compute; discriminate|].
    constructor; [intros []|constructor].
  - exists s1, s2. split; [exact H1|]. split; [exact H2|exact H3].
Defined.

(** ** The level file *)

Lemma not_blank_rstrip line :
  Utils.not_blank (Utils.rstrip_newline line) = Utils.not_blank line.
Proof.
  induction line as [|c rest IH]; [reflexivity|].
  cbn [Utils.rstrip_newline].
  destruct (Utils.rstrip_newline rest) as [|c' r] eqn:E.
  - cbn [Utils.not_blank] in IH.
    destruct (Ascii.eqb_spec c "010"%char) as [->|Hc].
    + cbn [Utils.not_blank]. rewrite <- IH. reflexivity.
    + cbn [Utils.not_blank]. rewrite <- IH. reflexivity.
  - cbn [Utils.not_blank] in *. now rewrite IH.
Qed.

Lemma rstrip_cons c rest :
  Utils.rstrip_newline (String c rest) =
  match Utils.rstrip_newline rest with
  | EmptyString =>
      if Ascii.eqb c "010"%char then EmptyString else String c EmptyString
  | String c' r => String c (String c' r)
  end.
Proof. reflexivity. Qed.

Lemma rstrip_twice line :
  Utils.rstrip_newline (Utils.rstrip_newline line) = Utils.rstrip_newline line.
Proof.
  induction line as [|c rest IH]; [reflexivity|].
  rewrite rstrip_cons.
  destruct (Utils.rstrip_newline rest) as [|c' r] eqn:E.
  - destruct (Ascii.eqb c "010"%char) eqn:Ec; [reflexivity|].
    rewrite rstrip_cons. cbn [Utils.rstrip_newline]. now rewrite Ec.
  - rewrite rstrip_cons, IH. reflexivity.
Qed.

Lemma not_blank_nonempty line : Utils.not_blank line = true -> line <> EmptyString.
Proof. intros H ->. discriminate. Qed.

(** X29: [load_level] returns the lines of the file that are not blank, in
    their order, without their line ends: no row is empty or blank, and
    none ends with a line end.  So the grid [TileMap] builds from a level
    file has a positive width whenever it has a row; a missing file gives
    the empty grid. *)
Theorem load_level_rows (file : option (list string)) :
  Forall (fun row => row <> EmptyString /\ Utils.not_blank row = true /\
                     Utils.rstrip_newline row = row)
         (Utils.load_level file) /\
  (forall lines, file = Some lines ->
     List.length (Utils.load_level file)
     = List.length (filter Utils.not_blank lines)) /\
  (file = None ->
   TileMap.init (Utils.load_level file) = TileMap.mk [] 0 0) /\
  (Utils.load_level file <> [] ->
   0 < TileMap.width (TileMap.init (Utils.load_level file)) /\
   0 < TileMap.height (TileMap.init (Utils.load_level file))).
Proof.
  assert (Hrows : Forall (fun row => row <> EmptyString /\
                            Utils.not_blank row = true /\
                            Utils.rstrip_newline row = row)
                         (Utils.load_level file)).
  { destruct file as [lines|]; [|constructor]. cbn [Utils.load_level].
    apply Forall_forall. intros row Hin. apply in_map_iff in Hin.
    destruct Hin as [line [<- Hin]]. apply filter_In in Hin.
    destruct Hin as [_ Hnb].
    assert (Hnb' : Utils.not_blank (Utils.rstrip_newline line) = true)
      by (rewrite not_blank_rstrip; exact Hnb).
    split; [apply not_blank_nonempty; exact Hnb'|].
    split; [exact Hnb'|apply rstrip_twice]. }
  split; [exact Hrows|]. split; [|split].
  - intros lines ->. cbn [Utils.load_level]. apply length_map.
  - intros ->. reflexivity.
  - intros Hne. destruct (Utils.load_level file) as [|row rows] eqn:E;
      [congruence|].
    split.
    + inversion Hrows as [|r rs [Hr _] _]; subst.
      cbn [TileMap.init TileMap.width TileMap.max_len fold_right].
      destruct row as [|c row]; [congruence|]. cbn [String.length]. lia.
    + cbn [TileMap.init TileMap.height List.length]. lia.
Qed.

(** ** The camera and the screen shake *)

Lemma virt_size : Camera.virt_w = 1290 /\ Camera.virt_h = 967.
Proof. split; reflexivity. Qed.

Lemma Qmax_spec a b :
  (a <= Camera.Qmax a b)%Q /\ (b <= Camera.Qmax a b)%Q /\
  (Camera.Qmax a b = a \/ Camera.Qmax a b = b).
Proof.
  unfold Camera.Qmax. destruct (Qle_bool a b) eqn:E.
  - apply Qle_bool_iff in E. repeat split; try lra. now right.
  - assert (~ (a <= b)%Q) by (rewrite <- Qle_bool_iff; congruence).
    repeat split; try lra. now left.
Qed.

Lemma Qmin_spec a b :
  (Camera.Qmin a b <= a)%Q /\ (Camera.Qmin a b <= b)%Q /\
  (Camera.Qmin a b = a \/ Camera.Qmin a b = b).
Proof.
  unfold Camera.Qmin. destruct (Qle_bool a b) eqn:E.
  - apply Qle_bool_iff in E. repeat split; try lra. now left.
  - assert (~ (a <= b)%Q) by (rewrite <- Qle_bool_iff; congruence).
    repeat split; try lra. now right.
Qed.

Lemma clamp_in_range lo hi v :
  (lo <= hi)%Q ->
  (lo <= Camera.Qmax lo (Camera.Qmin v hi))%Q /\
  (Camera.Qmax lo (Camera.Qmin v hi) <= hi)%Q.
Proof.
  intros H. destruct (Qmax_spec lo (Camera.Qmin v hi)) as [H1 [H2 H3]].
  destruct (Qmin_spec v hi) as [H4 [H5 _]].
  split; [exact H1|]. destruct H3 as [->| ->]; lra.
Qed.

(** X30: the camera stays inside a level that is larger than the view.
    When the level is wider than the view, the horizontal scroll is
    between 0 and the width of the level minus that of the view, at the
    set-up of the level and after the follow of any frame, wherever the
    player and the old scroll are; likewise vertically, with the offset of
    the HUD.  A level not wider than the view is centred at set-up,
    whatever the position of the player.  The screen shake never goes
    below zero and never grows on its own, and [add_screen_shake] never
    lowers it. *)
Theorem camera_stays_in_level (tm : TileMap.t) (p : Player.t) (scroll : Q * Q)
    (dt shake amount : Q) :
  (Camera.virt_w < TileMap.width tm * TILE_SIZE ->
   (0 <= fst (Camera.initial_scroll tm p)
    <= inject_Z (TileMap.width tm * TILE_SIZE - Camera.virt_w))%Q /\
   (0 <= fst (Camera.follow tm p scroll dt)
    <= inject_Z (TileMap.width tm * TILE_SIZE - Camera.virt_w))%Q) /\
  (Camera.virt_h < TileMap.height tm * TILE_SIZE ->
   (0 <= snd (Camera.initial_scroll tm p)
    <= inject_Z (TileMap.height tm * TILE_SIZE - Camera.virt_h)
       + Camera.ui_offset)%Q /\
   (0 <= snd (Camera.follow tm p scroll dt)
    <= inject_Z (TileMap.height tm * TILE_SIZE - Camera.virt_h)
       + Camera.ui_offset)%Q) /\
  (TileMap.width tm * TILE_SIZE <= Camera.virt_w ->
   fst (Camera.initial_scroll tm p)
   = inject_Z ((TileMap.width tm * TILE_SIZE - Camera.virt_w) / 2)) /\
  ((0 <= shake)%Q -> (0 <= dt)%Q ->
   (0 <= Camera.shake_tick shake dt)%Q /\
   (Camera.shake_tick shake dt <= shake)%Q) /\
  (shake <= Camera.add_screen_shake shake amount)%Q /\
  (amount <= Camera.add_screen_shake shake amount)%Q.
Proof.
  split; [|split; [|split; [|split]]].
  - intros Hw. unfold Camera.initial_scroll, Camera.follow. cbn [fst snd].
    destruct (Z.gtb_spec (TileMap.width tm * TILE_SIZE) Camera.virt_w); [|lia].
    split.
    + rewrite <- !Zle_Qle. change 0%Q with (inject_Z 0). rewrite <- Zle_Qle. lia.
    + apply clamp_in_range. change 0%Q with (inject_Z 0). rewrite <- Zle_Qle.
      lia.
  - intros Hh. unfold Camera.initial_scroll, Camera.follow. cbn [fst snd].
    destruct (Z.gtb_spec (TileMap.height tm * TILE_SIZE) Camera.virt_h); [|lia].
    assert (Hr : (0 <= inject_Z (TileMap.height tm * TILE_SIZE - Camera.virt_h)
                      + Camera.ui_offset)%Q).
    { assert (0 <= inject_Z (TileMap.height tm * TILE_SIZE - Camera.virt_h))%Q
        by (change 0%Q with (inject_Z 0); rewrite <- Zle_Qle; lia).
      assert (0 <= Camera.ui_offset)%Q by (vm_compute; discriminate).
      lra. }
    split; apply clamp_in_range; exact Hr.
  - intros Hw. unfold Camera.initial_scroll. cbn [fst].
    destruct (Z.gtb_spec (TileMap.width tm * TILE_SIZE) Camera.virt_w); [lia|].
    reflexivity.
  - intros Hs Hdt. unfold Camera.shake_tick.
    destruct (Qpositive shake); [|split; lra].
    destruct (Qlt_le_dec (shake - inject_Z 60 * dt) 0) as [Hlt|Hge].
    + split; lra.
    + change (inject_Z 60) with (60 # 1)%Q in *. split; lra.
  - unfold Camera.add_screen_shake.
    destruct (Qmax_spec shake amount) as [H1 [H2 _]]. split; assumption.
Qed.
